(** * EhSyringe: the live-DOM tag translation engine

    A shallow embedding of [src/plugin/syringe/index.ts] (classes
    [TagNodeRef] and [Syringe]) and of the rule tables of
    [src/services/ui-translation/data/archiver.ts], with the properties
    the specification states about them.

    Conventions.
    - A JavaScript string is a [string]; one character of the model stands
      for one code unit of the source.  Truthiness of a string is
      non-emptiness ([truthy]).
    - A DOM node is a number (its identity); the document is a finite map
      from identities to node records.  The map holds the nodes of the page;
      the children an assignment to [innerText] or [innerHTML] creates are
      recorded as the content of their element and have no identity of
      their own.  On an identity without a record the functions leave the
      state alone.
    - [Record<string, string>] is a plain object: a finite map of its own
      properties, read with [Js.get], which also finds what every object
      inherits from [Object.prototype].  [undefined] is [None]. *)

From Stdlib Require Import Ascii String.
From stdpp Require Import base option list gmap strings.

Local Open Scope string_scope.
Set Warnings "-register-all".

(** ** JavaScript string primitives used by the plugin *)

Module Js.

Definition truthy (s : string) : bool :=
  match s with EmptyString => false | String _ _ => true end.

(** [s.split(sep)] for a one-character separator: never empty. *)
Fixpoint split (sep : ascii) (s : string) : list string :=
  match s with
  | EmptyString => [EmptyString]
  | String c s' =>
      if Ascii.eqb c sep then EmptyString :: split sep s'
      else match split sep s' with
           | h :: t => String c h :: t
           | [] => [String c EmptyString]
           end
  end.

(** [s.startsWith(p)] *)
Fixpoint startsWith (p s : string) : bool :=
  match p, s with
  | EmptyString, _ => true
  | String a p', String b s' => Ascii.eqb a b && startsWith p' s'
  | String _ _, EmptyString => false
  end.

(** [s.slice(n)] for a non-negative [n] *)
Fixpoint slice (n : nat) (s : string) : string :=
  match n, s with
  | O, _ => s
  | S n', String _ s' => slice n' s'
  | S _, EmptyString => EmptyString
  end.

(** [s.replace(/c/g, by)] for a one-character pattern: every occurrence. *)
Fixpoint replaceAllChar (c by_ : ascii) (s : string) : string :=
  match s with
  | EmptyString => EmptyString
  | String a s' => String (if Ascii.eqb a c then by_ else a) (replaceAllChar c by_ s')
  end.

(** [s[i]]: the character at an index, [undefined] out of range. *)
Definition charAt (i : nat) (s : string) : option ascii := String.get i s.

(** [s.indexOf(p) >= 0] *)
Fixpoint includes (p s : string) : bool :=
  startsWith p s ||
  match s with
  | EmptyString => false
  | String _ s' => includes p s'
  end.

(** [s.replace(p, by)] for a pattern without metacharacters and a
    replacement without [$]: the first occurrence only. *)
Fixpoint replaceFirst (p by_ s : string) : string :=
  if startsWith p s then by_ +:+ slice (String.length p) s
  else match s with
       | EmptyString => EmptyString
       | String a s' => String a (replaceFirst p by_ s')
       end.

(** *** Plain objects

    A [Record<string, string>] of the plugin is a plain object, made by
    [{}] or read from the storage.  An own property holds a string, or
    [undefined] when that is what was assigned to it. *)
Abbreviation Obj := (gmap string (option string)).

(** What reading a property yields: [undefined], a string, or the member
    [name] of [Object.prototype] (a function, and for [__proto__] the
    prototype object itself). *)
Inductive Value :=
| Undefined
| Str (s : string)
| Member (name : string).

#[global] Instance Value_eq_dec : EqDecision Value.
Proof. solve_decision. Defined.

(** The properties every plain object inherits. *)
Definition objectPrototype : list string :=
  ["constructor"; "hasOwnProperty"; "isPrototypeOf"; "propertyIsEnumerable";
   "toLocaleString"; "toString"; "valueOf"; "__proto__";
   "__defineGetter__"; "__defineSetter__"; "__lookupGetter__"; "__lookupSetter__"].

(** [!!value]: a function or an object is truthy. *)
Definition truthyValue (v : Value) : bool :=
  match v with
  | Undefined => false
  | Str s => truthy s
  | Member _ => true
  end.

Definition own (v : option string) : Value :=
  match v with Some s => Str s | None => Undefined end.

(** [obj[k]]: the own property, else the inherited one, else [undefined]. *)
Definition get (obj : Obj) (k : string) : Value :=
  match obj !! k with
  | Some v => own v
  | None => if bool_decide (k ∈ objectPrototype) then Member k else Undefined
  end.

(** [obj[k] = v] for a string or [undefined]: an own property is created or
    overwritten, except that, without an own property of that name, the
    assignment to [__proto__] reaches the setter of [Object.prototype],
    which ignores a value that is neither an object nor [null]. *)
Definition set (k : string) (v : option string) (obj : Obj) : Obj :=
  if bool_decide (k = "__proto__") && bool_decide (obj !! k = None) then obj
  else <[k := v]> obj.

End Js.

(** ** The document *)

Inductive NodeType := ELEMENT_NODE | TEXT_NODE | OTHER_NODE.

#[global] Instance NodeType_eq_dec : EqDecision NodeType.
Proof. solve_decision. Defined.

(** What an element shows.  The engine only ever replaces the whole content
    of an element ([innerText = ...], [innerHTML = ...]); the model records
    the last such write, and [HostContent] while the children are still the
    ones the page built.  The nodes the browser creates for such a write
    are what the content stands for: they get no record in the document. *)
Inductive Content :=
| HostContent
| InnerText (s : string)
| InnerHTML (s : string).

#[global] Instance Content_eq_dec : EqDecision Content.
Proof. solve_decision. Defined.

Record Node := mkNode {
  nodeType : NodeType;
  nodeName : string;
  localName : string;
  parentNode : option nat;
  attributes : gmap string string;
  classList : list string;
  data : string;                (* [Text.data], the [textContent] of a text node *)
  content : Content
}.

Abbreviation Dom := (gmap nat Node).

Module Dom.

Definition with_parentNode (p : option nat) (nd : Node) : Node :=
  mkNode (nodeType nd) (nodeName nd) (localName nd) p
         (attributes nd) (classList nd) (data nd) (content nd).

Definition with_attributes (a : gmap string string) (nd : Node) : Node :=
  mkNode (nodeType nd) (nodeName nd) (localName nd) (parentNode nd)
         a (classList nd) (data nd) (content nd).

Definition with_content (c : Content) (nd : Node) : Node :=
  mkNode (nodeType nd) (nodeName nd) (localName nd) (parentNode nd)
         (attributes nd) (classList nd) (data nd) c.

(** [node.parentElement]: the parent when it is an element. *)
Definition parentElement (d : Dom) (n : nat) : option nat :=
  nd ← d !! n;
  p ← parentNode nd;
  pn ← d !! p;
  match nodeType pn with ELEMENT_NODE => Some p | _ => None end.

Definition getAttribute (d : Dom) (n : nat) (k : string) : option string :=
  nd ← d !! n; attributes nd !! k.

Definition hasAttribute (d : Dom) (n : nat) (k : string) : bool :=
  bool_decide (is_Some (getAttribute d n k)).

Definition setAttribute (n : nat) (k v : string) (d : Dom) : Dom :=
  alter (fun nd => with_attributes (<[k := v]> (attributes nd)) nd) n d.

(** The reflected properties [element.id] and [element.title]. *)
Definition id (d : Dom) (n : nat) : string := default "" (getAttribute d n "id").
Definition title (d : Dom) (n : nat) : string := default "" (getAttribute d n "title").

Definition classContains (d : Dom) (n : nat) (c : string) : bool :=
  match d !! n with
  | Some nd => bool_decide (c ∈ classList nd)
  | None => false
  end.

(** Replacing the content of [n] removes its former children from the
    tree: they lose their parent. *)
Definition detach (n : nat) (nd : Node) : Node :=
  if bool_decide (parentNode nd = Some n) then with_parentNode None nd else nd.

Definition setContent (n : nat) (c : Content) (d : Dom) : Dom :=
  alter (with_content c) n (detach n <$> d).

Definition setInnerText (n : nat) (s : string) : Dom → Dom := setContent n (InnerText s).
Definition setInnerHTML (n : nat) (s : string) : Dom → Dom := setContent n (InnerHTML s).

Definition contentOf (d : Dom) (n : nat) : option Content := content <$> d !! n.

(** One whole write of [translate], the content and then the [lang]
    attribute, and what it does to the record of a node [m]. *)
Definition write (n : nat) (c : Content) (v : string) (d : Dom) : Dom :=
  setAttribute n "lang" v (setContent n c d).

Definition writeNode (n : nat) (c : Content) (v : string) (m : nat) (nd : Node) : Node :=
  if decide (n = m)
  then with_attributes (<["lang" := v]> (attributes nd)) (with_content c (detach n nd))
  else detach n nd.

End Dom.

(** ** External collaborators *)

(** The argument of [tagging.fullKey]: [key] is [undefined] when the split
    text has no colon. *)
Record TagKey := mkTagKey { namespace : string; key : option string }.

#[global] Instance TagKey_eq_dec : EqDecision TagKey.
Proof. solve_decision. Defined.

Module Tagging.
(** [services/tagging]: called, not specified.  [markImagesAndEmoji] is
    handed what [translate] read from the dictionary: a label, or, for a key
    that names one, a member of [Object.prototype]; it is taken to return a
    text for either. *)
Class t := {
  fullKey : TagKey → string;
  markImagesAndEmoji : Js.Value → string
}.
End Tagging.

(** [ConfigData] (of [services/storage]): the options this plugin's
    translation functions read.  [translateTimestamp] is compared with
    [!== false], so it may be missing. *)
Record ConfigData := mkConfig {
  translateTag : bool;
  translateUi : bool;
  translateTimestamp : option bool
}.

(** ** class TagNodeRef *)

Module TagNodeRef.

Record t := mk { node : nat; fullKey : string; original : string }.

#[global] Instance t_eq_dec : EqDecision t.
Proof. solve_decision. Defined.

Definition ATTR : string := "ehs-tag".

(** The result type [TagNodeRef | boolean] of [create]. *)
Inductive created :=
| Ref (r : t)
| Bool (b : bool).

(** [const [namespace, key] = s.split(':')] *)
Definition destructure (s : string) : TagKey :=
  match Js.split ":" s with
  | ns :: rest => mkTagKey ns (head rest)
  | [] => mkTagKey "" None
  end.

(** The object handed to [tagging.fullKey], as [create] builds it from the
    title or, failing that, from the id of the parent element. *)
Definition tagKeyOf (aTitle aId : string) : option TagKey :=
  if Js.truthy aTitle then Some (destructure aTitle)
  else if Js.truthy aId then
    let id := if Js.startsWith "ta_" aId then Js.slice 3 aId else aId in
    let nk := destructure (Js.replaceAllChar "_" " " id) in
    match key nk with
    | Some k => if Js.truthy k then Some nk
                else Some (mkTagKey "" (Some (namespace nk)))
    | None => Some (mkTagKey "" (Some (namespace nk)))
    end
  else None.

(** The private constructor: marks the element.  The back-reference
    [ehs] it also defines on the node object is not an attribute and is
    read by nothing in the plugin; the document does not record it. *)
Definition construct (node : nat) (fullKey original : string) (d : Dom) : t * Dom :=
  let d := Dom.setAttribute node ATTR original d in
  let d := Dom.setAttribute node "lang" "en" d in
  let d := if Dom.hasAttribute d node "title" then d
           else Dom.setAttribute node "title" fullKey d in
  (mk node fullKey original, d).

Section WithTagging.
Context `{Tagging.t}.

Definition create (node : nat) (d : Dom) : created * Dom :=
  match Dom.parentElement d node with
  | None => (Bool true, d)
  | Some parentElement =>
      if Dom.hasAttribute d parentElement ATTR then (Bool true, d)
      else
        let fullKeyCandidate :=
          Tagging.fullKey <$> tagKeyOf (Dom.title d parentElement) (Dom.id d parentElement) in
        match fullKeyCandidate with
        | None => (Bool false, d)
        | Some fullKey =>
            if Js.truthy fullKey then
              let text := default "" (data <$> d !! node) in
              let '(r, d) := construct parentElement fullKey text d in
              (Ref r, d)
            else (Bool false, d)
        end
  end.

Definition alive (r : t) (d : Dom) : bool :=
  bool_decide (is_Some (Dom.parentElement d (node r))).

(** The text [translate] writes for the [value] it read from the
    dictionary, and for a label in particular. *)
Definition render (r : t) (value : Js.Value) : string :=
  let value := Tagging.markImagesAndEmoji value in
  match Js.charAt 1 (original r), Js.charAt 0 (original r) with
  | Some ":"%char, Some c0 => String c0 (String ":" value)
  | _, _ => value
  end.

Definition rendered (r : t) (label : string) : string := render r (Js.Str label).

Definition translate (config : ConfigData) (r : t)
    (tagMap : option Js.Obj) (d : Dom) : bool * Dom :=
  if negb (alive r d) then (true, d)
  else if negb (translateTag config) then
    let d := Dom.setInnerText (node r) (original r) d in
    let d := Dom.setAttribute (node r) "lang" "en" d in
    (true, d)
  else match tagMap with
       | None => (false, d)
       | Some tagMap =>
           let value := Js.get tagMap (fullKey r) in
           if negb (Js.truthyValue value) then (false, d)
           else
             let d := Dom.setInnerHTML (node r) (render r value) d in
             let d := Dom.setAttribute (node r) "lang" "cmn-Hans" d in
             (true, d)
       end.

End WithTagging.
End TagNodeRef.

(** ** The services around the plugin *)

(** What [storage.get] returns for the keys the plugin uses: the two keys
    of the dictionary cache, and the configuration. *)
Record Storage := mkStorage {
  databaseMap : option Js.Obj;
  databaseSha : option string;
  storedConfig : ConfigData
}.

(** The request of [messaging.emit('get-tag-map', { ifNotMatch })]. *)
Record Request := mkRequest { eventName : string; ifNotMatch : option string }.

(** One value of the provider's map, as [data.map[key].name] reads it:
    [null] and [undefined] have no properties, so the read throws; any
    other value (an object, and also a number, a string or a boolean) has a
    [name], which is [undefined] when the value has no such property and
    otherwise a string, as the type of the answer says. *)
Inductive MapEntry :=
| Nullish
| Named (name : option string).

#[global] Instance MapEntry_eq_dec : EqDecision MapEntry.
Proof. solve_decision. Defined.

(** The provider's answer.  [map] is [undefined] when the caller's
    fingerprint is current, and otherwise the enumerable properties of the
    map in the order of [for ... in]. *)
Record TagMapData := mkData {
  map : option (list (string * MapEntry));
  sha : string
}.

(** How the awaited request settles. *)
Inductive Outcome :=
| Fulfilled (data : TagMapData)
| Rejected (ex : string).

Inductive LogEntry :=
| TimerStart (label : string)
| TimerEnd (label : string)
| Log (message : string) (arg : string)
| Error (ex : string).

Module Page.
(** The parts of the page pass that no property below depends on, as
    transformers of the document: [Syringe.setBodyAttrs] and
    [Syringe.translateUi] under the current configuration,
    [Syringe.codePatch], and [document.querySelector('body')]. *)
Class t := {
  setBodyAttrs : ConfigData → nat → Dom → Dom;
  translateUi : ConfigData → nat → Dom → Dom;
  codePatch : Dom → Dom;
  body : Dom → option nat
}.
End Page.

Module UiTranslation.

(** One pair [[k, v]] of [regexReplacements]: whether [k] matches a text,
    and the function [text => text.replace(k, v)]. *)
Record RegexRule := mkRule {
  rxTest : string → bool;
  rxReplace : string → string
}.

(** What [uiTranslation.get()] returns. *)
Record t := mk {
  plainReplacements : gmap string string;
  regexReplacements : list RegexRule
}.

(** A pattern without metacharacters or flags, and a replacement without [$]. *)
Definition literal (pattern replacement : string) : RegexRule :=
  mkRule (Js.includes pattern) (Js.replaceFirst pattern replacement).

End UiTranslation.

Module DateTime.
(** The two timestamp passes of [translateUiText], which depend on
    [Date.parse] and on [time.diff]: [text.replace(/\d\d\d\d-\d\d-\d\d
    \d\d:\d\d/g, ...)] and the pass for [DD Month YYYY, HH:MM]. *)
Class t := {
  rewriteNumericDates : string → string;
  rewriteNamedDates : string → string
}.
End DateTime.

(** ** class Syringe *)

Module Syringe.

(** The fields of the object, and below them the world it acts on: the
    document, the stores and channels of the injected services, and the
    suspended bodies of [updateTagMap] (each named by the promise its call
    created). *)
Record t := mk {
  tags : list TagNodeRef.t;
  tagMap : option Js.Obj;
  documentEnd : bool;
  config : ConfigData;
  updatingTagMap : option nat;
  document : Dom;
  storage : Storage;
  logger : list LogEntry;
  emitted : list Request;
  pending : list nat;
  nextPromise : nat;
  unhandled : list string
}.

Definition with_tags v s :=
  mk v (tagMap s) (documentEnd s) (config s) (updatingTagMap s) (document s)
     (storage s) (logger s) (emitted s) (pending s) (nextPromise s) (unhandled s).
Definition with_tagMap v s :=
  mk (tags s) v (documentEnd s) (config s) (updatingTagMap s) (document s)
     (storage s) (logger s) (emitted s) (pending s) (nextPromise s) (unhandled s).
Definition with_documentEnd v s :=
  mk (tags s) (tagMap s) v (config s) (updatingTagMap s) (document s)
     (storage s) (logger s) (emitted s) (pending s) (nextPromise s) (unhandled s).
Definition with_config v s :=
  mk (tags s) (tagMap s) (documentEnd s) v (updatingTagMap s) (document s)
     (storage s) (logger s) (emitted s) (pending s) (nextPromise s) (unhandled s).
Definition with_updatingTagMap v s :=
  mk (tags s) (tagMap s) (documentEnd s) (config s) v (document s)
     (storage s) (logger s) (emitted s) (pending s) (nextPromise s) (unhandled s).
Definition with_document v s :=
  mk (tags s) (tagMap s) (documentEnd s) (config s) (updatingTagMap s) v
     (storage s) (logger s) (emitted s) (pending s) (nextPromise s) (unhandled s).
Definition with_storage v s :=
  mk (tags s) (tagMap s) (documentEnd s) (config s) (updatingTagMap s) (document s)
     v (logger s) (emitted s) (pending s) (nextPromise s) (unhandled s).
Definition with_logger v s :=
  mk (tags s) (tagMap s) (documentEnd s) (config s) (updatingTagMap s) (document s)
     (storage s) v (emitted s) (pending s) (nextPromise s) (unhandled s).
Definition with_emitted v s :=
  mk (tags s) (tagMap s) (documentEnd s) (config s) (updatingTagMap s) (document s)
     (storage s) (logger s) v (pending s) (nextPromise s) (unhandled s).
Definition with_pending v s :=
  mk (tags s) (tagMap s) (documentEnd s) (config s) (updatingTagMap s) (document s)
     (storage s) (logger s) (emitted s) v (nextPromise s) (unhandled s).
Definition with_nextPromise v s :=
  mk (tags s) (tagMap s) (documentEnd s) (config s) (updatingTagMap s) (document s)
     (storage s) (logger s) (emitted s) (pending s) v (unhandled s).
Definition with_unhandled v s :=
  mk (tags s) (tagMap s) (documentEnd s) (config s) (updatingTagMap s) (document s)
     (storage s) (logger s) (emitted s) (pending s) (nextPromise s) v.

Definition log (e : LogEntry) (s : t) : t := with_logger (logger s ++ [e]) s.

(** What is left of a walk with a [NodeIterator]: [nextNode()] returns
    [null], or a node.  The iterator is live: the node it returns is found
    in the tree as it is at the time of the call, so it depends on what the
    visits so far have inserted below the root and removed from it.  The
    document of the model has neither the order of siblings nor the nodes a
    rendering creates, so the answers of the iterator are taken from the
    browser: after each answer, the walk that is left is a function of the
    document the visit of that node has produced.  A walk ends: the
    iterator runs out of nodes. *)
Inductive Walk :=
| Done
| Next (node : nat) (rest : Dom → Walk).

(** An added node as the observer receives it, with the walk the browser
    makes below it when asked. *)
Record AddedNode := mkAdded { node1 : nat; below : Dom → Walk }.

(** [document.createNodeIterator(node1)]: the first call of [nextNode()]
    returns the root itself. *)
Definition createNodeIterator (a : AddedNode) : Walk := Next (node1 a) (below a).

Record MutationRecord := mkMutation { addedNodes : list AddedNode }.

(** The events the plugin has subscribed to: [updateTagMap] is called
    (by [init], and on every [tag-updated] message), the provider settles
    the request of a call, the observer reports mutations, the document
    becomes ready, the stored configuration changes. *)
Inductive Event :=
| UpdateTagMap
| Settled (p : nat) (o : Outcome)
| Mutated (mutations : list MutationRecord)
| Ready
| ConfigChanged (nv : ConfigData).

(** How a block of statements completes. *)
Inductive Completion (A : Type) :=
| Normal (a : A)
| Throw (ex : string).
Arguments Normal {A} a.
Arguments Throw {A} ex.

Inductive RegistryStep :=
| Classify (node : nat)
| RetranslateAll (tagMap : option Js.Obj)
| HostInsert (n : nat) (nd : Node)
| HostReparent (n : nat) (parent : option nat).

Section WithServices.
Context `{Tagging.t}.

(** [private translateTags(tagMap?)] *)
Definition translateTags (tagMap : option Js.Obj) (s : t) : t :=
  let tags := List.filter (fun r => TagNodeRef.alive r (document s)) (tags s) in
  let s := with_tags tags s in
  let tagMap := match tagMap with Some m => Some m | None => Syringe.tagMap s end in
  let tagMap := match tagMap with Some m => Some m | None => databaseMap (storage s) end in
  let s := with_tagMap tagMap s in
  with_document
    (foldl (fun d r => snd (TagNodeRef.translate (config s) r tagMap d)) (document s) tags) s.

Definition skipNode : list string :=
  ["TITLE"; "LINK"; "META"; "HEAD"; "SCRIPT"; "BR"; "HR"; "STYLE"; "MARK"].

(** [isNode(node, name)] and [isText(node)] *)
Definition isNode (d : Dom) (n : nat) (name : string) : bool :=
  match d !! n with
  | Some nd => bool_decide (nodeType nd = ELEMENT_NODE) && bool_decide (localName nd = name)
  | None => false
  end.

Definition isText (d : Dom) (n : nat) : bool :=
  match d !! n with
  | Some nd => bool_decide (nodeType nd = TEXT_NODE)
  | None => false
  end.

Definition isTagContainer (d : Dom) (n : option nat) : bool :=
  match n with
  | None => false
  | Some n => Dom.classContains d n "gt" || Dom.classContains d n "gtl"
              || Dom.classContains d n "gtw"
  end.

Definition nodeNameOf (d : Dom) (n : nat) : string := default "" (nodeName <$> d !! n).

Definition translateTag (n : nat) (s : t) : bool * t :=
  let d := document s in
  match Dom.parentElement d n with
  | None => (false, s)
  | Some parentElement =>
      if negb (isText d n) then (false, s)
      else if bool_decide (nodeNameOf d parentElement = "MARK")
              || Dom.classContains d parentElement "auto-complete-text"
      then (true, s)
      else if negb (isTagContainer d (Some parentElement))
              && negb (isTagContainer d (Dom.parentElement d parentElement))
      then (false, s)
      else
        match TagNodeRef.create n d with
        | (TagNodeRef.Bool b, d) => (b, with_document d s)
        | (TagNodeRef.Ref ref, d) =>
            let d := snd (TagNodeRef.translate (config s) ref (tagMap s) d) in
            (true, with_tags (tags s ++ [ref]) (with_document d s))
        end
  end.

(** What happens to the registry and to the page, one call at a time: a
    text node is classified ([translateTag]), the registry is re-translated
    ([translateTags]), the page adds a node, the page moves or removes one. *)
Definition registryStep (s : t) (e : RegistryStep) : t :=
  match e with
  | Classify n => (translateTag n s).2
  | RetranslateAll D => translateTags D s
  | HostInsert n nd =>
      match document s !! n with
      | None => with_document (<[n := nd]> (document s)) s
      | Some _ => s
      end
  | HostReparent n p => with_document (alter (Dom.with_parentNode p) n (document s)) s
  end.

(** The entries a step pushes to the registry (only a classification
    pushes any), and all the entries created along a sequence of steps. *)
Definition createdBy (s : t) (e : RegistryStep) : list TagNodeRef.t :=
  match e with
  | Classify n => drop (length (tags s)) (tags (translateTag n s).2)
  | _ => []
  end.

Fixpoint created (s : t) (steps : list RegistryStep) : list TagNodeRef.t :=
  match steps with
  | [] => []
  | e :: steps => createdBy s e ++ created (registryStep s e) steps
  end.

Section WithPage.
Context `{Page.t}.

Definition skipped (d : Dom) (n : nat) : bool :=
  match d !! n with
  | None => true
  | Some nd =>
      negb (Js.truthy (nodeName nd))
      || bool_decide (nodeName nd ∈ skipNode)
      || match parentNode nd with
         | Some p => match d !! p with
                     | Some pn => bool_decide (nodeName pn ∈ skipNode)
                     | None => false
                     end
         | None => false
         end
  end.

Definition translateNode (n : nat) (s : t) : t :=
  if skipped (document s) n then s
  else
    let s := if isNode (document s) n "body"
             then with_document (Page.setBodyAttrs (config s) n (document s)) s
             else s in
    let '(handled, s) := translateTag n s in
    if negb handled && translateUi (config s)
    then with_document (Page.translateUi (config s) n (document s)) s
    else s.

(** *** The mutation observer of [init] *)

(** [let node = nodeIterator.nextNode(); while (node) {
    this.translateNode(node); node = nodeIterator.nextNode(); }] *)
Fixpoint whileNode (w : Walk) (s : t) : t :=
  match w with
  | Done => s
  | Next node rest =>
      let s := translateNode node s in
      whileNode (rest (document s)) s
  end.

(** The body of [mutation.addedNodes.forEach((node1) => ...)].
    [node1.childNodes] is a [NodeList] object for every node, also for one
    without children, so the condition is [this.documentEnd] alone. *)
Definition onAddedNode (s : t) (a : AddedNode) : t :=
  let s := translateNode (node1 a) s in
  if documentEnd s && true
  then whileNode (createNodeIterator a) s
  else s.

Definition observerCallback (mutations : list MutationRecord) (s : t) : t :=
  foldl (fun s mutation => foldl onAddedNode s (addedNodes mutation)) s mutations.

(** The nodes [translateNode] is called on, in order: along a walk, for
    one added node, and for a batch of mutation records
    ([observerCallback_calls] below shows that these are the calls the
    callback makes). *)
Fixpoint visits (w : Walk) (s : t) : list nat :=
  match w with
  | Done => []
  | Next node rest =>
      node :: visits (rest (document (translateNode node s))) (translateNode node s)
  end.

Definition callsFor (s : t) (a : AddedNode) : list nat :=
  node1 a :: (if documentEnd s
              then visits (createNodeIterator a) (translateNode (node1 a) s)
              else []).

Fixpoint callsForAll (s : t) (l : list AddedNode) : list nat :=
  match l with
  | [] => []
  | a :: l => callsFor s a ++ callsForAll (onAddedNode s a) l
  end.

Fixpoint calls (s : t) (mutations : list MutationRecord) : list nat :=
  match mutations with
  | [] => []
  | mutation :: mutations =>
      callsForAll s (addedNodes mutation)
      ++ calls (foldl onAddedNode s (addedNodes mutation)) mutations
  end.

End WithPage.

(** *** [updateTagMap] *)

Definition M (A : Type) : Type := t → Completion A * t.

#[local] Instance M_ret : MRet M := fun A a s => (Normal a, s).
#[local] Instance M_bind : MBind M := fun A B f m s =>
  match m s with
  | (Normal a, s') => f a s'
  | (Throw ex, s') => (Throw ex, s')
  end.

Definition throw {A} (ex : string) : M A := fun s => (Throw ex, s).
Definition lift (f : t → t) : M unit := fun s => (Normal tt, f s).
Definition completion {A} (c : Completion A) : M A := fun s => (c, s).

(** [try { body } catch (ex) { handler } finally { fin }] *)
Definition tryCatchFinally (body : M unit) (handler : string → M unit) (fin : M unit)
  : M unit := fun s =>
  match body s with
  | (Normal _, s1) => fin s1
  | (Throw ex, s1) =>
      match handler ex s1 with
      | (Normal _, s2) => fin s2
      | (Throw ex', s2) =>
          match fin s2 with
          | (Normal _, s3) => (Throw ex', s3)
          | (Throw ex'', s3) => (Throw ex'', s3)
          end
      end
  end.

(** [await]: the value of a fulfilled promise, the exception of a rejected one. *)
Definition await (o : Outcome) : M TagMapData :=
  match o with
  | Fulfilled data => mret data
  | Rejected ex => throw ex
  end.

(** [for (const key in data.map) tagMap[key] = data.map[key].name] *)
Fixpoint buildTagMap (entries : list (string * MapEntry))
    (tagMap : Js.Obj) : Completion Js.Obj :=
  match entries with
  | [] => Normal tagMap
  | (key, Named name) :: rest => buildTagMap rest (Js.set key name tagMap)
  | (key, Nullish) :: _ => Throw "TypeError"
  end.

Definition storageSetMap (m : Js.Obj) (s : t) : t :=
  with_storage
    (mkStorage (Some m) (databaseSha (storage s)) (storedConfig (storage s))) s.
Definition storageSetSha (v : string) (s : t) : t :=
  with_storage
    (mkStorage (databaseMap (storage s)) (Some v) (storedConfig (storage s))) s.
Definition storageSetConfig (v : ConfigData) (s : t) : t :=
  with_storage (mkStorage (databaseMap (storage s)) (databaseSha (storage s)) v) s.

Definition timerLabel : string := "获取替换数据".

(** The [try] block from the [await] on. *)
Definition afterAwait (o : Outcome) : M unit :=
  data ← await o;
  match map data with
  | Some entries =>
      tagMap ← completion (buildTagMap entries ∅);
      _ ← lift (translateTags (Some tagMap));
      _ ← lift (storageSetMap tagMap);
      _ ← lift (storageSetSha (sha data));
      lift (log (Log "替换数据已更新" (sha data)))
  | None => lift (log (Log "替换数据已经最新" (sha data)))
  end.

(** The [finally] block; [local] is the closure's variable [updatingTagMap]. *)
Definition finallyBlock (local : option nat) : M unit := fun s =>
  let s := log (TimerEnd timerLabel) s in
  if bool_decide (updatingTagMap s = local)
  then (Normal tt, with_updatingTagMap None s)
  else (Normal tt, s).

(** The async function from its [await] to its end, for the call whose
    promise is [p]: by then the closure's variable holds that promise. *)
Definition resume (p : nat) (o : Outcome) : M unit :=
  tryCatchFinally (afterAwait o) (fun ex => lift (log (Error ex))) (finallyBlock (Some p)).

(** [private updateTagMap(): void].  The async function runs up to its
    [await]: it starts the timer, reads the cached fingerprint and emits
    the request; then the promise is stored in the guard. *)
Definition updateTagMap (s : t) : t :=
  match updatingTagMap s with
  | Some _ => s
  | None =>
      let p := nextPromise s in
      let s := with_nextPromise (S p) s in
      let s := log (TimerStart timerLabel) s in
      let currentSha := databaseSha (storage s) in
      let s := with_emitted (emitted s ++ [mkRequest "get-tag-map" currentSha]) s in
      let s := with_pending (pending s ++ [p]) s in
      with_updatingTagMap (Some p) s
  end.

(** The provider settles the request of call [p]: the suspended body runs
    to its end.  An exception leaving it would reject the promise of the
    async function, which nothing handles. *)
Definition settle (p : nat) (o : Outcome) (s : t) : t :=
  if bool_decide (p ∈ pending s) then
    let s := with_pending (List.filter (fun q => negb (Nat.eqb q p)) (pending s)) s in
    match resume p o s with
    | (Normal _, s) => s
    | (Throw ex, s) => with_unhandled (unhandled s ++ [ex]) s
    end
  else s.

(** *** The entry points *)

Section WithPage.
Context `{Page.t}.

(** [private updateConfig(config)] *)
Definition updateConfig (config : ConfigData) (s : t) : t :=
  let s := with_config config s in
  let s := storageSetConfig config s in
  let s := match Page.body (document s) with
           | Some body => with_document (Page.setBodyAttrs (Syringe.config s) body (document s)) s
           | None => s
           end in
  translateTags None s.

(** What the plugin reacts to after its construction. *)
Definition step (s : t) (e : Event) : t :=
  match e with
  | UpdateTagMap => updateTagMap s
  | Settled p o => settle p o s
  | Mutated mutations => observerCallback mutations s
  | Ready => with_document (Page.codePatch (document s)) (with_documentEnd true s)
  | ConfigChanged nv => updateConfig nv s
  end.

Definition run (events : list Event) (s : t) : t := foldl step s events.

End WithPage.
End WithServices.

Section WithUi.
Context `{DateTime.t} (uiData : UiTranslation.t).

(** The timestamp part of [translateUiText]. *)
Definition translateTimestamps (config : ConfigData) (repText : string) : string :=
  if bool_decide (translateTimestamp config ≠ Some false)
  then DateTime.rewriteNamedDates (DateTime.rewriteNumericDates repText)
  else repText.

(** [private translateUiText(text): string | undefined] *)
Definition translateUiText (s : t) (text : string) : option string :=
  match UiTranslation.plainReplacements uiData !! text with
  | Some plain => Some plain
  | None =>
      let repText :=
        foldl (fun repText kv => UiTranslation.rxReplace kv repText) text
              (UiTranslation.regexReplacements uiData) in
      let repText := translateTimestamps (config s) repText in
      if bool_decide (repText ≠ text) then Some repText else None
  end.

End WithUi.
End Syringe.

(** ** [services/ui-translation/data/archiver.ts] *)

Module Archiver.

Definition nbsp : string := String (ascii_of_nat 160) EmptyString.

(** The phrase table of [merge(/^\/archiver\.php/, undefined, ...)]. *)
Definition plain : gmap string string :=
  list_to_map
    [("Current Funds:", "现有资金");
     ("Estimated Size: " +:+ nbsp +:+ " ", "预计大小： ");
     ("Download Cost: " +:+ nbsp +:+ " ", "下载费用： ");
     ("Free!", "免费！");
     ("Insufficient Funds", "余额不足");
     ("Download Original Archive", "下载原始档案");
     ("Download Resample Archive", "下载重采样档案");
     ("You unlocked an ", "已解锁");
     ("You unlocked a ", "已解锁");
     ("original", "原始");
     ("resample", "重采样");
     (" download of this archive on ", "档案的下载，时间：");
     ("cancel", "取消");
     ("Locating archive server and preparing file for download...",
      "找到存档服务器并准备下载文件...");
     ("(this can take several minutes)", "(这可能需要几分钟的时间)");
     ("Please wait...", "请稍候...");
     ("Close", "取消");
     ("H@H Downloader", "H@H 下载器");
     ("N/A", "不适用");
     ("Original", "原图");
     ("Free", "免费");
     ("Your H@H client appears to be offline.", "你的 H@H 客户端处于离线状态");
     ("Turn it on, then try again.", "请启动 H@H 客户端后重试");
     ("Downloads should start processing within a couple of minutes.",
      "下载应该会在几分钟内开始。")].

Definition isDigit (c : ascii) : bool :=
  (48 <=? nat_of_ascii c)%nat && (nat_of_ascii c <=? 57)%nat.

(** The longest run of digits a text starts with, and the rest. *)
Fixpoint digits (s : string) : string * string :=
  match s with
  | String c s' =>
      if isDigit c then let '(ds, rest) := digits s' in (String c ds, rest)
      else (EmptyString, s)
  | EmptyString => (EmptyString, EmptyString)
  end.

(** [/A (\d+x) resolution/] at the start of a text: the group and what
    follows the match. *)
Definition resolutionAt (s : string) : option (string * string) :=
  if Js.startsWith "A " s then
    let '(ds, rest) := digits (Js.slice 2 s) in
    if Js.truthy ds && Js.startsWith "x resolution" rest
    then Some (ds +:+ "x", Js.slice 12 rest)
    else None
  else None.

Fixpoint testResolution (s : string) : bool :=
  match resolutionAt s with
  | Some _ => true
  | None => match s with
            | EmptyString => false
            | String _ s' => testResolution s'
            end
  end.

(** [text.replace(/A (\d+x) resolution/, '$1 分辨率')] *)
Fixpoint replaceResolution (s : string) : string :=
  match resolutionAt s with
  | Some (group, rest) => group +:+ " 分辨率" +:+ rest
  | None => match s with
            | EmptyString => EmptyString
            | String c s' => String c (replaceResolution s')
            end
  end.

Definition regex : list UiTranslation.RegexRule :=
  [UiTranslation.literal "An original resolution" "原始分辨率";
   UiTranslation.mkRule testResolution replaceResolution;
   UiTranslation.literal " download has been queued for client"
     "的下载请求已添加到下载队列，使用客户端"].

Definition uiData : UiTranslation.t := UiTranslation.mk plain regex.

End Archiver.

(** ** [plugin/tag-context-menu.ts] *)

Module TagContextMenu.

(** [readonly onclick = (info: OnClickData): void]: the tag handed to
    [tagging.editorUrl], whose result is opened in a tab; [None] when the
    handler returns without opening anything.  [info.url] may be missing. *)
Definition onclick (url : option string) : option TagKey :=
  match url with
  | None => None
  | Some url =>
      if negb (Js.includes "/tag/" url) then None
      else
        let seg :=
          match last (Js.split "/" url) with
          | Some segment => Js.split ":" (Js.replaceAllChar "+" " " segment)
          | None => []
          end in
        let namespace :=
          if (length seg <=? 1)%nat then "temp" else default "" (head seg) in
        let key := default "" (last seg) in
        Some (mkTagKey namespace (Some key))
  end.

End TagContextMenu.

(** ** [Syringe.setBodyAttrs] *)

Module Body.

(** What the method reads of its surroundings: [isEx(location.hostname)],
    [isEh(location.hostname)], ['matchMedia' in window] and
    [window.matchMedia('(prefers-color-scheme: dark)').matches]. *)
Record Host := mkHost {
  isEx : bool;
  isEh : bool;
  hasMatchMedia : bool;
  matchesDarkTheme : bool
}.

(** The two fields of [ConfigData] that only this method reads;
    [introduceImageLevel], a member of an enumeration, as the word the
    template string makes of it. *)
Record Options := mkOptions {
  showIcon : bool;
  introduceImageLevel : string
}.

(** [classList.add(token)]: a token list holds a token once. *)
Definition add (token : string) (classes : list string) : list string :=
  if bool_decide (token ∈ classes) then classes else (classes ++ [token])%list.

(** [classList.remove(...tokens)] *)
Definition remove (tokens classes : list string) : list string :=
  List.filter (fun k => negb (bool_decide (k ∈ tokens))) classes.

Definition with_classList (c : list string) (nd : Node) : Node :=
  mkNode (nodeType nd) (nodeName nd) (localName nd) (parentNode nd)
         (attributes nd) c (data nd) (content nd).

(** How a token list is written to its attribute: the tokens, with one
    space between them. *)
Fixpoint serialize (classes : list string) : string :=
  match classes with
  | [] => ""
  | token :: rest =>
      match rest with
      | [] => token
      | _ :: _ => token +:+ " " +:+ serialize rest
      end
  end.

(** What [add] and [remove] do after they have changed the tokens: the
    [class] attribute is set to the serialized tokens, unless the element
    has no such attribute and no token is left. *)
Definition update (nd : Node) : Node :=
  if bool_decide (attributes nd !! "class" = None) && bool_decide (classList nd = [])
  then nd
  else Dom.with_attributes (<["class" := serialize (classList nd)]> (attributes nd)) nd.

Definition classListAdd (n : nat) (token : string) (d : Dom) : Dom :=
  alter (fun nd => update (with_classList (add token (classList nd)) nd)) n d.

(** [node.classList.remove(...[...node.classList.values()].filter((k) =>
    k.startsWith('ehs')))] *)
Definition classListRemoveEhs (n : nat) (d : Dom) : Dom :=
  alter (fun nd =>
           update
             (with_classList
                (remove (List.filter (Js.startsWith "ehs") (classList nd)) (classList nd))
                nd))
        n d.

Definition setBodyAttrs (host : Host) (options : Options) (config : ConfigData)
    (node : nat) (d : Dom) : Dom :=
  let d :=
    if isEx host then classListAdd node "ex" d
    else if isEh host then classListAdd node "eh" d
    else if hasMatchMedia host then
      if matchesDarkTheme host then classListAdd node "ex" d
      else classListAdd node "eh" d
    else d in
  let d := classListRemoveEhs node d in
  let d := if negb (showIcon options) then classListAdd node "ehs-hide-icon" d else d in
  let d := if translateTag config then classListAdd node "ehs-translate-tag" d else d in
  let d := if translateUi config then Dom.setAttribute node "lang" "cmn-Hans" d
           else Dom.setAttribute node "lang" "en" d in
  classListAdd node ("ehs-image-level-" +:+ introduceImageLevel options) d.

End Body.

(** ** Instances used to run the model on concrete pages *)

Module Instances.

(** Modelled from the spec: [services/tagging] is not among the sources.
    A TagKey is "serialized as [namespace:key], or just [key] when
    namespace is the default" (the empty namespace); the markup expansion
    of a label without image or emoji markup leaves it as it is.  For a
    value that is not a label, the text is the one JavaScript converts the
    value to. *)
#[local] Instance tagging : Tagging.t := {|
  Tagging.fullKey tk :=
    let k := default "" (key tk) in
    if Js.truthy (namespace tk) then namespace tk +:+ ":" +:+ k else k;
  Tagging.markImagesAndEmoji value :=
    match value with
    | Js.Str label => label
    | Js.Undefined => "undefined"
    | Js.Member "__proto__" => "[object Object]"
    | Js.Member name => "function " +:+ name +:+ "() { [native code] }"
    end
|}.

(** A clock for texts without timestamps: the two passes find nothing to
    rewrite. *)
#[local] Instance noDates : DateTime.t := {|
  DateTime.rewriteNumericDates text := text;
  DateTime.rewriteNamedDates text := text
|}.

(** A page pass that leaves the document alone. *)
#[local] Instance page : Page.t := {|
  Page.setBodyAttrs _ _ d := d;
  Page.translateUi _ _ d := d;
  Page.codePatch d := d;
  Page.body _ := None
|}.

(** An element of the page; its classes are also its [class] attribute. *)
Definition element (nodeName localName : string) (parent : option nat)
    (attrs : list (string * string)) (classes : list string) : Node :=
  mkNode ELEMENT_NODE nodeName localName parent
         (list_to_map
            match classes with
            | [] => attrs
            | _ :: _ => ("class", Body.serialize classes) :: attrs
            end)
         classes "" HostContent.

Definition text (parent : option nat) (s : string) : Node :=
  mkNode TEXT_NODE "#text" "" parent ∅ [] s HostContent.

Definition enabled : ConfigData := mkConfig true true None.
Definition disabled : ConfigData := mkConfig false true None.

(** The tag of the specification's example: an element of class [gt] titled
    [female:nakadashi] with its text, below the body. *)
Definition tagPage : Dom :=
  list_to_map
    [(0, element "BODY" "body" None [] []);
     (1, element "DIV" "div" (Some 0) [("title", "female:nakadashi")] ["gt"]);
     (2, text (Some 1) "nakadashi")].

Definition tagRef : TagNodeRef.t := TagNodeRef.mk 1 "female:nakadashi" "nakadashi".

(** A tag whose anchor has no title and the id [ta_temp_bondage], inside
    an element of class [gt]. *)
Definition tempPage : Dom :=
  list_to_map
    [(0, element "DIV" "div" None [] ["gt"]);
     (1, element "A" "a" (Some 0) [("id", "ta_temp_bondage")] []);
     (2, text (Some 1) "temp bondage")].

(** A plugin that has not classified anything yet, on a given page. *)
Definition fresh (d : Dom) : Syringe.t :=
  Syringe.mk [] None false enabled None d (mkStorage None None enabled) [] [] [] 0 [].

(** The text of the sample tag is classified, the page adds a second text
    below the same element, that is classified too, the registry is
    re-translated, and the first text is classified again. *)
Definition claimSteps : list Syringe.RegistryStep :=
  [Syringe.Classify 2; Syringe.HostInsert 3 (text (Some 1) "x");
   Syringe.Classify 3; Syringe.RetranslateAll (Some ∅); Syringe.Classify 2].



(** The sample tag (1) with its text (2), inserted after the page is
    ready.  Once the text has been classified and rendered it is no longer
    in the tree, and the iterator goes on below the tag with what the
    rendering has put there. *)
Definition addedTag : Syringe.AddedNode :=
  Syringe.mkAdded 1 (fun _ => Syringe.Next 2 (fun d =>
    match Dom.contentOf d 1 with
    | Some (InnerHTML _) => Syringe.Next 5 (fun _ => Syringe.Done)
    | _ => Syringe.Done
    end)).

(** A search suggestion: a text inside an element of class
    [auto-complete-text], itself inside a tag container. *)
Definition suggestPage : Dom :=
  list_to_map
    [(0, element "DIV" "div" None [] ["gt"]);
     (1, element "SPAN" "span" (Some 0) [("title", "female:nakadashi")]
           ["auto-complete-text"]);
     (2, text (Some 1) "Close")].

(** The sample tag, classified before any dictionary has arrived: the
    element is marked and still shows the page's text. *)
Definition claimedWithoutLabel : Syringe.t :=
  (@Syringe.translateTag tagging 2 (fresh tagPage)).2.

(** A body that carries the classes of an earlier configuration. *)
Definition stalePage : Dom :=
  list_to_map
    [(0, element "BODY" "body" None []
           ["ehs-translate-tag"; "gm"; "ehs-image-level-none"])].

(** A sentence of the archiver page. *)
Definition queued : string :=
  "An original resolution download has been queued for client".

(** The sample tag, classified while the dictionary [D1] was current. *)
Definition D1 : Js.Obj := {["female:nakadashi" := Some "中出"]}.

Definition renderedUnderD1 : Syringe.t :=
  (@Syringe.translateTag tagging 2 (Syringe.with_tagMap (Some D1) (fresh tagPage))).2.

(** The plugin with the sample tag rendered under [D1] and a refresh in
    flight, and an answer of the provider with a new label. *)
Definition refreshing : Syringe.t := Syringe.updateTagMap renderedUnderD1.

Definition newLabels : TagMapData :=
  mkData (Some [("female:nakadashi", Named (Some "内射"));
                ("male:glasses", Named (Some "眼镜"))]) "abc".

End Instances.

(** ** The specification's sentences, where the code differs from them

    Each definition here follows the words of the specification, to be
    compared with the definitions above, which follow the code. *)

Module AsStated.
Section WithTagging.
Context `{Tagging.t}.

(** Section 4.3, [render]: "if the node is not alive, treat as success
    (no-op).  If translation is disabled by configuration, restore the
    original text and mark language as source-locale; succeed.  If no
    dictionary is available, fail.  Look up the key in the dictionary; if
    absent, fail (leave existing rendering untouched).  If present,
    substitute the translated label [...] and set language to the target
    locale." *)
Definition render_contract (config : ConfigData) (r : TagNodeRef.t)
    (D : option Js.Obj) (d : Dom) : Prop :=
  let '(applied, d') := TagNodeRef.translate config r D d in
  if negb (TagNodeRef.alive r d) then applied = true ∧ d' = d
  else if negb (translateTag config) then
    applied = true
    ∧ Dom.contentOf d' (TagNodeRef.node r) = Some (InnerText (TagNodeRef.original r))
    ∧ Dom.getAttribute d' (TagNodeRef.node r) "lang" = Some "en"
  else match D with
       | None => applied = false
       | Some m =>
           match m !! TagNodeRef.fullKey r with
           | None => applied = false ∧ d' = d
           | Some label =>
               applied = true
               ∧ Dom.contentOf d' (TagNodeRef.node r)
                 = Some (InnerHTML (TagNodeRef.render r (Js.own label)))
               ∧ Dom.getAttribute d' (TagNodeRef.node r) "lang" = Some "cmn-Hans"
           end
       end.


(** Section 8: "Given dictionary [D1] then replaced by [D2], after
    [retranslateAll(D2)] every alive TrackedNode's rendering reflects
    [D2]'s entries (or falls back to original text if [D2] lacks the key),
    with no entries left reflecting [D1]."  An element shows the original
    text when its content is still the page's own or is the restored
    original. *)
Definition showsOriginal (d : Dom) (r : TagNodeRef.t) : Prop :=
  Dom.contentOf d (TagNodeRef.node r) = Some HostContent
  ∨ Dom.contentOf d (TagNodeRef.node r) = Some (InnerText (TagNodeRef.original r)).

Definition reflects (D2 : Js.Obj) (d : Dom) (r : TagNodeRef.t) : Prop :=
  match D2 !! TagNodeRef.fullKey r with
  | Some label =>
      Dom.contentOf d (TagNodeRef.node r)
      = Some (InnerHTML (TagNodeRef.render r (Js.own label)))
  | None => showsOriginal d r
  end.

Definition retranslateAll_reflects (D2 : Js.Obj) (s : Syringe.t) : Prop :=
  let s' := Syringe.translateTags (Some D2) s in
  ∀ r, r ∈ Syringe.tags s' → TagNodeRef.alive r (Syringe.document s') = true →
       reflects D2 (Syringe.document s') r.

End WithTagging.

Section WithPage.
Context `{Tagging.t} `{Page.t}.


End WithPage.

Section WithUi.
Context `{DateTime.t} (uiData : UiTranslation.t).

(** Section 4.4, step 2: "apply an ordered list of pattern-substitution
    rules (first matching rule's replacement wins; later rules are not
    attempted once one has rewritten the text -- each rule operates on
    the original text, not chained)". *)
Fixpoint firstMatchWins (rules : list UiTranslation.RegexRule) (text : string) : string :=
  match rules with
  | [] => text
  | rule :: rules =>
      if UiTranslation.rxTest rule text then UiTranslation.rxReplace rule text
      else firstMatchWins rules text
  end.

Definition translateUiText (s : Syringe.t) (text : string) : option string :=
  match UiTranslation.plainReplacements uiData !! text with
  | Some plain => Some plain
  | None =>
      let repText := firstMatchWins (UiTranslation.regexReplacements uiData) text in
      let repText := Syringe.translateTimestamps (Syringe.config s) repText in
      if bool_decide (repText ≠ text) then Some repText else None
  end.

End WithUi.
End AsStated.

(** * Auxiliary definitions for the proofs *)

(** The value [translate] renders for the node: what the dictionary
    yields for its key, when there is a dictionary and the value is truthy. *)
Definition valueFor (r : TagNodeRef.t) (D : option Js.Obj) : option Js.Value :=
  m ← D;
  if Js.truthyValue (Js.get m (TagNodeRef.fullKey r))
  then Some (Js.get m (TagNodeRef.fullKey r)) else None.

(** When [translateTag] gets as far as [create]. *)
Definition reachesCreate (d : Dom) (n p : nat) : Prop :=
  Dom.parentElement d n = Some p
  ∧ Syringe.isText d n = true
  ∧ bool_decide (Syringe.nodeNameOf d p = "MARK") = false
  ∧ Dom.classContains d p "auto-complete-text" = false
  ∧ (Syringe.isTagContainer d (Some p)
     || Syringe.isTagContainer d (Dom.parentElement d p)) = true.

(** The element carries the marker. *)
Definition marked (d : Dom) (n : nat) : Prop :=
  Dom.hasAttribute d n TagNodeRef.ATTR = true.

(** The registry holds one entry per element, each on a marked element. *)
Definition registryInv (s : Syringe.t) : Prop :=
  NoDup (TagNodeRef.node <$> Syringe.tags s)
  ∧ Forall (fun r => marked (Syringe.document s) (TagNodeRef.node r)) (Syringe.tags s).

(** What a node shows: its content and its [lang] attribute. *)
Definition view (d : Dom) (n : nat) : option Content * option string :=
  (Dom.contentOf d n, Dom.getAttribute d n "lang").

Section WithTagging.
Context `{Tagging.t}.

(** What [translate] makes an alive node show, from what it showed. *)
Definition outcome (cfg : ConfigData) (r : TagNodeRef.t)
    (D : option Js.Obj) (old : option Content * option string)
  : option Content * option string :=
  if negb (translateTag cfg) then (Some (InnerText (TagNodeRef.original r)), Some "en")
  else match valueFor r D with
       | Some value => (Some (InnerHTML (TagNodeRef.render r value)), Some "cmn-Hans")
       | None => old
       end.

(** The loop of [translateTags]. *)
Definition translateEach (cfg : ConfigData) (D : option Js.Obj)
    (l : list TagNodeRef.t) (d : Dom) : Dom :=
  foldl (fun d r => (TagNodeRef.translate cfg r D d).2) d l.

End WithTagging.

(** The rules one after the other, each on the text the one before left. *)
Fixpoint chained (rules : list UiTranslation.RegexRule) (text : string) : string :=
  match rules with
  | [] => text
  | rule :: rules => chained rules (UiTranslation.rxReplace rule text)
  end.

(** The guard and the channel of the refresh. *)
Definition refreshState (s : Syringe.t) : option nat * list nat * list Request :=
  (Syringe.updatingTagMap s, Syringe.pending s, Syringe.emitted s).

(** Either no refresh is in flight and the guard is clear, or exactly one
    is and the guard holds its promise. *)
Definition guardInv (s : Syringe.t) : Prop :=
  (Syringe.updatingTagMap s = None ∧ Syringe.pending s = [])
  ∨ (∃ p, Syringe.updatingTagMap s = Some p ∧ Syringe.pending s = [p]).

(** The [finally] block of the call [p], as a change of the state. *)
Definition finish (p : nat) (s : Syringe.t) : Syringe.t :=
  let s := Syringe.log (TimerEnd Syringe.timerLabel) s in
  if bool_decide (Syringe.updatingTagMap s = Some p)
  then Syringe.with_updatingTagMap None s else s.

(** The refresh fails: the request is rejected, or the answer does not decode. *)
Definition fails (o : Outcome) : bool :=
  match o with
  | Rejected _ => true
  | Fulfilled data =>
      match map data with
      | Some entries =>
          match Syringe.buildTagMap entries ∅ with
          | Syringe.Throw _ => true
          | Syringe.Normal _ => false
          end
      | None => false
      end
  end.

Definition settlements (events : list Syringe.Event) : nat :=
  length (List.filter (fun e => match e with Syringe.Settled _ _ => true | _ => false end)
                      events).

(** Requests sent so far, plus one while no refresh is in flight. *)
Definition budget (s : Syringe.t) : nat :=
  (length (Syringe.emitted s) + match Syringe.pending s with [] => 1 | _ => 0 end)%nat.

(** The theme class [setBodyAttrs] adds for a host, and the [ehs-] classes
    it adds for the options. *)
Definition themeOf (host : Body.Host) : option string :=
  if Body.isEx host then Some "ex"
  else if Body.isEh host then Some "eh"
  else if Body.hasMatchMedia host
       then (if Body.matchesDarkTheme host then Some "ex" else Some "eh")
       else None.

Definition ehsTokens (options : Body.Options) (config : ConfigData) : list string :=
  ((if Body.showIcon options then [] else ["ehs-hide-icon"])
   ++ (if translateTag config then ["ehs-translate-tag"] else [])
   ++ ["ehs-image-level-" +:+ Body.introduceImageLevel options])%list.

Definition isEhs (k : string) : bool := Js.startsWith "ehs" k.

(** The classes of the body after [setBodyAttrs], from its classes before. *)
Definition bodyClasses (host : Body.Host) (options : Body.Options) (config : ConfigData)
    (classes : list string) : list string :=
  (List.filter (fun k => negb (isEhs k))
     (match themeOf host with Some theme => Body.add theme classes | None => classes end)
   ++ ehsTokens options config)%list.

(** The record of the body after [setBodyAttrs]. *)
Definition bodyNode (host : Body.Host) (options : Body.Options) (config : ConfigData)
    (nd : Node) : Node :=
  mkNode (nodeType nd) (nodeName nd) (localName nd) (parentNode nd)
         (<["class" := Body.serialize (bodyClasses host options config (classList nd))]>
            (<["lang" := if translateUi config then "cmn-Hans" else "en"]> (attributes nd)))
         (bodyClasses host options config (classList nd)) (data nd) (content nd).

(** Two records of a node that differ at most in the class list and in
    the [class] attribute. *)
Definition sameButClasses (nd' nd : Node) : Prop :=
  nodeType nd' = nodeType nd ∧ nodeName nd' = nodeName nd
  ∧ localName nd' = localName nd ∧ parentNode nd' = parentNode nd
  ∧ data nd' = data nd ∧ content nd' = content nd
  ∧ ∀ k, k ≠ "class" → attributes nd' !! k = attributes nd !! k.

(** Kinds of events, and the timer entries of a log. *)
Definition isReady (e : Syringe.Event) : bool :=
  match e with Syringe.Ready => true | _ => false end.

Definition isSettled (e : Syringe.Event) : bool :=
  match e with Syringe.Settled _ _ => true | _ => false end.

Definition started (l : list LogEntry) : nat :=
  length (List.filter (fun e => match e with TimerStart _ => true | _ => false end) l).

Definition ended (l : list LogEntry) : nat :=
  length (List.filter (fun e => match e with TimerEnd _ => true | _ => false end) l).

(** What the passes over the document leave alone. *)
Definition ambient (s : Syringe.t)
  : bool * Storage * list LogEntry * list string :=
  (Syringe.documentEnd s, Syringe.storage s, Syringe.logger s, Syringe.unhandled s).

(** The text consists of digits. *)
Fixpoint allDigits (s : string) : bool :=
  match s with
  | EmptyString => true
  | String c s' => Archiver.isDigit c && allDigits s'
  end.

(** The character occurs in the text. *)
Fixpoint occurs (c : ascii) (s : string) : bool :=
  match s with
  | EmptyString => false
  | String a s' => Ascii.eqb a c || occurs c s'
  end.

(** * Properties *)

(** ** The string primitives on the texts of the specification's examples *)

Example split_title : Js.split ":" "female:nakadashi" = ["female"; "nakadashi"].
Proof. reflexivity. Qed.

Example split_no_colon : Js.split ":" "temp bondage" = ["temp bondage"].
Proof. reflexivity. Qed.

Example split_empty : Js.split ":" "" = [""].
Proof. reflexivity. Qed.

Example slice_prefix :
  Js.startsWith "ta_" "ta_temp_bondage" = true
  ∧ Js.replaceAllChar "_" " " (Js.slice 3 "ta_temp_bondage") = "temp bondage".
Proof. split; reflexivity. Qed.

Example replaceFirst_once : Js.replaceFirst "ab" "x" "cababc" = "cxabc".
Proof. reflexivity. Qed.

Example resolution_group :
  Archiver.replaceResolution "A 780x resolution download" = "780x 分辨率 download"
  ∧ Archiver.replaceResolution "A x resolution" = "A x resolution".
Proof. split; reflexivity. Qed.

(** ** The document operations *)

Section DomFacts.
Implicit Types (d : Dom) (n m : nat) (k v : string) (c : Content).

Lemma lookup_setAttribute d n k v m :
  Dom.setAttribute n k v d !! m =
  (fun nd => if decide (n = m)
             then Dom.with_attributes (<[k := v]> (attributes nd)) nd else nd) <$> d !! m.
Proof.
  unfold Dom.setAttribute. rewrite lookup_alter.
  destruct (decide (n = m)) as [->|]; destruct (d !! m); simpl; done.
Qed.

Lemma lookup_setContent d n c m :
  Dom.setContent n c d !! m =
  (fun nd => if decide (n = m)
             then Dom.with_content c (Dom.detach n nd) else Dom.detach n nd) <$> d !! m.
Proof.
  unfold Dom.setContent. rewrite lookup_alter.
  destruct (decide (n = m)) as [->|]; rewrite lookup_fmap;
    destruct (d !! m); simpl; done.
Qed.

Lemma detach_detach n nd : Dom.detach n (Dom.detach n nd) = Dom.detach n nd.
Proof.
  unfold Dom.detach. destruct (bool_decide (parentNode nd = Some n)) eqn:E; simpl.
  - reflexivity.
  - rewrite E. reflexivity.
Qed.

Lemma nodeType_detach n nd : nodeType (Dom.detach n nd) = nodeType nd.
Proof. unfold Dom.detach. case_bool_decide; reflexivity. Qed.

Lemma attributes_detach n nd : attributes (Dom.detach n nd) = attributes nd.
Proof. unfold Dom.detach. case_bool_decide; reflexivity. Qed.

Lemma content_detach n nd : content (Dom.detach n nd) = content nd.
Proof. unfold Dom.detach. case_bool_decide; reflexivity. Qed.

Lemma parentNode_detach_Some n nd p :
  parentNode (Dom.detach n nd) = Some p → parentNode nd = Some p.
Proof. unfold Dom.detach. case_bool_decide; simpl; congruence. Qed.

Lemma lookup_write d n c v m : Dom.write n c v d !! m = Dom.writeNode n c v m <$> d !! m.
Proof.
  unfold Dom.write. rewrite lookup_setAttribute, lookup_setContent.
  unfold Dom.writeNode. destruct (d !! m) as [nd|]; simpl; [|done].
  destruct (decide (n = m)); [|reflexivity].
  f_equal. unfold Dom.with_attributes, Dom.with_content. simpl.
  by rewrite attributes_detach.
Qed.

Lemma parentNode_detach_ne n nd : parentNode (Dom.detach n nd) ≠ Some n.
Proof. unfold Dom.detach. case_bool_decide; simpl; congruence. Qed.

Lemma detach_id n nd : parentNode nd ≠ Some n → Dom.detach n nd = nd.
Proof. intros Hne. unfold Dom.detach. by rewrite bool_decide_eq_false_2. Qed.

Lemma writeNode_idem n c v m nd :
  Dom.writeNode n c v m (Dom.writeNode n c v m nd) = Dom.writeNode n c v m nd.
Proof.
  unfold Dom.writeNode. destruct (decide (n = m)); [|apply detach_detach].
  rewrite (detach_id n (Dom.with_attributes _ _)).
  - unfold Dom.with_attributes, Dom.with_content. simpl.
    by rewrite insert_insert_eq.
  - simpl. apply parentNode_detach_ne.
Qed.

Lemma write_idem n c v d : Dom.write n c v (Dom.write n c v d) = Dom.write n c v d.
Proof.
  apply map_eq. intros m. rewrite !lookup_write.
  destruct (d !! m); simpl; [|done]. by rewrite writeNode_idem.
Qed.

End DomFacts.

(** ** [TagNodeRef.translate] *)

Section TranslateFacts.
Context `{Tagging.t}.
Implicit Types (d : Dom) (r : TagNodeRef.t) (cfg : ConfigData)
  (D : option Js.Obj).

Lemma alive_lookup r d :
  TagNodeRef.alive r d = true → is_Some (d !! TagNodeRef.node r).
Proof.
  unfold TagNodeRef.alive, Dom.parentElement. intros Ha.
  apply bool_decide_eq_true in Ha. destruct Ha as [p Hp].
  destruct (d !! TagNodeRef.node r); [eauto | discriminate].
Qed.

Lemma contentOf_write d n c v :
  is_Some (d !! n) → Dom.contentOf (Dom.write n c v d) n = Some c.
Proof.
  intros [nd Hnd]. unfold Dom.contentOf. rewrite lookup_write, Hnd. simpl.
  unfold Dom.writeNode. by rewrite decide_True.
Qed.

Lemma getAttribute_write_lang d n c v :
  is_Some (d !! n) → Dom.getAttribute (Dom.write n c v d) n "lang" = Some v.
Proof.
  intros [nd Hnd]. unfold Dom.getAttribute. rewrite lookup_write, Hnd. simpl.
  unfold Dom.writeNode. rewrite decide_True by done. simpl.
  apply lookup_insert_eq.
Qed.

Lemma translate_eq cfg r D d :
  TagNodeRef.translate cfg r D d =
  if negb (TagNodeRef.alive r d) then (true, d)
  else if negb (translateTag cfg)
  then (true, Dom.write (TagNodeRef.node r) (InnerText (TagNodeRef.original r)) "en" d)
  else match valueFor r D with
       | Some value =>
           (true, Dom.write (TagNodeRef.node r)
                    (InnerHTML (TagNodeRef.render r value)) "cmn-Hans" d)
       | None => (false, d)
       end.
Proof.
  unfold TagNodeRef.translate, valueFor.
  destruct (negb (TagNodeRef.alive r d)); [done|].
  destruct (negb (translateTag cfg)); [done|].
  destruct D as [m|]; simpl; [|done].
  destruct (Js.truthyValue (Js.get m (TagNodeRef.fullKey r))); done.
Qed.

Lemma translate_lookup cfg r D d :
  TagNodeRef.alive r d = true → translateTag cfg = true →
  TagNodeRef.translate cfg r D d =
  match valueFor r D with
  | Some value =>
      (true, Dom.write (TagNodeRef.node r)
               (InnerHTML (TagNodeRef.render r value)) "cmn-Hans" d)
  | None => (false, d)
  end.
Proof. intros Ha Hc. by rewrite translate_eq, Ha, Hc. Qed.

(** What the lookup finds, by what the dictionary holds for the key. *)
Lemma valueFor_label r (m : Js.Obj) label :
  m !! TagNodeRef.fullKey r = Some (Some label) →
  valueFor r (Some m) = if Js.truthy label then Some (Js.Str label) else None.
Proof. intros Hm. unfold valueFor, Js.get. simpl. by rewrite Hm. Qed.

Lemma valueFor_undefined r (m : Js.Obj) :
  m !! TagNodeRef.fullKey r = Some None → valueFor r (Some m) = None.
Proof. intros Hm. unfold valueFor, Js.get. simpl. by rewrite Hm. Qed.

Lemma valueFor_absent r (m : Js.Obj) :
  m !! TagNodeRef.fullKey r = None →
  valueFor r (Some m)
  = if bool_decide (TagNodeRef.fullKey r ∈ Js.objectPrototype)
    then Some (Js.Member (TagNodeRef.fullKey r)) else None.
Proof.
  intros Hm. unfold valueFor, Js.get. simpl. rewrite Hm.
  by case_bool_decide.
Qed.

(** C7.  For every tracked node, dictionary and configuration, rendering
    is idempotent: a second [translate] with the same dictionary returns
    what the first returned and leaves the whole document (content, [lang],
    marker and every other attribute and node) as the first call left it. *)
Theorem translate_idempotent cfg r D d :
  TagNodeRef.translate cfg r D (TagNodeRef.translate cfg r D d).2
  = TagNodeRef.translate cfg r D d.
Proof.
  rewrite (translate_eq cfg r D d).
  destruct (negb (TagNodeRef.alive r d)) eqn:Ea; simpl.
  { rewrite translate_eq, Ea. reflexivity. }
  destruct (negb (translateTag cfg)) eqn:Ec; simpl.
  { rewrite translate_eq, Ec.
    destruct (negb (TagNodeRef.alive r (Dom.write _ _ _ _))); [done|].
    by rewrite write_idem. }
  destruct (valueFor r D) as [value|] eqn:El; simpl.
  - rewrite translate_eq, Ec, El.
    destruct (negb (TagNodeRef.alive r (Dom.write _ _ _ _))); [done|].
    by rewrite write_idem.
  - rewrite translate_eq, Ea, Ec, El. reflexivity.
Qed.

(** C4 (amended).  The cascade of [translate]: a node that is not alive
    succeeds without touching the document; with tag translation disabled
    the original text is restored, [lang] is [en], success; without a
    dictionary, failure; a key for which the dictionary has no entry, and
    which is not the name of a property every object inherits, failure with
    the document unchanged; a key the dictionary maps to a non-empty label,
    the label is substituted, [lang] is [cmn-Hans], success. *)
Theorem translate_contract cfg r d :
  (∀ D, TagNodeRef.alive r d = false → TagNodeRef.translate cfg r D d = (true, d))
  ∧ (∀ D, TagNodeRef.alive r d = true → translateTag cfg = false →
       (TagNodeRef.translate cfg r D d).1 = true
       ∧ Dom.contentOf (TagNodeRef.translate cfg r D d).2 (TagNodeRef.node r)
         = Some (InnerText (TagNodeRef.original r))
       ∧ Dom.getAttribute (TagNodeRef.translate cfg r D d).2 (TagNodeRef.node r) "lang"
         = Some "en")
  ∧ (TagNodeRef.alive r d = true → translateTag cfg = true →
       TagNodeRef.translate cfg r None d = (false, d))
  ∧ (∀ m : Js.Obj, TagNodeRef.alive r d = true → translateTag cfg = true →
       m !! TagNodeRef.fullKey r = None →
       TagNodeRef.fullKey r ∉ Js.objectPrototype →
       TagNodeRef.translate cfg r (Some m) d = (false, d))
  ∧ (∀ (m : Js.Obj) label, TagNodeRef.alive r d = true → translateTag cfg = true →
       m !! TagNodeRef.fullKey r = Some (Some label) → Js.truthy label = true →
       (TagNodeRef.translate cfg r (Some m) d).1 = true
       ∧ Dom.contentOf (TagNodeRef.translate cfg r (Some m) d).2 (TagNodeRef.node r)
         = Some (InnerHTML (TagNodeRef.rendered r label))
       ∧ Dom.getAttribute (TagNodeRef.translate cfg r (Some m) d).2 (TagNodeRef.node r) "lang"
         = Some "cmn-Hans").
Proof.
  split; [|split; [|split; [|split]]].
  - intros D Ha. by rewrite translate_eq, Ha.
  - intros D Ha Hc. rewrite translate_eq, Ha, Hc. simpl.
    split; [done|]. split.
    + apply contentOf_write. by apply alive_lookup.
    + apply getAttribute_write_lang. by apply alive_lookup.
  - intros Ha Hc. by rewrite translate_eq, Ha, Hc.
  - intros m Ha Hc Hm Hproto. rewrite translate_lookup by done.
    rewrite (valueFor_absent r m Hm). by rewrite bool_decide_eq_false_2.
  - intros m label Ha Hc Hm Hl. rewrite translate_lookup by done.
    rewrite (valueFor_label r m label Hm), Hl. cbn [fst snd].
    split; [done|]. split.
    + apply contentOf_write. by apply alive_lookup.
    + apply getAttribute_write_lang. by apply alive_lookup.
Qed.

(** A key for which the dictionary has no entry and which names a property
    every object inherits: the lookup finds the inherited function, and
    [translate] renders it. *)
Lemma translate_inherited cfg r (m : Js.Obj) d :
  TagNodeRef.alive r d = true → translateTag cfg = true →
  m !! TagNodeRef.fullKey r = None → TagNodeRef.fullKey r ∈ Js.objectPrototype →
  TagNodeRef.translate cfg r (Some m) d
  = (true, Dom.write (TagNodeRef.node r)
             (InnerHTML (TagNodeRef.render r (Js.Member (TagNodeRef.fullKey r))))
             "cmn-Hans" d).
Proof.
  intros Ha Hc Hm Hproto. rewrite translate_lookup by done.
  rewrite (valueFor_absent r m Hm). by rewrite bool_decide_eq_true_2.
Qed.


End TranslateFacts.

(** C4, as stated, fails: the dictionary contains the key of the node,
    with the empty label; [translate] does not substitute it and reports
    failure. *)
Lemma translate_contract_as_stated_fails :
  ¬ @AsStated.render_contract Instances.tagging Instances.enabled Instances.tagRef
      (Some {["female:nakadashi" := Some ""]}) Instances.tagPage.
Proof.
  unfold AsStated.render_contract.
  assert (@TagNodeRef.translate Instances.tagging Instances.enabled Instances.tagRef
            (Some {["female:nakadashi" := Some ""]}) Instances.tagPage
          = (false, Instances.tagPage)) as -> by (vm_compute; reflexivity).
  assert (@TagNodeRef.alive Instances.tagRef Instances.tagPage = true) as ->
    by (vm_compute; reflexivity).
  simpl. intros [Happlied _]. discriminate Happlied.
Qed.

(** The cascade of C4 on the sample tag: a detached node, the disabled
    configuration, no dictionary, a dictionary without the key, and a
    dictionary with a label. *)
Lemma translate_contract_witness :
  (@TagNodeRef.translate Instances.tagging Instances.enabled
     (TagNodeRef.mk 0 "female:nakadashi" "nakadashi") None Instances.tagPage
   = (true, Instances.tagPage))
  ∧ (Dom.contentOf (@TagNodeRef.translate Instances.tagging Instances.disabled
       Instances.tagRef None Instances.tagPage).2 1 = Some (InnerText "nakadashi"))
  ∧ (@TagNodeRef.translate Instances.tagging Instances.enabled
       Instances.tagRef None Instances.tagPage = (false, Instances.tagPage))
  ∧ (@TagNodeRef.translate Instances.tagging Instances.enabled
       Instances.tagRef (Some ∅) Instances.tagPage = (false, Instances.tagPage))
  ∧ (Dom.contentOf (@TagNodeRef.translate Instances.tagging Instances.enabled
       Instances.tagRef (Some {["female:nakadashi" := Some "中出"]}) Instances.tagPage).2 1
     = Some (InnerHTML "中出")).
Proof.
  pose proof (@translate_contract Instances.tagging Instances.enabled
                (TagNodeRef.mk 0 "female:nakadashi" "nakadashi") Instances.tagPage)
    as (Hdead & _).
  pose proof (@translate_contract Instances.tagging Instances.disabled
                Instances.tagRef Instances.tagPage) as (_ & Hoff & _).
  pose proof (@translate_contract Instances.tagging Instances.enabled
                Instances.tagRef Instances.tagPage) as (_ & _ & Hnone & Hmiss & Hhit).
  split; [apply Hdead; vm_compute; reflexivity|].
  split; [apply (Hoff None); vm_compute; reflexivity|].
  split; [apply Hnone; vm_compute; reflexivity|].
  split.
  { apply Hmiss; try (vm_compute; reflexivity).
    apply (bool_decide_unpack _). vm_compute. exact I. }
  apply (Hhit {["female:nakadashi" := Some "中出"]} "中出"); vm_compute; reflexivity.
Defined.



(** ** [TagNodeRef.create] *)

Section CreateFacts.
Context `{Tagging.t}.
Implicit Types (d : Dom) (r : TagNodeRef.t) (n p : nat).

Lemma create_unclaimed d n p :
  Dom.parentElement d n = Some p →
  Dom.hasAttribute d p TagNodeRef.ATTR = false →
  TagNodeRef.create n d =
  match TagNodeRef.tagKeyOf (Dom.title d p) (Dom.id d p) with
  | Some tk =>
      if Js.truthy (Tagging.fullKey tk)
      then let rd := TagNodeRef.construct p (Tagging.fullKey tk)
                       (default "" (data <$> d !! n)) d in
           (TagNodeRef.Ref rd.1, rd.2)
      else (TagNodeRef.Bool false, d)
  | None => (TagNodeRef.Bool false, d)
  end.
Proof.
  intros Hp Ha. unfold TagNodeRef.create. rewrite Hp, Ha.
  destruct (TagNodeRef.tagKeyOf _ _) as [tk|]; simpl; [|done].
  destruct (Js.truthy _); done.
Qed.

Lemma translateTag_reaches_create (s : Syringe.t) n p :
  reachesCreate (Syringe.document s) n p →
  Syringe.translateTag n s =
  match TagNodeRef.create n (Syringe.document s) with
  | (TagNodeRef.Bool b, d) => (b, Syringe.with_document d s)
  | (TagNodeRef.Ref ref, d) =>
      (true, Syringe.with_tags (Syringe.tags s ++ [ref])
               (Syringe.with_document
                  (TagNodeRef.translate (Syringe.config s) ref (Syringe.tagMap s) d).2 s))
  end.
Proof.
  intros (Hp & Ht & Hm & Hc & Hg). unfold Syringe.translateTag.
  rewrite Hp, Ht, Hm, Hc.
  destruct (Syringe.isTagContainer (Syringe.document s) (Some p));
    destruct (Syringe.isTagContainer (Syringe.document s) (Dom.parentElement _ p));
    try discriminate Hg; reflexivity.
Qed.

(** C8.  The key [create] hands to [tagging.fullKey]: for the title
    [female:nakadashi] it is namespace [female], key [nakadashi]; for no
    title and the id [ta_temp_bondage] it is the empty namespace and the
    key [temp bondage].  On the two sample pages the classification of the
    text node registers exactly the node with the full key of that TagKey
    (whenever the tagging service returns a non-empty full key for it). *)
Theorem key_derivation :
  let female := mkTagKey "female" (Some "nakadashi") in
  let temp := mkTagKey "" (Some "temp bondage") in
  (∀ aId, TagNodeRef.tagKeyOf "female:nakadashi" aId = Some female)
  ∧ TagNodeRef.tagKeyOf "" "ta_temp_bondage" = Some temp
  ∧ (TagNodeRef.create 2 Instances.tagPage).1
    = (if Js.truthy (Tagging.fullKey female)
       then TagNodeRef.Ref (TagNodeRef.mk 1 (Tagging.fullKey female) "nakadashi")
       else TagNodeRef.Bool false)
  ∧ (TagNodeRef.create 2 Instances.tempPage).1
    = (if Js.truthy (Tagging.fullKey temp)
       then TagNodeRef.Ref (TagNodeRef.mk 1 (Tagging.fullKey temp) "temp bondage")
       else TagNodeRef.Bool false)
  ∧ Syringe.tags (Syringe.translateTag 2 (Instances.fresh Instances.tagPage)).2
    = (if Js.truthy (Tagging.fullKey female)
       then [TagNodeRef.mk 1 (Tagging.fullKey female) "nakadashi"] else [])
  ∧ Syringe.tags (Syringe.translateTag 2 (Instances.fresh Instances.tempPage)).2
    = (if Js.truthy (Tagging.fullKey temp)
       then [TagNodeRef.mk 1 (Tagging.fullKey temp) "temp bondage"] else []).
Proof.
  intros female temp.
  assert (Hf : TagNodeRef.create 2 Instances.tagPage =
               if Js.truthy (Tagging.fullKey female)
               then let rd := TagNodeRef.construct 1 (Tagging.fullKey female)
                                "nakadashi" Instances.tagPage in
                    (TagNodeRef.Ref rd.1, rd.2)
               else (TagNodeRef.Bool false, Instances.tagPage)).
  { rewrite (create_unclaimed _ 2 1) by (vm_compute; reflexivity). reflexivity. }
  assert (Ht : TagNodeRef.create 2 Instances.tempPage =
               if Js.truthy (Tagging.fullKey temp)
               then let rd := TagNodeRef.construct 1 (Tagging.fullKey temp)
                                "temp bondage" Instances.tempPage in
                    (TagNodeRef.Ref rd.1, rd.2)
               else (TagNodeRef.Bool false, Instances.tempPage)).
  { rewrite (create_unclaimed _ 2 1) by (vm_compute; reflexivity). reflexivity. }
  split; [intros aId; reflexivity|].
  split; [reflexivity|].
  split; [rewrite Hf; destruct (Js.truthy (Tagging.fullKey female)); reflexivity|].
  split; [rewrite Ht; destruct (Js.truthy (Tagging.fullKey temp)); reflexivity|].
  split.
  - rewrite (translateTag_reaches_create _ 2 1) by (repeat split; vm_compute; reflexivity).
    change (Syringe.document (Instances.fresh Instances.tagPage))
      with Instances.tagPage.
    rewrite Hf. destruct (Js.truthy (Tagging.fullKey female)); reflexivity.
  - rewrite (translateTag_reaches_create _ 2 1) by (repeat split; vm_compute; reflexivity).
    change (Syringe.document (Instances.fresh Instances.tempPage))
      with Instances.tempPage.
    rewrite Ht. destruct (Js.truthy (Tagging.fullKey temp)); reflexivity.
Qed.

End CreateFacts.

(** ** The marker attribute *)

Section MarkerFacts.
Context `{Tagging.t}.
Implicit Types (d : Dom) (r : TagNodeRef.t) (n m p : nat) (k v : string).

Lemma hasAttribute_true d n k :
  Dom.hasAttribute d n k = true ↔ is_Some (Dom.getAttribute d n k).
Proof. unfold Dom.hasAttribute. apply bool_decide_eq_true. Qed.

Lemma getAttribute_setAttribute_eq d n k v :
  is_Some (d !! n) → Dom.getAttribute (Dom.setAttribute n k v d) n k = Some v.
Proof.
  intros [nd Hnd]. unfold Dom.getAttribute.
  rewrite lookup_setAttribute, Hnd. simpl. rewrite decide_True by done.
  simpl. apply lookup_insert_eq.
Qed.

Lemma getAttribute_setAttribute_ne d n k v m k' :
  k ≠ k' → Dom.getAttribute (Dom.setAttribute n k v d) m k' = Dom.getAttribute d m k'.
Proof.
  intros Hne. unfold Dom.getAttribute. rewrite lookup_setAttribute.
  destruct (d !! m) as [nd|]; simpl; [|done].
  destruct (decide (n = m)); simpl; [|done]. by rewrite lookup_insert_ne.
Qed.

Lemma getAttribute_setAttribute_mono d n k v m k' :
  is_Some (Dom.getAttribute d m k') →
  is_Some (Dom.getAttribute (Dom.setAttribute n k v d) m k').
Proof.
  unfold Dom.getAttribute. rewrite lookup_setAttribute.
  destruct (d !! m) as [nd|]; simpl; [|done].
  destruct (decide (n = m)); simpl; [|done].
  intros Hs. destruct (decide (k = k')) as [->|Hne].
  - rewrite lookup_insert_eq. eauto.
  - by rewrite lookup_insert_ne.
Qed.

Lemma parentElement_setAttribute d n k v m :
  Dom.parentElement (Dom.setAttribute n k v d) m = Dom.parentElement d m.
Proof.
  unfold Dom.parentElement. rewrite lookup_setAttribute.
  destruct (d !! m) as [nd|]; simpl; [|done].
  assert (parentNode (if decide (n = m)
                      then Dom.with_attributes (<[k:=v]> (attributes nd)) nd else nd)
          = parentNode nd) as -> by (destruct (decide (n = m)); done).
  destruct (parentNode nd) as [q|]; simpl; [|done].
  rewrite lookup_setAttribute. destruct (d !! q) as [qn|]; simpl; [|done].
  destruct (decide (n = q)); done.
Qed.

Lemma lookup_setAttribute_is_Some d n k v m :
  is_Some (Dom.setAttribute n k v d !! m) ↔ is_Some (d !! m).
Proof. rewrite lookup_setAttribute. apply fmap_is_Some. Qed.

Lemma marked_setAttribute d n k v m : marked d m → marked (Dom.setAttribute n k v d) m.
Proof.
  unfold marked. rewrite !hasAttribute_true. apply getAttribute_setAttribute_mono.
Qed.

Lemma marked_write d n c v m : marked d m → marked (Dom.write n c v d) m.
Proof.
  unfold marked. rewrite !hasAttribute_true. unfold Dom.getAttribute.
  rewrite lookup_write. destruct (d !! m) as [nd|]; simpl; [|done].
  unfold Dom.writeNode. destruct (decide (n = m)); simpl.
  - rewrite ?attributes_detach. intros Hs.
    rewrite lookup_insert_ne by done. exact Hs.
  - by rewrite ?attributes_detach.
Qed.

Lemma marked_translate cfg r D d m :
  marked d m → marked (TagNodeRef.translate cfg r D d).2 m.
Proof.
  intros Hm. rewrite translate_eq.
  destruct (negb (TagNodeRef.alive r d)); [done|].
  destruct (negb (translateTag cfg)); simpl; [by apply marked_write|].
  destruct (valueFor r D); simpl; [by apply marked_write | done].
Qed.

Lemma parentElement_is_Some d n p : Dom.parentElement d n = Some p → is_Some (d !! p).
Proof.
  unfold Dom.parentElement. destruct (d !! n) as [nd|]; simpl; [|done].
  destruct (parentNode nd) as [q|]; simpl; [|done].
  destruct (d !! q) as [qn|] eqn:Hq; simpl; [|done].
  destruct (nodeType qn); intros [= <-]; eauto.
Qed.

(** The constructor marks its element with the original text and keeps
    every marker that is there. *)
Lemma construct_marks d p fk original :
  is_Some (d !! p) →
  Dom.getAttribute (TagNodeRef.construct p fk original d).2 p TagNodeRef.ATTR
  = Some original.
Proof.
  intros Hp. unfold TagNodeRef.construct. simpl.
  destruct (Dom.hasAttribute _ p "title");
    rewrite !(getAttribute_setAttribute_ne _ _ _ _ _ TagNodeRef.ATTR) by done;
    by apply getAttribute_setAttribute_eq.
Qed.

Lemma marked_construct d p fk original m :
  marked d m → marked (TagNodeRef.construct p fk original d).2 m.
Proof.
  intros Hm. unfold TagNodeRef.construct. simpl.
  destruct (Dom.hasAttribute _ p "title"); repeat apply marked_setAttribute; done.
Qed.

Lemma parentElement_construct d p fk original m :
  Dom.parentElement (TagNodeRef.construct p fk original d).2 m = Dom.parentElement d m.
Proof.
  unfold TagNodeRef.construct. simpl.
  destruct (Dom.hasAttribute _ p "title"); by rewrite !parentElement_setAttribute.
Qed.

(** What [create] returns, by cases. *)
Lemma create_Bool d n b d' : TagNodeRef.create n d = (TagNodeRef.Bool b, d') → d' = d.
Proof.
  unfold TagNodeRef.create.
  destruct (Dom.parentElement d n) as [p|]; [|by intros [= _ <-]].
  destruct (Dom.hasAttribute d p TagNodeRef.ATTR); [by intros [= _ <-]|].
  destruct (TagNodeRef.tagKeyOf _ _) as [tk|]; simpl; [|by intros [= _ <-]].
  destruct (Js.truthy _); [|by intros [= _ <-]].
  discriminate.
Qed.

Lemma create_Ref d n r d' :
  TagNodeRef.create n d = (TagNodeRef.Ref r, d') →
  Dom.parentElement d n = Some (TagNodeRef.node r)
  ∧ Dom.hasAttribute d (TagNodeRef.node r) TagNodeRef.ATTR = false
  ∧ TagNodeRef.original r = default "" (data <$> d !! n)
  ∧ d' = (TagNodeRef.construct (TagNodeRef.node r) (TagNodeRef.fullKey r)
            (TagNodeRef.original r) d).2.
Proof.
  unfold TagNodeRef.create.
  destruct (Dom.parentElement d n) as [p|]; [|discriminate].
  destruct (Dom.hasAttribute d p TagNodeRef.ATTR) eqn:Ha; [discriminate|].
  destruct (TagNodeRef.tagKeyOf _ _) as [tk|]; simpl; [|discriminate].
  destruct (Js.truthy _); [|discriminate].
  intros [= <- <-]. simpl. done.
Qed.

Lemma create_claimed d n p :
  Dom.parentElement d n = Some p → marked d p →
  TagNodeRef.create n d = (TagNodeRef.Bool true, d).
Proof. intros Hp Hm. unfold TagNodeRef.create. by rewrite Hp, Hm. Qed.

End MarkerFacts.

Section RegistryFacts.
Context `{Tagging.t}.
Implicit Types (d : Dom) (r : TagNodeRef.t) (s : Syringe.t).

Lemma marked_translate_all cfg D (l : list TagNodeRef.t) d m :
  marked d m →
  marked (foldl (fun d r => (TagNodeRef.translate cfg r D d).2) d l) m.
Proof.
  revert d. induction l as [|r l IH]; intros d Hm; simpl; [done|].
  apply IH. by apply marked_translate.
Qed.

Lemma NoDup_fmap_filter {A B} (f : A → B) (keep : A → bool) (l : list A) :
  NoDup (f <$> l) → NoDup (f <$> List.filter keep l).
Proof.
  induction l as [|a l IH]; simpl; [done|].
  rewrite NoDup_cons. intros [Hnotin Hnd].
  destruct (keep a); simpl; [|by apply IH].
  apply NoDup_cons. split; [|by apply IH].
  intros Hin. apply Hnotin.
  apply list_elem_of_fmap in Hin as (x & -> & Hx).
  apply list_elem_of_fmap. exists x. split; [done|].
  apply list_elem_of_In. apply list_elem_of_In, List.filter_In in Hx. tauto.
Qed.

Lemma marked_translateTag n s m :
  marked (Syringe.document s) m → marked (Syringe.document (Syringe.translateTag n s).2) m.
Proof.
  intros Hm. unfold Syringe.translateTag.
  destruct (Dom.parentElement (Syringe.document s) n) as [p|]; [|done].
  destruct (negb (Syringe.isText _ n)); [done|].
  destruct (_ || _); [done|].
  destruct (_ && _); [done|].
  destruct (TagNodeRef.create n (Syringe.document s)) as [[r|b] d'] eqn:Hc; simpl.
  - apply create_Ref in Hc as (_ & _ & _ & ->).
    by apply marked_translate, marked_construct.
  - by apply create_Bool in Hc as ->.
Qed.

Lemma marked_step s e m :
  marked (Syringe.document s) m → marked (Syringe.document (Syringe.registryStep s e)) m.
Proof.
  intros Hm. destruct e as [n|D|n nd|n p]; simpl.
  - by apply marked_translateTag.
  - by apply marked_translate_all.
  - destruct (Syringe.document s !! n) eqn:Hn; [done|]. simpl.
    revert Hm. unfold marked. rewrite !hasAttribute_true. unfold Dom.getAttribute.
    destruct (decide (n = m)) as [->|Hne].
    + rewrite Hn. simpl. by intros [? ?].
    + by rewrite lookup_insert_ne.
  - revert Hm. unfold marked. rewrite !hasAttribute_true. unfold Dom.getAttribute.
    rewrite lookup_alter.
    destruct (decide (n = m)) as [->|Hne]; [|done].
    destruct (Syringe.document s !! m); simpl; done.
Qed.

Lemma registryInv_translateTags D s :
  registryInv s → registryInv (Syringe.translateTags D s).
Proof.
  intros [Hnd Hall]. unfold registryInv, Syringe.translateTags. simpl. split.
  - by apply NoDup_fmap_filter.
  - apply Forall_forall. intros r Hr.
    apply marked_translate_all.
    rewrite Forall_forall in Hall. apply Hall.
    apply list_elem_of_In. apply list_elem_of_In, List.filter_In in Hr. tauto.
Qed.

Lemma registryInv_translateTag n s :
  registryInv s → registryInv (Syringe.translateTag n s).2.
Proof.
  intros [Hnd Hall]. unfold Syringe.translateTag.
  destruct (Dom.parentElement (Syringe.document s) n) as [p|] eqn:Hp; [|done].
  destruct (negb (Syringe.isText _ n)); [done|].
  destruct (_ || _); [done|].
  destruct (_ && _); [done|].
  destruct (TagNodeRef.create n (Syringe.document s)) as [[r|b] d'] eqn:Hc.
  - apply create_Ref in Hc as (Hpr & Hun & _ & Hd').
    assert (is_Some (Syringe.document s !! TagNodeRef.node r)) as Hin
      by (by eapply parentElement_is_Some).
    assert (marked d' (TagNodeRef.node r)) as Hr.
    { unfold marked. apply hasAttribute_true. rewrite Hd'.
      rewrite construct_marks by done. eauto. }
    assert (∀ m, marked (Syringe.document s) m → marked d' m) as Hkeep.
    { intros m Hm. rewrite Hd'. by apply marked_construct. }
    clear Hd'. unfold registryInv. simpl. split.
    + rewrite fmap_app. simpl. apply NoDup_app. split; [done|]. split.
      * intros x Hx Hx'. apply list_elem_of_singleton in Hx' as ->.
        apply list_elem_of_fmap in Hx as (r' & Heq & Hr').
        rewrite Forall_forall in Hall. specialize (Hall r' Hr').
        unfold marked in Hall. rewrite <- Heq in Hall. congruence.
      * apply NoDup_singleton.
    + apply Forall_app. split.
      * eapply Forall_impl; [exact Hall|]. intros r' Hr'. simpl in Hr'.
        by apply marked_translate, Hkeep.
      * apply Forall_singleton. by apply marked_translate.
  - apply create_Bool in Hc as ->. by destruct s.
Qed.

Lemma registryInv_step s e : registryInv s → registryInv (Syringe.registryStep s e).
Proof.
  intros Hinv. destruct e as [n|D|n nd|n p].
  - by apply registryInv_translateTag.
  - by apply registryInv_translateTags.
  - pose proof (marked_step s (Syringe.HostInsert n nd)) as Hkeep. simpl in *.
    destruct (Syringe.document s !! n); [done|].
    destruct Hinv as [Hnd Hall]. split; [done|]. simpl.
    eapply Forall_impl; [exact Hall|]. intros r. apply Hkeep.
  - pose proof (marked_step s (Syringe.HostReparent n p)) as Hkeep. simpl in *.
    destruct Hinv as [Hnd Hall]. split; [done|]. simpl.
    eapply Forall_impl; [exact Hall|]. intros r. apply Hkeep.
Qed.

Lemma registryInv_steps steps s :
  registryInv s → registryInv (foldl Syringe.registryStep s steps).
Proof.
  revert s. induction steps as [|e steps IH]; intros s Hinv; simpl; [done|].
  by apply IH, registryInv_step.
Qed.

(** A step creates no entry, or one entry on an element that was not
    marked before the step and is marked after it. *)
Lemma createdBy_cases s e :
  Syringe.createdBy s e = []
  ∨ ∃ r, Syringe.createdBy s e = [r]
         ∧ ¬ marked (Syringe.document s) (TagNodeRef.node r)
         ∧ marked (Syringe.document (Syringe.registryStep s e)) (TagNodeRef.node r).
Proof.
  destruct e as [n|D|n nd|n p]; simpl; try (by left).
  unfold Syringe.translateTag.
  destruct (Dom.parentElement (Syringe.document s) n) as [p|] eqn:Hp;
    [|left; apply drop_all].
  destruct (negb (Syringe.isText _ n)); [left; apply drop_all|].
  destruct (_ || _); [left; apply drop_all|].
  destruct (_ && _); [left; apply drop_all|].
  destruct (TagNodeRef.create n (Syringe.document s)) as [[r|b] d'] eqn:Hc; simpl.
  - right. exists r. apply create_Ref in Hc as (Hpr & Hun & _ & ->).
    split; [by rewrite drop_app_length|]. split.
    + unfold marked. by rewrite Hun.
    + apply marked_translate. unfold marked. apply hasAttribute_true.
      rewrite construct_marks; [eauto|]. eapply parentElement_is_Some, Hpr.
  - left. apply drop_all.
Qed.

Lemma created_NoDup steps s (acc : list nat) :
  NoDup acc → Forall (marked (Syringe.document s)) acc →
  NoDup (acc ++ (TagNodeRef.node <$> Syringe.created s steps)).
Proof.
  revert s acc. induction steps as [|e steps IH]; intros s acc Hnd Hacc; simpl.
  { by rewrite app_nil_r. }
  assert (Forall (marked (Syringe.document (Syringe.registryStep s e))) acc) as Hacc'.
  { eapply Forall_impl; [exact Hacc|]. intros m. apply marked_step. }
  destruct (createdBy_cases s e) as [->|(r & -> & Hun & Hm)].
  - by apply IH.
  - rewrite fmap_app, app_assoc. apply IH.
    + apply NoDup_app. split; [done|]. split; [|apply NoDup_singleton].
      intros x Hx Hx'. apply list_elem_of_singleton in Hx' as ->.
      apply Hun. rewrite Forall_forall in Hacc. by apply Hacc.
    + apply Forall_app. split; [done|]. by apply Forall_singleton.
Qed.

(** C5.  The constructor marks the owning element with the original text;
    a classification attempt on a text node whose parent carries the marker
    returns [true] (CLAIMED) and changes nothing; so after a successful
    [create] every further attempt below the same element is CLAIMED; over
    every sequence of classifications, re-translations and page changes no
    two of the entries ever created are on the same element, and a
    registry that starts empty never holds two entries for one element. *)
Theorem claimed_at_most_once :
  (∀ d n r d', TagNodeRef.create n d = (TagNodeRef.Ref r, d') →
     Dom.parentElement d n = Some (TagNodeRef.node r)
     ∧ Dom.getAttribute d' (TagNodeRef.node r) TagNodeRef.ATTR
       = Some (TagNodeRef.original r))
  ∧ (∀ d n p, Dom.parentElement d n = Some p →
       Dom.hasAttribute d p TagNodeRef.ATTR = true →
       TagNodeRef.create n d = (TagNodeRef.Bool true, d))
  ∧ (∀ d n r d' n', TagNodeRef.create n d = (TagNodeRef.Ref r, d') →
       Dom.parentElement d' n' = Some (TagNodeRef.node r) →
       TagNodeRef.create n' d' = (TagNodeRef.Bool true, d'))
  ∧ (∀ steps s, NoDup (TagNodeRef.node <$> Syringe.created s steps))
  ∧ (∀ steps s, Syringe.tags s = [] →
       NoDup (TagNodeRef.node <$> Syringe.tags (foldl Syringe.registryStep s steps))).
Proof.
  assert (Hmark : ∀ d n r d', TagNodeRef.create n d = (TagNodeRef.Ref r, d') →
     Dom.parentElement d n = Some (TagNodeRef.node r)
     ∧ Dom.getAttribute d' (TagNodeRef.node r) TagNodeRef.ATTR
       = Some (TagNodeRef.original r)).
  { intros d n r d' Hc. apply create_Ref in Hc as (Hp & _ & _ & ->).
    split; [done|]. apply construct_marks. eapply parentElement_is_Some, Hp. }
  split; [exact Hmark|].
  split; [intros d n p Hp Hm; exact (create_claimed d n p Hp Hm)|].
  split.
  - intros d n r d' n' Hc Hp'. eapply create_claimed; [exact Hp'|].
    apply Hmark in Hc as [_ Ha]. unfold marked. apply hasAttribute_true.
    rewrite Ha. eauto.
  - split; [intros steps s; apply (created_NoDup steps s []); constructor|].
    intros steps s Hs. apply registryInv_steps.
    split; rewrite Hs; [apply NoDup_nil_2 | apply Forall_nil_2].
Qed.

End RegistryFacts.

(** C5 on the sample tag: the first classification creates the entry and
    marks the element with the text; the second one on the same text node,
    and one on a text node the page adds below the same element, are
    CLAIMED; the registry holds the element once. *)
Lemma claimed_at_most_once_witness :
  Dom.getAttribute (@TagNodeRef.create Instances.tagging 2 Instances.tagPage).2 1
    TagNodeRef.ATTR = Some "nakadashi"
  ∧ @TagNodeRef.create Instances.tagging 2
      (@TagNodeRef.create Instances.tagging 2 Instances.tagPage).2
    = (TagNodeRef.Bool true, (@TagNodeRef.create Instances.tagging 2 Instances.tagPage).2)
  ∧ NoDup (TagNodeRef.node <$>
             Syringe.tags (foldl (@Syringe.registryStep Instances.tagging)
                             (Instances.fresh Instances.tagPage) Instances.claimSteps))
  ∧ Syringe.tags (foldl (@Syringe.registryStep Instances.tagging)
                    (Instances.fresh Instances.tagPage) Instances.claimSteps)
    = [Instances.tagRef]
  ∧ @Syringe.created Instances.tagging (Instances.fresh Instances.tagPage)
      Instances.claimSteps
    = [Instances.tagRef].
Proof.
  pose proof (@claimed_at_most_once Instances.tagging)
    as (Hmark & _ & Hagain & _ & Hever).
  assert (Hc : @TagNodeRef.create Instances.tagging 2 Instances.tagPage
               = (TagNodeRef.Ref Instances.tagRef,
                  (@TagNodeRef.create Instances.tagging 2 Instances.tagPage).2))
    by (vm_compute; reflexivity).
  split; [exact (proj2 (Hmark _ _ _ _ Hc))|].
  split; [apply (Hagain _ _ _ _ 2 Hc); vm_compute; reflexivity|].
  split; [apply Hever; reflexivity|].
  split; vm_compute; reflexivity.
Defined.

(** ** [Syringe.translateTags] *)

Section RetranslateFacts.
Context `{Tagging.t}.
Implicit Types (d : Dom) (r : TagNodeRef.t) (cfg : ConfigData)
  (D : option Js.Obj).

Lemma view_write_other d n c v m : n ≠ m → view (Dom.write n c v d) m = view d m.
Proof.
  intros Hne. unfold view, Dom.contentOf, Dom.getAttribute. rewrite lookup_write.
  destruct (d !! m) as [nd|]; simpl; [|done].
  unfold Dom.writeNode. rewrite decide_False by done.
  by rewrite content_detach, attributes_detach.
Qed.

Lemma view_write_self d n c v :
  is_Some (d !! n) → view (Dom.write n c v d) n = (Some c, Some v).
Proof.
  intros Hn. unfold view. by rewrite contentOf_write, getAttribute_write_lang.
Qed.

Lemma view_translate_other cfg r D d m :
  TagNodeRef.node r ≠ m → view (TagNodeRef.translate cfg r D d).2 m = view d m.
Proof.
  intros Hne. rewrite translate_eq.
  destruct (negb (TagNodeRef.alive r d)); [done|].
  destruct (negb (translateTag cfg)); simpl; [by apply view_write_other|].
  destruct (valueFor r D); simpl; [by apply view_write_other | done].
Qed.

Lemma view_translate_self cfg r D d :
  TagNodeRef.alive r d = true →
  view (TagNodeRef.translate cfg r D d).2 (TagNodeRef.node r)
  = outcome cfg r D (view d (TagNodeRef.node r)).
Proof.
  intros Ha. rewrite translate_eq, Ha. unfold outcome. simpl.
  destruct (negb (translateTag cfg)); simpl;
    [by apply view_write_self, alive_lookup|].
  destruct (valueFor r D); simpl; [by apply view_write_self, alive_lookup | done].
Qed.

Lemma parentElement_write d n c v m p :
  Dom.parentElement (Dom.write n c v d) m = Some p → Dom.parentElement d m = Some p.
Proof.
  unfold Dom.parentElement. rewrite lookup_write.
  destruct (d !! m) as [nd|]; simpl; [|done].
  assert (∀ q, parentNode (Dom.writeNode n c v m nd) = Some q → parentNode nd = Some q)
    as Hpar.
  { intros q. unfold Dom.writeNode. destruct (decide (n = m)); simpl;
      apply parentNode_detach_Some. }
  destruct (parentNode (Dom.writeNode n c v m nd)) as [q|]; simpl; [|done].
  rewrite (Hpar q eq_refl). simpl. rewrite lookup_write.
  destruct (d !! q) as [qn|]; simpl; [|done].
  assert (nodeType (Dom.writeNode n c v q qn) = nodeType qn) as ->; [|done].
  unfold Dom.writeNode. destruct (decide (n = q)); simpl; apply nodeType_detach.
Qed.

Lemma alive_translate cfg r D d r' :
  TagNodeRef.alive r' (TagNodeRef.translate cfg r D d).2 = true →
  TagNodeRef.alive r' d = true.
Proof.
  assert (∀ n c v, TagNodeRef.alive r' (Dom.write n c v d) = true →
                   TagNodeRef.alive r' d = true) as Hw.
  { intros n c v. unfold TagNodeRef.alive. rewrite !bool_decide_eq_true.
    intros [p Hp]. exists p. by eapply parentElement_write. }
  rewrite translate_eq.
  destruct (negb (TagNodeRef.alive r d)); [done|].
  destruct (negb (translateTag cfg)); simpl; [apply Hw|].
  destruct (valueFor r D); simpl; [apply Hw | done].
Qed.

Lemma view_translateEach_other cfg D l d m :
  m ∉ TagNodeRef.node <$> l → view (translateEach cfg D l d) m = view d m.
Proof.
  revert d. induction l as [|a l IH]; intros d Hm; simpl; [done|].
  rewrite fmap_cons, not_elem_of_cons in Hm. destruct Hm as [Hne Hm].
  unfold translateEach in *. simpl. rewrite IH by done.
  by apply view_translate_other.
Qed.

Lemma alive_translateEach cfg D l d r :
  TagNodeRef.alive r (translateEach cfg D l d) = true → TagNodeRef.alive r d = true.
Proof.
  revert d. induction l as [|a l IH]; intros d Ha; simpl in *; [done|].
  eapply alive_translate, IH, Ha.
Qed.

Lemma view_translateEach_self cfg D l d r :
  NoDup (TagNodeRef.node <$> l) → r ∈ l →
  TagNodeRef.alive r (translateEach cfg D l d) = true →
  view (translateEach cfg D l d) (TagNodeRef.node r)
  = outcome cfg r D (view d (TagNodeRef.node r)).
Proof.
  revert d. induction l as [|a l IH]; intros d Hnd Hr Ha; [by apply elem_of_nil in Hr|].
  rewrite fmap_cons, NoDup_cons in Hnd. destruct Hnd as [Hnotin Hnd].
  change (translateEach cfg D (a :: l) d)
    with (translateEach cfg D l (TagNodeRef.translate cfg a D d).2) in *.
  destruct (decide (TagNodeRef.node r = TagNodeRef.node a)) as [Heq|Hne].
  - assert (r = a) as ->.
    { apply elem_of_cons in Hr as [->|Hr]; [done|].
      exfalso. apply Hnotin. rewrite <- Heq. by apply list_elem_of_fmap_2. }
    rewrite view_translateEach_other by done.
    apply view_translate_self. eapply alive_translate, alive_translateEach, Ha.
  - apply elem_of_cons in Hr as [->|Hr]; [done|].
    rewrite IH by done. f_equal. by apply view_translate_other.
Qed.

End RetranslateFacts.

(** C2 (amended).  For a registry with one entry per element, after
    [translateTags(D2)] the registry holds the entries that were alive and
    the current dictionary is [D2]; with tag translation enabled every
    entry that is alive afterwards shows the label [D2] has for its key
    when that label is not empty, and shows exactly what it showed before
    the pass (content and [lang] unchanged) when the label is empty or
    undefined, or when [D2] has no entry for the key and the key is not the
    name of a property every object inherits; with tag translation disabled
    it shows its original text. *)
Theorem retranslateAll_renders `{Tagging.t} (D2 : Js.Obj) (s : Syringe.t) :
  NoDup (TagNodeRef.node <$> Syringe.tags s) →
  let s' := Syringe.translateTags (Some D2) s in
  Syringe.tags s'
  = List.filter (fun r => TagNodeRef.alive r (Syringe.document s)) (Syringe.tags s)
  ∧ Syringe.tagMap s' = Some D2
  ∧ ∀ r, r ∈ Syringe.tags s' → TagNodeRef.alive r (Syringe.document s') = true →
      if translateTag (Syringe.config s) then
        match D2 !! TagNodeRef.fullKey r with
        | Some (Some label) =>
            if Js.truthy label
            then view (Syringe.document s') (TagNodeRef.node r)
                 = (Some (InnerHTML (TagNodeRef.rendered r label)), Some "cmn-Hans")
            else view (Syringe.document s') (TagNodeRef.node r)
                 = view (Syringe.document s) (TagNodeRef.node r)
        | Some None => view (Syringe.document s') (TagNodeRef.node r)
                       = view (Syringe.document s) (TagNodeRef.node r)
        | None => TagNodeRef.fullKey r ∉ Js.objectPrototype →
                  view (Syringe.document s') (TagNodeRef.node r)
                  = view (Syringe.document s) (TagNodeRef.node r)
        end
      else view (Syringe.document s') (TagNodeRef.node r)
           = (Some (InnerText (TagNodeRef.original r)), Some "en").
Proof.
  intros Hnd s'. split; [done|]. split; [done|].
  intros r Hr Ha. subst s'. unfold Syringe.translateTags in *. simpl in *.
  fold (translateEach (Syringe.config s) (Some D2)
          (List.filter (fun r => TagNodeRef.alive r (Syringe.document s)) (Syringe.tags s))
          (Syringe.document s)) in *.
  rewrite view_translateEach_self; [|by apply NoDup_fmap_filter|done|done].
  unfold outcome.
  destruct (translateTag (Syringe.config s)); cbn [negb]; [|done].
  destruct (D2 !! TagNodeRef.fullKey r) as [[label|]|] eqn:HD.
  - rewrite (valueFor_label r D2 label HD). by destruct (Js.truthy label).
  - by rewrite (valueFor_undefined r D2 HD).
  - intros Hproto. rewrite (valueFor_absent r D2 HD).
    by rewrite bool_decide_eq_false_2.
Qed.

(** C2, as stated, fails: the sample tag was rendered under [D1]; the new
    dictionary has no entry for its key; after the pass the element still
    shows the label of [D1], not its original text. *)
Lemma retranslateAll_as_stated_fails :
  ¬ @AsStated.retranslateAll_reflects Instances.tagging ∅ Instances.renderedUnderD1.
Proof.
  intros Hc. specialize (Hc Instances.tagRef).
  assert (Dom.contentOf
            (Syringe.document
               (@Syringe.translateTags Instances.tagging (Some ∅) Instances.renderedUnderD1)) 1
          = Some (InnerHTML "中出")) as Hshown by (vm_compute; reflexivity).
  unfold AsStated.reflects, AsStated.showsOriginal in Hc.
  change (TagNodeRef.node Instances.tagRef) with 1 in Hc.
  rewrite lookup_empty, Hshown in Hc.
  destruct Hc as [Hc|Hc]; [| |discriminate Hc|discriminate Hc].
  - vm_compute. apply list_elem_of_here.
  - vm_compute. reflexivity.
Qed.

(** C2 (amended) on the sample tag: a dictionary with a new label replaces
    the label of [D1]; a dictionary without the key leaves it. *)
Lemma retranslateAll_renders_witness :
  view (Syringe.document
          (@Syringe.translateTags Instances.tagging
             (Some {["female:nakadashi" := Some "内射"]}) Instances.renderedUnderD1)) 1
  = (Some (InnerHTML "内射"), Some "cmn-Hans")
  ∧ view (Syringe.document
            (@Syringe.translateTags Instances.tagging (Some ∅) Instances.renderedUnderD1)) 1
    = (Some (InnerHTML "中出"), Some "cmn-Hans").
Proof.
  assert (NoDup (TagNodeRef.node <$> Syringe.tags Instances.renderedUnderD1)) as Hnd
    by (vm_compute; apply NoDup_singleton).
  split.
  - pose proof (@retranslateAll_renders Instances.tagging
                  {["female:nakadashi" := Some "内射"]} Instances.renderedUnderD1 Hnd)
      as (_ & _ & Hall).
    apply (Hall Instances.tagRef); [vm_compute; apply list_elem_of_here|].
    vm_compute; reflexivity.
  - pose proof (@retranslateAll_renders Instances.tagging ∅ Instances.renderedUnderD1 Hnd)
      as (_ & _ & Hall).
    assert (Instances.tagRef
            ∈ Syringe.tags (@Syringe.translateTags Instances.tagging (Some ∅)
                              Instances.renderedUnderD1)) as Hin
      by (vm_compute; apply list_elem_of_here).
    assert (TagNodeRef.alive Instances.tagRef
              (Syringe.document (@Syringe.translateTags Instances.tagging (Some ∅)
                                   Instances.renderedUnderD1)) = true) as Ha
      by (vm_compute; reflexivity).
    specialize (Hall Instances.tagRef Hin Ha).
    change (translateTag (Syringe.config Instances.renderedUnderD1)) with true in Hall.
    rewrite lookup_empty in Hall.
    etransitivity; [apply Hall|vm_compute; reflexivity].
    apply (bool_decide_unpack _). vm_compute. exact I.
Defined.

(** ** [Syringe.translateUiText] *)

Section UiFacts.
Context `{DateTime.t}.

Lemma foldl_chained rules text :
  foldl (fun repText kv => UiTranslation.rxReplace kv repText) text rules
  = chained rules text.
Proof. revert text. induction rules as [|r rules IH]; intros text; simpl; done. Qed.

Lemma chained_snoc rules rule text :
  chained (rules ++ [rule])%list text = UiTranslation.rxReplace rule (chained rules text).
Proof. revert text. induction rules as [|r rules IH]; intros text; simpl; done. Qed.

(** C3 (amended).  For a text without an exact match in the phrase table,
    [translateUiText] applies every rule of the ordered list, each to the
    text the rules before it produced (chained), then the timestamp pass;
    the result is [undefined] when that leaves the text as it was.  In
    particular a further rule at the end of the list rewrites the output of
    the rules before it, whether or not one of them has rewritten the
    text. *)
Theorem translateUiText_chains (uiData : UiTranslation.t) (s : Syringe.t) (text : string) :
  UiTranslation.plainReplacements uiData !! text = None →
  let repText :=
    Syringe.translateTimestamps (Syringe.config s)
      (chained (UiTranslation.regexReplacements uiData) text) in
  Syringe.translateUiText uiData s text
  = (if bool_decide (repText = text) then None else Some repText)
  ∧ ∀ (rules : list UiTranslation.RegexRule) (rule : UiTranslation.RegexRule),
      UiTranslation.regexReplacements uiData = (rules ++ [rule])%list →
      translateTimestamp (Syringe.config s) = Some false →
      default text (Syringe.translateUiText uiData s text)
      = UiTranslation.rxReplace rule
          (default text
             (Syringe.translateUiText
                (UiTranslation.mk (UiTranslation.plainReplacements uiData) rules) s text)).
Proof.
  intros Hplain repText. subst repText. unfold Syringe.translateUiText.
  rewrite Hplain, !foldl_chained. split.
  - repeat case_bool_decide; done.
  - intros rules rule Hrules Hoff. simpl. rewrite Hplain, foldl_chained, Hrules.
    unfold Syringe.translateTimestamps. rewrite Hoff. simpl.
    rewrite chained_snoc.
    repeat case_bool_decide; simpl; congruence.
Qed.

End UiFacts.

(** C3, as stated, fails on the rules of the archiver page: the first
    rule rewrites the beginning of the sentence, and the third rule is still
    applied, to the text the first rule produced. *)
Lemma translateUiText_as_stated_fails :
  UiTranslation.plainReplacements Archiver.uiData !! Instances.queued = None
  ∧ @Syringe.translateUiText Instances.noDates Archiver.uiData
      (Instances.fresh Instances.tagPage) Instances.queued
    = Some "原始分辨率的下载请求已添加到下载队列，使用客户端"
  ∧ @AsStated.translateUiText Instances.noDates Archiver.uiData
      (Instances.fresh Instances.tagPage) Instances.queued
    = Some "原始分辨率 download has been queued for client"
  ∧ @Syringe.translateUiText Instances.noDates Archiver.uiData
      (Instances.fresh Instances.tagPage) Instances.queued
    ≠ @AsStated.translateUiText Instances.noDates Archiver.uiData
        (Instances.fresh Instances.tagPage) Instances.queued.
Proof.
  assert (H1 : @Syringe.translateUiText Instances.noDates Archiver.uiData
                 (Instances.fresh Instances.tagPage) Instances.queued
               = Some "原始分辨率的下载请求已添加到下载队列，使用客户端")
    by (vm_compute; reflexivity).
  assert (H2 : @AsStated.translateUiText Instances.noDates Archiver.uiData
                 (Instances.fresh Instances.tagPage) Instances.queued
               = Some "原始分辨率 download has been queued for client")
    by (vm_compute; reflexivity).
  split; [vm_compute; reflexivity|].
  split; [exact H1|]. split; [exact H2|].
  rewrite H1, H2. discriminate.
Qed.

(** C3 (amended) on the rules of the archiver page. *)
Lemma translateUiText_chains_witness :
  @Syringe.translateUiText Instances.noDates Archiver.uiData
    (Instances.fresh Instances.tagPage)
    "A 1280x resolution download has been queued for client"
  = Some "1280x 分辨率的下载请求已添加到下载队列，使用客户端".
Proof.
  assert (UiTranslation.plainReplacements Archiver.uiData
          !! "A 1280x resolution download has been queued for client" = None) as Hplain
    by (vm_compute; reflexivity).
  destruct (@translateUiText_chains Instances.noDates Archiver.uiData
              (Instances.fresh Instances.tagPage) _ Hplain) as [Hc _].
  rewrite Hc. vm_compute. reflexivity.
Defined.

(** ** The mutation observer *)

Section ObserverFacts.
Context `{Tagging.t} `{Page.t}.
Implicit Types (s : Syringe.t).

Lemma documentEnd_translateTag n s :
  Syringe.documentEnd (Syringe.translateTag n s).2 = Syringe.documentEnd s.
Proof.
  unfold Syringe.translateTag.
  destruct (Dom.parentElement _ n); [|done].
  destruct (negb _); [done|]. destruct (_ || _); [done|]. destruct (_ && _); [done|].
  destruct (TagNodeRef.create _ _) as [[r|b] d']; done.
Qed.

Lemma documentEnd_translateNode n s :
  Syringe.documentEnd (Syringe.translateNode n s) = Syringe.documentEnd s.
Proof.
  unfold Syringe.translateNode.
  destruct (Syringe.skipped _ n); [done|].
  set (s1 := if Syringe.isNode _ n "body" then _ else s).
  assert (Syringe.documentEnd s1 = Syringe.documentEnd s) as <-
    by (subst s1; destruct (Syringe.isNode _ n "body"); done).
  pose proof (documentEnd_translateTag n s1) as Ht.
  destruct (Syringe.translateTag n s1) as [handled s2]. simpl in Ht.
  destruct (negb handled && _); done.
Qed.

Lemma documentEnd_translateNodes (l : list nat) s :
  Syringe.documentEnd (foldl (fun s n => Syringe.translateNode n s) s l)
  = Syringe.documentEnd s.
Proof.
  revert s. induction l as [|n l IH]; intros s; simpl; [done|].
  by rewrite IH, documentEnd_translateNode.
Qed.

Lemma whileNode_visits (w : Syringe.Walk) s :
  Syringe.whileNode w s
  = foldl (fun s n => Syringe.translateNode n s) s (Syringe.visits w s).
Proof.
  revert s. induction w as [|n rest IH]; intros s; [done|].
  cbn [Syringe.whileNode Syringe.visits foldl]. apply IH.
Qed.

Lemma onAddedNode_calls s (a : Syringe.AddedNode) :
  Syringe.onAddedNode s a
  = foldl (fun s n => Syringe.translateNode n s) s (Syringe.callsFor s a).
Proof.
  unfold Syringe.onAddedNode, Syringe.callsFor. cbn [foldl].
  rewrite andb_true_r, documentEnd_translateNode.
  destruct (Syringe.documentEnd s); [apply whileNode_visits|done].
Qed.

Lemma addedNodes_calls (l : list Syringe.AddedNode) s :
  foldl Syringe.onAddedNode s l
  = foldl (fun s n => Syringe.translateNode n s) s (Syringe.callsForAll s l).
Proof.
  revert s. induction l as [|a l IH]; intros s; [done|].
  cbn [foldl Syringe.callsForAll]. by rewrite foldl_app, <- onAddedNode_calls, IH.
Qed.

Lemma observerCallback_calls (mutations : list Syringe.MutationRecord) s :
  Syringe.observerCallback mutations s
  = foldl (fun s n => Syringe.translateNode n s) s (Syringe.calls s mutations).
Proof.
  unfold Syringe.observerCallback.
  revert s. induction mutations as [|m ms IH]; intros s; [done|].
  cbn [foldl Syringe.calls]. by rewrite foldl_app, <- addedNodes_calls, IH.
Qed.

(** What every call of [translateNode] keeps, the callback keeps. *)
Lemma observerCallback_keeps (P : Syringe.t → Prop) :
  (∀ n s, P s → P (Syringe.translateNode n s)) →
  ∀ mutations s, P s → P (Syringe.observerCallback mutations s).
Proof.
  intros Hstep mutations s Hs. rewrite observerCallback_calls.
  generalize (Syringe.calls s mutations). intros l.
  revert s Hs. induction l as [|n l IH]; intros s Hs; simpl; [done|].
  by apply IH, Hstep.
Qed.

(** The calls the callback makes for one added node: before the document
    is ready, one call, on the node; once it is ready, a call on the node
    and then the walk of the iterator, which begins with the node itself, so
    that the node is visited a second time before anything below it is. *)
Lemma observer_visits s (a : Syringe.AddedNode) :
  Syringe.onAddedNode s a
  = foldl (fun s n => Syringe.translateNode n s) s (Syringe.callsFor s a)
  ∧ (Syringe.documentEnd s = false → Syringe.callsFor s a = [Syringe.node1 a])
  ∧ (Syringe.documentEnd s = true →
       ∃ rest, Syringe.callsFor s a = Syringe.node1 a :: Syringe.node1 a :: rest).
Proof.
  split; [apply onAddedNode_calls|]. unfold Syringe.callsFor.
  split; intros ->; [done|]. cbn [Syringe.createNodeIterator Syringe.visits]. eauto.
Qed.

End ObserverFacts.

(** The iterator is live.  The sample tag is inserted after the page is
    ready, with a dictionary loaded: the visit of its text renders the tag,
    which takes the text out of the tree and puts the label there, and the
    iterator goes on with the node of the label.  Without a dictionary
    nothing is rendered and the walk ends with the text. *)
Example live_walk :
  @Syringe.calls Instances.tagging Instances.page
    (Syringe.with_documentEnd true
       (Syringe.with_tagMap (Some Instances.D1) (Instances.fresh Instances.tagPage)))
    [Syringe.mkMutation [Instances.addedTag]]
  = [1; 1; 2; 5]
  ∧ @Syringe.calls Instances.tagging Instances.page
      (Syringe.with_documentEnd true (Instances.fresh Instances.tagPage))
      [Syringe.mkMutation [Instances.addedTag]]
    = [1; 1; 2].
Proof. split; vm_compute; reflexivity. Qed.


(** ** [Syringe.updateTagMap] *)

Section RefreshFacts.
Context `{Tagging.t}.
Implicit Types (s : Syringe.t) (o : Outcome) (p : nat).

Lemma resume_eq p o s :
  Syringe.resume p o s =
  (Syringe.Normal tt,
   finish p
     match o with
     | Rejected ex => Syringe.log (Error ex) s
     | Fulfilled data =>
         match map data with
         | None => Syringe.log (Log "替换数据已经最新" (sha data)) s
         | Some entries =>
             match Syringe.buildTagMap entries ∅ with
             | Syringe.Throw ex => Syringe.log (Error ex) s
             | Syringe.Normal tagMap =>
                 Syringe.log (Log "替换数据已更新" (sha data))
                   (Syringe.storageSetSha (sha data)
                      (Syringe.storageSetMap tagMap
                         (Syringe.translateTags (Some tagMap) s)))
             end
         end
     end).
Proof.
  unfold Syringe.resume, Syringe.tryCatchFinally, Syringe.afterAwait, finish.
  unfold mbind, Syringe.M_bind, Syringe.await, Syringe.throw, Syringe.lift,
    Syringe.completion, Syringe.finallyBlock, mret, Syringe.M_ret.
  destruct o as [data|ex]; simpl.
  - destruct (map data) as [entries|]; simpl.
    + destruct (Syringe.buildTagMap entries ∅) as [tagMap|ex]; simpl;
        case_bool_decide; reflexivity.
    + case_bool_decide; reflexivity.
  - case_bool_decide; reflexivity.
Qed.

Lemma refreshState_translateTags D s :
  refreshState (Syringe.translateTags D s) = refreshState s.
Proof. reflexivity. Qed.

Lemma refreshState_finish p s :
  refreshState (finish p s)
  = (if bool_decide (Syringe.updatingTagMap s = Some p)
     then None else Syringe.updatingTagMap s,
     Syringe.pending s, Syringe.emitted s).
Proof. unfold finish, refreshState. simpl. case_bool_decide; reflexivity. Qed.

Lemma refreshState_resume p o s :
  refreshState (Syringe.resume p o s).2
  = (if bool_decide (Syringe.updatingTagMap s = Some p)
     then None else Syringe.updatingTagMap s,
     Syringe.pending s, Syringe.emitted s).
Proof.
  rewrite resume_eq. simpl. rewrite refreshState_finish.
  destruct o as [data|ex]; [|reflexivity].
  destruct (map data) as [entries|]; [|reflexivity].
  destruct (Syringe.buildTagMap entries ∅); reflexivity.
Qed.

Lemma refreshState_translateTag n s :
  refreshState (Syringe.translateTag n s).2 = refreshState s.
Proof.
  unfold Syringe.translateTag.
  destruct (Dom.parentElement _ n); [|done].
  destruct (negb _); [done|]. destruct (_ || _); [done|]. destruct (_ && _); [done|].
  destruct (TagNodeRef.create _ _) as [[r|b] d']; done.
Qed.

Context `{Page.t}.

Lemma refreshState_translateNode n s :
  refreshState (Syringe.translateNode n s) = refreshState s.
Proof.
  unfold Syringe.translateNode.
  destruct (Syringe.skipped _ n); [done|].
  set (s1 := if Syringe.isNode _ n "body" then _ else s).
  assert (refreshState s1 = refreshState s) as <-
    by (subst s1; destruct (Syringe.isNode _ n "body"); done).
  pose proof (refreshState_translateTag n s1) as Ht.
  destruct (Syringe.translateTag n s1) as [handled s2]. simpl in Ht.
  destruct (negb handled && _); done.
Qed.

Lemma refreshState_observerCallback mutations s :
  refreshState (Syringe.observerCallback mutations s) = refreshState s.
Proof.
  apply (observerCallback_keeps (fun s' => refreshState s' = refreshState s)); [|done].
  intros n s' <-. apply refreshState_translateNode.
Qed.

Lemma refreshState_updateConfig nv s :
  refreshState (Syringe.updateConfig nv s) = refreshState s.
Proof.
  unfold Syringe.updateConfig. rewrite refreshState_translateTags.
  simpl. destruct (Page.body _); reflexivity.
Qed.

(** A step that is neither a call of [updateTagMap] nor a settlement
    leaves the guard and the channel alone. *)
Lemma refreshState_other_step s e :
  match e with Syringe.UpdateTagMap | Syringe.Settled _ _ => False | _ => True end →
  refreshState (Syringe.step s e) = refreshState s.
Proof.
  destruct e as [|p o|mutations| |nv]; simpl; intros Hk; try done.
  - apply refreshState_observerCallback.
  - apply refreshState_updateConfig.
Qed.

Lemma guardInv_budget_step s e :
  guardInv s →
  guardInv (Syringe.step s e)
  ∧ (budget (Syringe.step s e)
     ≤ budget s + match e with Syringe.Settled _ _ => 1 | _ => 0 end)%nat.
Proof.
  intros Hinv.
  assert (∀ s', refreshState s' = refreshState s →
                guardInv s' ∧ (budget s' ≤ budget s + 0)%nat) as Hframe.
  { intros s' [= Hg Hp He]. unfold guardInv, budget. rewrite Hg, Hp, He.
    split; [exact Hinv | lia]. }
  destruct e as [|p o|mutations| |nv].
  - simpl. unfold Syringe.updateTagMap.
    destruct Hinv as [[Hg Hp]|(q & Hg & Hp)]; rewrite Hg.
    + split.
      * right. exists (Syringe.nextPromise s). simpl. by rewrite Hp.
      * unfold budget. simpl. rewrite Hp, length_app. simpl. lia.
    + split; [right; eauto|lia].
  - simpl. unfold Syringe.settle.
    case_bool_decide as Hin; [|split; [done|lia]].
    pose proof (refreshState_resume p o
      (Syringe.with_pending
         (List.filter (fun q => negb (Nat.eqb q p)) (Syringe.pending s)) s)) as Hr.
    destruct (Syringe.resume p o _) as [[[]|ex] s'] eqn:Hres;
      [|rewrite resume_eq in Hres; discriminate Hres].
    simpl in Hr. injection Hr as Hg Hp He.
    destruct Hinv as [[Hg0 Hp0]|(q & Hg0 & Hp0)].
    { rewrite Hp0 in Hin. by apply elem_of_nil in Hin. }
    rewrite Hp0 in Hin. apply list_elem_of_singleton in Hin as ->.
    rewrite Hg0 in Hg. rewrite bool_decide_eq_true_2 in Hg by done.
    rewrite Hp0 in Hp. simpl in Hp. rewrite Nat.eqb_refl in Hp. simpl in Hp.
    split; [left; done|]. unfold budget. rewrite Hp, He, Hp0. lia.
  - apply Hframe, (refreshState_other_step s (Syringe.Mutated mutations) I).
  - apply Hframe, (refreshState_other_step s Syringe.Ready I).
  - apply Hframe, (refreshState_other_step s (Syringe.ConfigChanged nv) I).
Qed.

Lemma guardInv_budget_run events s :
  guardInv s →
  guardInv (Syringe.run events s)
  ∧ (budget (Syringe.run events s) ≤ budget s + settlements events)%nat.
Proof.
  revert s. induction events as [|e events IH]; intros s Hinv.
  { split; [done|]. unfold settlements. simpl. lia. }
  unfold Syringe.run in *. cbn [foldl].
  destruct (guardInv_budget_step s e Hinv) as [Hinv' Hb].
  destruct (IH _ Hinv') as [Hinv'' Hb'].
  split; [done|].
  assert (settlements (e :: events)
          = (match e with Syringe.Settled _ _ => 1 | _ => 0 end + settlements events)%nat) as ->
    by (unfold settlements; destruct e; reflexivity).
  lia.
Qed.

End RefreshFacts.

(** C1.  From a plugin without a refresh in flight, after every sequence
    of events (calls of [updateTagMap], settlements, mutation batches, the
    ready signal, configuration changes): at most one refresh is in
    flight; a call of [updateTagMap] made while one is in flight changes
    nothing, so it emits no request; two calls in a row leave the state
    the first one produced, and from an idle plugin they emit exactly one
    [get-tag-map] request, carrying the cached fingerprint; the requests
    emitted never exceed the settlements by more than one. *)
Theorem refresh_single_flight `{Tagging.t} `{Page.t}
    (events : list Syringe.Event) (s0 : Syringe.t) :
  Syringe.updatingTagMap s0 = None → Syringe.pending s0 = [] →
  let s := Syringe.run events s0 in
  (length (Syringe.pending s) ≤ 1)%nat
  ∧ (Syringe.pending s ≠ [] → Syringe.updateTagMap s = s)
  ∧ Syringe.updateTagMap (Syringe.updateTagMap s) = Syringe.updateTagMap s
  ∧ (Syringe.pending s = [] →
       Syringe.emitted (Syringe.updateTagMap (Syringe.updateTagMap s))
       = (Syringe.emitted s ++ [mkRequest "get-tag-map" (databaseSha (Syringe.storage s))])%list
       ∧ length (Syringe.pending (Syringe.updateTagMap (Syringe.updateTagMap s))) = 1%nat)
  ∧ (length (Syringe.emitted s)
     ≤ length (Syringe.emitted s0) + 1 + settlements events)%nat.
Proof.
  intros Hg0 Hp0 s.
  assert (guardInv s0) as Hinv0 by (left; done).
  destruct (guardInv_budget_run events s0 Hinv0) as [Hinv Hb]. fold s in Hinv, Hb.
  assert (Syringe.updateTagMap (Syringe.updateTagMap s) = Syringe.updateTagMap s) as Hidem.
  { unfold Syringe.updateTagMap at 2 3.
    destruct (Syringe.updatingTagMap s) eqn:Hg.
    - unfold Syringe.updateTagMap. by rewrite Hg.
    - reflexivity. }
  split; [|split; [|split; [exact Hidem|split]]].
  - destruct Hinv as [[_ ->]|(p & _ & ->)]; simpl; lia.
  - intros Hne. destruct Hinv as [[_ Hp]|(p & Hg & _)]; [done|].
    unfold Syringe.updateTagMap. by rewrite Hg.
  - intros Hp. rewrite Hidem.
    destruct Hinv as [[Hg _]|(p & _ & Hp')]; [|congruence].
    unfold Syringe.updateTagMap. rewrite Hg. simpl. by rewrite Hp.
  - unfold budget in Hb. rewrite Hp0 in Hb.
    destruct (Syringe.pending s); lia.
Qed.

(** C1 on a fresh plugin: the call of [init] and two [tag-updated]
    messages arriving before the provider answers emit one request. *)
Lemma refresh_single_flight_witness :
  Syringe.emitted
    (@Syringe.run Instances.tagging Instances.page
       [Syringe.UpdateTagMap; Syringe.UpdateTagMap; Syringe.UpdateTagMap]
       (Instances.fresh Instances.tagPage))
  = [mkRequest "get-tag-map" None].
Proof.
  destruct (@refresh_single_flight Instances.tagging Instances.page
              [Syringe.UpdateTagMap] (Instances.fresh Instances.tagPage)
              eq_refl eq_refl) as (_ & Hnoop & Hidem & _).
  change (@Syringe.run Instances.tagging Instances.page
            [Syringe.UpdateTagMap; Syringe.UpdateTagMap; Syringe.UpdateTagMap]
            (Instances.fresh Instances.tagPage))
    with (Syringe.updateTagMap (Syringe.updateTagMap
            (@Syringe.run Instances.tagging Instances.page [Syringe.UpdateTagMap]
               (Instances.fresh Instances.tagPage)))).
  rewrite Hidem, Hnoop; [reflexivity|]. vm_compute. discriminate.
Defined.

(** C6.  Whatever the outcome of the request, the rest of the async
    function completes normally: nothing is thrown to the caller and the
    settlement adds no unhandled rejection.  When the request is rejected
    or its answer does not decode, the exception is logged and the cache,
    the registry, the current dictionary and the document are as before.
    When the provider reports that the fingerprint is current, nothing is
    written either.  The cache is written, and the registry re-translated,
    exactly when the request is fulfilled with a map that decodes. *)
Theorem refresh_failure_contained `{Tagging.t} (p : nat) (o : Outcome) (s : Syringe.t) :
  let s' := (Syringe.resume p o s).2 in
  (Syringe.resume p o s).1 = Syringe.Normal tt
  ∧ Syringe.unhandled (Syringe.settle p o s) = Syringe.unhandled s
  ∧ (fails o = true →
       Syringe.storage s' = Syringe.storage s
       ∧ Syringe.tags s' = Syringe.tags s
       ∧ Syringe.tagMap s' = Syringe.tagMap s
       ∧ Syringe.document s' = Syringe.document s
       ∧ ∃ ex, Syringe.logger s'
               = (Syringe.logger s ++ [Error ex] ++ [TimerEnd Syringe.timerLabel])%list)
  ∧ (∀ data, o = Fulfilled data → map data = None →
       Syringe.storage s' = Syringe.storage s
       ∧ Syringe.tags s' = Syringe.tags s
       ∧ Syringe.tagMap s' = Syringe.tagMap s
       ∧ Syringe.document s' = Syringe.document s)
  ∧ (∀ data entries tagMap,
       o = Fulfilled data → map data = Some entries →
       Syringe.buildTagMap entries ∅ = Syringe.Normal tagMap →
       Syringe.storage s'
       = mkStorage (Some tagMap) (Some (sha data)) (storedConfig (Syringe.storage s))
       ∧ Syringe.tagMap s' = Some tagMap
       ∧ Syringe.tags s' = Syringe.tags (Syringe.translateTags (Some tagMap) s)
       ∧ Syringe.document s' = Syringe.document (Syringe.translateTags (Some tagMap) s))
  ∧ (Syringe.storage s' ≠ Syringe.storage s → fails o = false ∧ ∃ data entries,
       o = Fulfilled data ∧ map data = Some entries).
Proof.
  intros s'. subst s'.
  assert (∀ q x, Syringe.storage (finish q x) = Syringe.storage x
                 ∧ Syringe.tags (finish q x) = Syringe.tags x
                 ∧ Syringe.tagMap (finish q x) = Syringe.tagMap x
                 ∧ Syringe.document (finish q x) = Syringe.document x
                 ∧ Syringe.logger (finish q x)
                   = (Syringe.logger x ++ [TimerEnd Syringe.timerLabel])%list
                 ∧ Syringe.unhandled (finish q x) = Syringe.unhandled x) as Hfin.
  { intros q x. unfold finish. case_bool_decide; done. }
  split; [by rewrite resume_eq|]. split.
  { unfold Syringe.settle. case_bool_decide; [|done].
    rewrite resume_eq. simpl.
    match goal with |- context [finish p ?x] =>
      destruct (Hfin p x) as (_ & _ & _ & _ & _ & ->) end.
    destruct o as [data|ex]; [|done].
    destruct (map data) as [entries|]; [|done].
    destruct (Syringe.buildTagMap entries ∅); done. }
  rewrite resume_eq. simpl.
  set (body := match o with Rejected _ => _ | Fulfilled _ => _ end).
  destruct (Hfin p body) as (-> & -> & -> & -> & Hlog & _).
  split; [|split; [|split]].
  - intros Hfail. subst body. destruct o as [data|ex]; simpl in *.
    + destruct (map data) as [entries|]; [|discriminate].
      destruct (Syringe.buildTagMap entries ∅) as [tm|ex]; [discriminate|].
      repeat (split; [done|]). exists ex. rewrite Hlog. simpl. by rewrite <- app_assoc.
    + repeat (split; [done|]). exists ex. rewrite Hlog. simpl. by rewrite <- app_assoc.
  - intros data -> Hmap. subst body. simpl. rewrite Hmap. done.
  - intros data entries tm -> Hmap Hbuild. subst body. simpl.
    rewrite Hmap, Hbuild. done.
  - intros Hneq. subst body. destruct o as [data|ex]; simpl in *; [|done].
    destruct (map data) as [entries|] eqn:Hmap; [|done].
    destruct (Syringe.buildTagMap entries ∅) as [tm|ex]; [|done].
    split; [done|]. by exists data, entries.
Qed.

(** C6 on the sample plugin: a rejected request, and an answer with a
    [null] value, leave the cache as it was and log the exception. *)
Lemma refresh_failure_contained_witness :
  Syringe.storage
    (@Syringe.resume Instances.tagging 0 (Rejected "NetworkError")
       Instances.renderedUnderD1).2
  = Syringe.storage Instances.renderedUnderD1
  ∧ Syringe.storage
      (@Syringe.resume Instances.tagging 0
         (Fulfilled (mkData (Some [("female:nakadashi", Named (Some "中出")); ("x", Nullish)])
                       "abc"))
         Instances.renderedUnderD1).2
    = Syringe.storage Instances.renderedUnderD1.
Proof.
  split.
  - destruct (@refresh_failure_contained Instances.tagging 0 (Rejected "NetworkError")
                Instances.renderedUnderD1) as (_ & _ & Hfail & _).
    apply Hfail. reflexivity.
  - destruct (@refresh_failure_contained Instances.tagging 0
                (Fulfilled (mkData (Some [("female:nakadashi", Named (Some "中出")); ("x", Nullish)])
                       "abc"))
                Instances.renderedUnderD1) as (_ & _ & Hfail & _).
    apply Hfail. reflexivity.
Defined.

(** * Further properties of the plugin's code *)

(** ** Splitting and replacing *)

Section StringFacts.
Implicit Types (s p b : string) (c sep : ascii).

Lemma split_nonempty sep s : Js.split sep s ≠ [].
Proof.
  destruct s as [|a s]; simpl; [done|].
  destruct (Ascii.eqb a sep); [done|]. destruct (Js.split sep s); done.
Qed.

Lemma split_absent sep s : occurs sep s = false → Js.split sep s = [s].
Proof.
  induction s as [|a s IH]; simpl; [done|].
  intros Ho. apply orb_false_iff in Ho as [Ha Hs].
  rewrite Ha, (IH Hs). done.
Qed.

Lemma split_app sep s b :
  Js.split sep (s +:+ String sep b) = (Js.split sep s ++ Js.split sep b)%list.
Proof.
  induction s as [|a s IH]; simpl.
  - by rewrite Ascii.eqb_refl.
  - destruct (Ascii.eqb a sep); [by rewrite IH|].
    rewrite IH. pose proof (split_nonempty sep s) as Hne.
    destruct (Js.split sep s) as [|h t]; done.
Qed.

(** No piece of a split contains the separator, and a character that is
    not in the text is in none of the pieces. *)
Lemma split_pieces sep c s :
  (c = sep ∨ occurs c s = false) →
  Forall (fun piece => occurs c piece = false) (Js.split sep s).
Proof.
  intros Hc. induction s as [|a s IH]; simpl.
  { by repeat constructor. }
  assert (c = sep ∨ occurs c s = false) as Hs.
  { destruct Hc as [->|Hc]; [by left|]. right.
    simpl in Hc. by apply orb_false_iff in Hc as [_ ?]. }
  specialize (IH Hs).
  destruct (Ascii.eqb a sep) eqn:Ea.
  - constructor; done.
  - pose proof (split_nonempty sep s) as Hne.
    destruct (Js.split sep s) as [|h t]; [done|].
    apply Forall_cons in IH as [Hh Ht]. constructor; [|done].
    simpl. rewrite Hh, orb_false_r.
    destruct Hc as [->|Hc]; [done|].
    simpl in Hc. by apply orb_false_iff in Hc as [? _].
Qed.

Lemma split_piece sep c s piece :
  (c = sep ∨ occurs c s = false) → piece ∈ Js.split sep s → occurs c piece = false.
Proof.
  intros Hc Hp. pose proof (split_pieces sep c s Hc) as Hall.
  rewrite Forall_forall in Hall. by apply Hall.
Qed.

Lemma occurs_app c s b : occurs c (s +:+ b) = occurs c s || occurs c b.
Proof. induction s as [|a s IH]; simpl; [done|]. by rewrite IH, orb_assoc. Qed.

Lemma replaceAllChar_app c d s b :
  Js.replaceAllChar c d (s +:+ b) = Js.replaceAllChar c d s +:+ Js.replaceAllChar c d b.
Proof. induction s as [|a s IH]; simpl; [done|]. by rewrite IH. Qed.

Lemma replaceAllChar_absent c d s : occurs c s = false → Js.replaceAllChar c d s = s.
Proof.
  induction s as [|a s IH]; simpl; [done|].
  intros Ho. apply orb_false_iff in Ho as [Ha Hs]. by rewrite Ha, (IH Hs).
Qed.

Lemma occurs_replaceAllChar c d s : c ≠ d → occurs c (Js.replaceAllChar c d s) = false.
Proof.
  intros Hne. induction s as [|a s IH]; simpl; [done|].
  rewrite IH, orb_false_r. destruct (Ascii.eqb a c) eqn:Ea; [|done].
  apply Ascii.eqb_neq. congruence.
Qed.

Lemma occurs_replaceAllChar_other c d e s :
  e ≠ d → occurs e s = false → occurs e (Js.replaceAllChar c d s) = false.
Proof.
  intros Hne. induction s as [|a s IH]; simpl; [done|].
  intros Ho. apply orb_false_iff in Ho as [Ha Hs]. rewrite (IH Hs), orb_false_r.
  destruct (Ascii.eqb a c); [|done]. apply Ascii.eqb_neq. congruence.
Qed.

(** Writing [d] for [c] and then [c] for [d] gives the text back when it
    had no [d]. *)
Lemma replaceAllChar_inverse c d s :
  occurs d s = false → Js.replaceAllChar d c (Js.replaceAllChar c d s) = s.
Proof.
  induction s as [|a s IH]; simpl; [done|].
  intros Ho. apply orb_false_iff in Ho as [Ha Hs]. rewrite (IH Hs).
  destruct (Ascii.eqb a c) eqn:Ec.
  - apply Ascii.eqb_eq in Ec as ->. by rewrite Ascii.eqb_refl.
  - by rewrite Ha.
Qed.

Lemma startsWith_app p b : Js.startsWith p (p +:+ b) = true.
Proof. induction p as [|a p IH]; simpl; [done|]. by rewrite Ascii.eqb_refl, IH. Qed.

Lemma includes_unfold p s :
  Js.includes p s
  = Js.startsWith p s || match s with
                         | EmptyString => false
                         | String _ s' => Js.includes p s'
                         end.
Proof. destruct s; reflexivity. Qed.

Lemma includes_app p s b : Js.includes p (s +:+ p +:+ b) = true.
Proof.
  induction s as [|a s IH].
  - change ("" +:+ p +:+ b) with (p +:+ b).
    by rewrite includes_unfold, startsWith_app.
  - change (String a s +:+ p +:+ b) with (String a (s +:+ p +:+ b)).
    rewrite includes_unfold, IH. apply orb_true_r.
Qed.

Lemma last_split_app sep s b :
  last (Js.split sep (s +:+ String sep b)) = last (Js.split sep b).
Proof.
  rewrite split_app. pose proof (split_nonempty sep b) as Hne.
  rewrite last_app. destruct (last (Js.split sep b)) eqn:El; [done|].
  by apply last_None in El.
Qed.

Lemma append_assoc s p b : (s +:+ p) +:+ b = s +:+ p +:+ b.
Proof.
  induction s as [|a s IH]; [done|].
  change (String a ((s +:+ p) +:+ b) = String a (s +:+ p +:+ b)). by rewrite IH.
Qed.

Lemma split_two sep s b :
  occurs sep s = false → occurs sep b = false →
  Js.split sep (s +:+ String sep b) = [s; b].
Proof. intros Hs Hb. by rewrite split_app, !split_absent. Qed.

End StringFacts.

(** ** The tag context menu *)

Section ContextMenuFacts.
Implicit Types (base ns k segment : string).

(** X1.  Whatever link the handler is given, the tag it opens the editor
    for has a key and a namespace without [/], [:] and [+]: the key is the
    part after the last colon of the last path segment, with every plus
    sign turned into a space. *)
Theorem onclick_tag_clean (url : option string) (tk : TagKey) :
  TagContextMenu.onclick url = Some tk →
  ∃ k, key tk = Some k
       ∧ Forall (fun c => occurs c k = false ∧ occurs c (namespace tk) = false)
           ["/"; ":"; "+"]%char.
Proof.
  unfold TagContextMenu.onclick. destruct url as [u|]; [|done].
  destruct (negb (Js.includes "/tag/" u)); [done|].
  destruct (last (Js.split "/" u)) as [segment|] eqn:Hlast;
    [|by apply last_None, split_nonempty in Hlast].
  apply last_Some_elem_of in Hlast.
  pose proof (split_piece "/" "/" u segment (or_introl eq_refl) Hlast) as Hslash.
  set (seg := Js.split ":" (Js.replaceAllChar "+" " " segment)).
  assert (Forall (fun piece => Forall (fun c => occurs c piece = false)
                                 ["/"; ":"; "+"]%char) seg) as Hseg.
  { subst seg. apply Forall_forall. intros piece Hp.
    repeat apply Forall_cons_2; [| | |apply Forall_nil_2].
    - eapply split_piece; [|exact Hp]. right. by apply occurs_replaceAllChar_other.
    - eapply split_piece; [|exact Hp]. by left.
    - eapply split_piece; [|exact Hp]. right. by apply occurs_replaceAllChar. }
  assert (Forall (fun c => occurs c "temp" = false) ["/"; ":"; "+"]%char) as Htemp
    by (repeat constructor).
  assert (Forall (fun c => occurs c "" = false) ["/"; ":"; "+"]%char) as Hempty
    by (repeat constructor).
  intros [= <-]. simpl. eexists. split; [done|].
  assert (Forall (fun c => occurs c (default "" (last seg)) = false)
            ["/"; ":"; "+"]%char) as Hkey.
  { destruct (last seg) as [x|] eqn:Hx; [|done].
    apply last_Some_elem_of in Hx. rewrite Forall_forall in Hseg. by apply Hseg. }
  assert (Forall (fun c => occurs c (if (length seg <=? 1)%nat then "temp"
                                     else default "" (head seg)) = false)
            ["/"; ":"; "+"]%char) as Hns.
  { destruct (length seg <=? 1)%nat; [done|].
    destruct (head seg) as [x|] eqn:Hx; [|done].
    apply head_Some_elem_of in Hx. rewrite Forall_forall in Hseg. by apply Hseg. }
  rewrite Forall_forall in Hkey, Hns. apply Forall_forall. intros c Hc.
  split; [by apply Hkey | by apply Hns].
Qed.

(** X2.  Round trip: for a namespace and a key without [/], [:] and [+],
    the link [.../tag/namespace:key], with the spaces of the key written
    as plus signs, opens the editor for exactly that namespace and key,
    whatever precedes [/tag/]. *)
Theorem onclick_roundtrip base ns k :
  Forall (fun c => occurs c ns = false ∧ occurs c k = false) ["/"; ":"; "+"]%char →
  TagContextMenu.onclick
    (Some (base +:+ "/tag/" +:+ ns +:+ ":" +:+ Js.replaceAllChar " " "+" k))
  = Some (mkTagKey ns (Some k)).
Proof.
  intros Hclean.
  apply Forall_cons in Hclean as [[Hns1 Hk1] Hclean].
  apply Forall_cons in Hclean as [[Hns2 Hk2] Hclean].
  apply Forall_cons in Hclean as [[Hns3 Hk3] _].
  set (rest := ns +:+ ":" +:+ Js.replaceAllChar " " "+" k).
  unfold TagContextMenu.onclick. rewrite includes_app. simpl negb. cbv iota.
  change (base +:+ "/tag/" +:+ rest) with (base +:+ "/tag" +:+ String "/" rest).
  rewrite <- append_assoc, last_split_app.
  assert (occurs "/" rest = false) as Hrest.
  { subst rest. rewrite !occurs_app, Hns1. simpl.
    by apply occurs_replaceAllChar_other. }
  rewrite (split_absent "/" rest Hrest).
  change (last [rest]) with (Some rest). cbv beta iota.
  assert (Js.replaceAllChar "+" " " rest = ns +:+ String ":" k) as Hrep.
  { subst rest. rewrite !replaceAllChar_app, (replaceAllChar_absent "+" " " ns Hns3).
    by rewrite replaceAllChar_inverse. }
  rewrite !Hrep, !split_two by done. reflexivity.
Qed.

(** X3.  A link whose last path segment has no colon opens the editor in
    the namespace [temp], with the segment as the key (plus signs as
    spaces); a link that ends in [/tag/] opens it with the empty key. *)
Theorem onclick_without_namespace base segment :
  occurs "/" segment = false → occurs ":" segment = false →
  TagContextMenu.onclick (Some (base +:+ "/tag/" +:+ segment))
  = Some (mkTagKey "temp" (Some (Js.replaceAllChar "+" " " segment))).
Proof.
  intros Hslash Hcolon.
  unfold TagContextMenu.onclick. rewrite includes_app. simpl negb. cbv iota.
  change (base +:+ "/tag/" +:+ segment) with (base +:+ "/tag" +:+ String "/" segment).
  rewrite <- append_assoc, last_split_app, (split_absent "/" segment Hslash).
  change (last [segment]) with (Some segment). cbv beta iota.
  rewrite !split_absent; [reflexivity|].
  by apply occurs_replaceAllChar_other.
Qed.

End ContextMenuFacts.

Lemma onclick_tag_clean_witness :
  ∃ k, key (mkTagKey "a" (Some "c d")) = Some k
       ∧ Forall (fun c => occurs c k = false
                          ∧ occurs c (namespace (mkTagKey "a" (Some "c d"))) = false)
           ["/"; ":"; "+"]%char.
Proof.
  apply (onclick_tag_clean (Some "https://e-hentai.org/tag/a:b:c+d")).
  vm_compute. reflexivity.
Defined.

Lemma onclick_roundtrip_witness :
  TagContextMenu.onclick (Some "https://e-hentai.org/tag/female:big+breasts")
  = Some (mkTagKey "female" (Some "big breasts")).
Proof.
  apply (onclick_roundtrip "https://e-hentai.org" "female" "big breasts").
  repeat constructor.
Defined.

Lemma onclick_without_namespace_witness :
  TagContextMenu.onclick (Some "https://e-hentai.org/tag/")
  = Some (mkTagKey "temp" (Some "")).
Proof. apply (onclick_without_namespace "https://e-hentai.org" ""); reflexivity. Defined.

(** ** Key derivation in [TagNodeRef.create] *)

Section KeyFacts.
Implicit Types (ns k aTitle aId : string).

Lemma truthy_app_colon ns k : Js.truthy (ns +:+ String ":" k) = true.
Proof. by destruct ns. Qed.

(** X4.  The two places a tag's key is read from agree: for a namespace
    and a non-empty key without colon and underscore, the title
    [namespace:key] and the id [ta_namespace:key], with the spaces of the
    key written as underscores, give the same TagKey. *)
Theorem title_and_id_agree ns k aId :
  occurs ":" ns = false → occurs "_" ns = false →
  occurs ":" k = false → occurs "_" k = false → Js.truthy k = true →
  TagNodeRef.tagKeyOf (ns +:+ ":" +:+ k) aId = Some (mkTagKey ns (Some k))
  ∧ TagNodeRef.tagKeyOf "" ("ta_" +:+ ns +:+ ":" +:+ Js.replaceAllChar " " "_" k)
    = Some (mkTagKey ns (Some k)).
Proof.
  intros Hns1 Hns2 Hk1 Hk2 Hk.
  assert (TagNodeRef.destructure (ns +:+ String ":" k) = mkTagKey ns (Some k)) as Hd.
  { unfold TagNodeRef.destructure. by rewrite split_two. }
  split.
  - unfold TagNodeRef.tagKeyOf.
    change (ns +:+ ":" +:+ k) with (ns +:+ String ":" k).
    by rewrite truthy_app_colon, Hd.
  - unfold TagNodeRef.tagKeyOf.
    change (Js.truthy "") with false. cbv iota.
    change ("ta_" +:+ ns +:+ ":" +:+ Js.replaceAllChar " " "_" k)
      with (String "t" (String "a" (String "_"
              (ns +:+ String ":" (Js.replaceAllChar " " "_" k))))).
    change (Js.truthy (String "t" _)) with true. cbv iota.
    change (Js.startsWith "ta_" (String "t" (String "a" (String "_" ?x)))) with true.
    cbv iota.
    change (Js.slice 3 (String "t" (String "a" (String "_" ?x)))) with x.
    change (ns +:+ String ":" (Js.replaceAllChar " " "_" k))
      with (ns +:+ ":" +:+ Js.replaceAllChar " " "_" k).
    rewrite !replaceAllChar_app, (replaceAllChar_absent "_" " " ns Hns2).
    rewrite replaceAllChar_inverse by done.
    change (ns +:+ Js.replaceAllChar "_" " " ":" +:+ k) with (ns +:+ String ":" k).
    rewrite Hd. simpl. by rewrite Hk.
Qed.

(** X5.  The edge of the key derivation: a non-empty title without a
    colon hands [tagging.fullKey] the whole title as the namespace and an
    undefined key, while an id always yields a defined key, and neither
    the key nor the namespace read from an id contains an underscore or a
    colon. *)
Theorem tagKeyOf_edges :
  (∀ aTitle aId, Js.truthy aTitle = true → occurs ":" aTitle = false →
     TagNodeRef.tagKeyOf aTitle aId = Some (mkTagKey aTitle None))
  ∧ (∀ aId tk, TagNodeRef.tagKeyOf "" aId = Some tk →
       ∃ k, key tk = Some k
            ∧ Forall (fun c => occurs c k = false ∧ occurs c (namespace tk) = false)
                ["_"; ":"]%char).
Proof.
  split.
  - intros aTitle aId Ht Hc. unfold TagNodeRef.tagKeyOf, TagNodeRef.destructure.
    by rewrite Ht, split_absent.
  - intros aId tk. unfold TagNodeRef.tagKeyOf.
    change (Js.truthy "") with false. cbv iota.
    destruct (Js.truthy aId); [|done].
    set (id := if Js.startsWith "ta_" aId then Js.slice 3 aId else aId).
    set (text := Js.replaceAllChar "_" " " id).
    assert (∀ piece, piece ∈ Js.split ":" text →
              Forall (fun c => occurs c piece = false) ["_"; ":"]%char) as Hpiece.
    { intros piece Hp. repeat apply Forall_cons_2; [| |apply Forall_nil_2].
      - eapply split_piece; [|exact Hp]. right. by apply occurs_replaceAllChar.
      - eapply split_piece; [|exact Hp]. by left. }
    unfold TagNodeRef.destructure.
    pose proof (split_nonempty ":" text) as Hne.
    destruct (Js.split ":" text) as [|first rest] eqn:Hsplit; [done|].
    assert (Forall (fun c => occurs c first = false) ["_"; ":"]%char) as Hfirst
      by (apply Hpiece, list_elem_of_here).
    assert (Forall (fun c => occurs c "" = false) ["_"; ":"]%char) as Hempty
      by (repeat constructor).
    simpl. destruct rest as [|second rest]; simpl.
    + intros [= <-]. exists first. split; [reflexivity|].
      rewrite Forall_forall in Hfirst, Hempty.
      apply Forall_forall. intros c Hc. split; [by apply Hfirst | by apply Hempty].
    + assert (Forall (fun c => occurs c second = false) ["_"; ":"]%char) as Hsecond
        by (apply Hpiece, list_elem_of_further, list_elem_of_here).
      rewrite Forall_forall in Hfirst, Hsecond, Hempty.
      destruct (Js.truthy second); intros [= <-].
      * exists second. split; [reflexivity|].
        apply Forall_forall. intros c Hc. split; [by apply Hsecond | by apply Hfirst].
      * exists first. split; [reflexivity|].
        apply Forall_forall. intros c Hc. split; [by apply Hfirst | by apply Hempty].
Qed.

End KeyFacts.

Lemma title_and_id_agree_witness :
  TagNodeRef.tagKeyOf "female:big breasts" ""
  = Some (mkTagKey "female" (Some "big breasts"))
  ∧ TagNodeRef.tagKeyOf "" "ta_female:big_breasts"
    = Some (mkTagKey "female" (Some "big breasts")).
Proof. apply (title_and_id_agree "female" "big breasts" ""); reflexivity. Defined.

Lemma tagKeyOf_edges_witness :
  TagNodeRef.tagKeyOf "nakadashi" "ta_female:nakadashi" = Some (mkTagKey "nakadashi" None)
  ∧ ∃ k, key (mkTagKey "" (Some "temp bondage")) = Some k
         ∧ Forall (fun c => occurs c k = false
                            ∧ occurs c (namespace (mkTagKey "" (Some "temp bondage"))) = false)
             ["_"; ":"]%char.
Proof.
  destruct tagKeyOf_edges as [Htitle Hid]. split.
  - apply Htitle; reflexivity.
  - apply (Hid "ta_temp_bondage"). reflexivity.
Defined.

(** ** What classification changes *)

Section ClassifyFacts.
Context `{Tagging.t}.
Implicit Types (d : Dom) (r : TagNodeRef.t) (n m p : nat) (s : Syringe.t).

Lemma contentOf_setAttribute d n k v m :
  Dom.contentOf (Dom.setAttribute n k v d) m = Dom.contentOf d m.
Proof.
  unfold Dom.contentOf. rewrite lookup_setAttribute.
  destruct (d !! m) as [nd|]; simpl; [|done]. by destruct (decide (n = m)).
Qed.

Lemma lookup_setAttribute_ne d n k v m :
  n ≠ m → Dom.setAttribute n k v d !! m = d !! m.
Proof.
  intros Hne. rewrite lookup_setAttribute. destruct (d !! m); simpl; [|done].
  by rewrite decide_False.
Qed.

Lemma with_document_same s : Syringe.with_document (Syringe.document s) s = s.
Proof. by destruct s. Qed.

(** X6.  [create] changes the document only when it creates an entry, and
    then only attributes of the parent element: the marker, which is set to
    the text of the node, [lang], which becomes [en], and [title], which
    gets the full key unless the element has a title attribute already.
    What any element shows, the tree, every other node and every other
    attribute stay as they were. *)
Theorem create_frame d n res d' :
  TagNodeRef.create n d = (res, d') →
  match res with
  | TagNodeRef.Bool _ => d' = d
  | TagNodeRef.Ref r =>
      (∀ m, Dom.contentOf d' m = Dom.contentOf d m
            ∧ Dom.parentElement d' m = Dom.parentElement d m)
      ∧ (∀ m, m ≠ TagNodeRef.node r → d' !! m = d !! m)
      ∧ Dom.getAttribute d' (TagNodeRef.node r) TagNodeRef.ATTR
        = Some (default "" (data <$> d !! n))
      ∧ Dom.getAttribute d' (TagNodeRef.node r) "lang" = Some "en"
      ∧ Dom.getAttribute d' (TagNodeRef.node r) "title"
        = Some (default (TagNodeRef.fullKey r)
                  (Dom.getAttribute d (TagNodeRef.node r) "title"))
      ∧ (∀ k, k ≠ TagNodeRef.ATTR → k ≠ "lang" → k ≠ "title" →
           Dom.getAttribute d' (TagNodeRef.node r) k
           = Dom.getAttribute d (TagNodeRef.node r) k)
  end.
Proof.
  intros Hc. destruct res as [r|b]; [|by eapply create_Bool].
  apply create_Ref in Hc as (Hp & _ & Horig & ->).
  assert (is_Some (d !! TagNodeRef.node r)) as Hin by (eapply parentElement_is_Some, Hp).
  rewrite <- Horig.
  assert (Dom.getAttribute
            (TagNodeRef.construct (TagNodeRef.node r) (TagNodeRef.fullKey r)
               (TagNodeRef.original r) d).2 (TagNodeRef.node r) TagNodeRef.ATTR
          = Some (TagNodeRef.original r)) as Hmark by (by apply construct_marks).
  revert Hmark. unfold TagNodeRef.construct. simpl.
  set (d2 := Dom.setAttribute (TagNodeRef.node r) "lang" "en"
               (Dom.setAttribute (TagNodeRef.node r) TagNodeRef.ATTR
                  (TagNodeRef.original r) d)).
  assert (Dom.getAttribute d2 (TagNodeRef.node r) "title"
          = Dom.getAttribute d (TagNodeRef.node r) "title") as Htitle.
  { subst d2. by rewrite !getAttribute_setAttribute_ne. }
  assert (is_Some (d2 !! TagNodeRef.node r)) as Hin2.
  { subst d2. by rewrite !lookup_setAttribute_is_Some. }
  unfold Dom.hasAttribute. rewrite Htitle.
  destruct (Dom.getAttribute d (TagNodeRef.node r) "title") as [old|] eqn:Hold.
  - rewrite bool_decide_eq_true_2 by eauto. subst d2. intros Hmark.
    split; [intros m; by rewrite !contentOf_setAttribute, !parentElement_setAttribute|].
    split; [intros m Hm; by rewrite !lookup_setAttribute_ne|].
    split; [exact Hmark|].
    split; [by apply getAttribute_setAttribute_eq, lookup_setAttribute_is_Some|].
    split; [by rewrite !getAttribute_setAttribute_ne|].
    intros k Hk1 Hk2 Hk3. by rewrite !getAttribute_setAttribute_ne.
  - rewrite bool_decide_eq_false_2 by (by intros [? ?]). subst d2. intros Hmark.
    split; [intros m; by rewrite !contentOf_setAttribute, !parentElement_setAttribute|].
    split; [intros m Hm; by rewrite !lookup_setAttribute_ne|].
    split; [exact Hmark|].
    split.
    { rewrite getAttribute_setAttribute_ne by done.
      by apply getAttribute_setAttribute_eq, lookup_setAttribute_is_Some. }
    split; [by apply getAttribute_setAttribute_eq|].
    intros k Hk1 Hk2 Hk3. by rewrite !getAttribute_setAttribute_ne.
Qed.

(** X7.  [translateTag] changes the plugin only when it registers a new
    entry: a call that returns [false] (the node goes on to the generic
    pass) leaves the whole state as it was, and so does a call that finds
    the element claimed; a call that registers pushes exactly one entry, for
    the parent element of the text, with the text as its original, and
    leaves that element marked. *)
Theorem translateTag_effect n s :
  ((Syringe.translateTag n s).1 = false → (Syringe.translateTag n s).2 = s)
  ∧ ((Syringe.translateTag n s).2 = s
     ∨ ∃ r, (Syringe.translateTag n s).1 = true
            ∧ Syringe.tags (Syringe.translateTag n s).2 = (Syringe.tags s ++ [r])%list
            ∧ Dom.parentElement (Syringe.document s) n = Some (TagNodeRef.node r)
            ∧ TagNodeRef.original r = default "" (data <$> Syringe.document s !! n)
            ∧ marked (Syringe.document (Syringe.translateTag n s).2) (TagNodeRef.node r)).
Proof.
  unfold Syringe.translateTag.
  destruct (Dom.parentElement (Syringe.document s) n) as [p|] eqn:Hp; [|by split; [|left]].
  destruct (negb (Syringe.isText _ n)); [by split; [|left]|].
  destruct (_ || _); [by split; [|left]|].
  destruct (_ && _); [by split; [|left]|].
  destruct (TagNodeRef.create n (Syringe.document s)) as [[r|b] d'] eqn:Hc.
  - split; [done|]. right. exists r.
    apply create_Ref in Hc as (Hpr & _ & Horig & Hd').
    assert (marked d' (TagNodeRef.node r)) as Hm.
    { rewrite Hd'. unfold marked. apply hasAttribute_true.
      rewrite construct_marks; [eauto|]. eapply parentElement_is_Some, Hpr. }
    split; [done|]. split; [done|]. split; [congruence|]. split; [done|].
    by apply marked_translate.
  - apply create_Bool in Hc as ->. simpl. rewrite with_document_same.
    by split; [|left].
Qed.

Context `{Page.t}.

Lemma isText_not_body s n : Syringe.isText (Syringe.document s) n = true →
  Syringe.isNode (Syringe.document s) n "body" = false.
Proof.
  unfold Syringe.isText, Syringe.isNode.
  destruct (Syringe.document s !! n) as [nd|]; [|done].
  intros Ht. apply bool_decide_eq_true in Ht. rewrite Ht. done.
Qed.

(** X8.  The text of a search suggestion is never translated, by either
    pass and whatever the page pass does elsewhere: [translateNode] on a
    text node whose parent element is a [MARK] or carries the class
    [auto-complete-text] changes nothing. *)
Theorem translateNode_keeps_suggestions n p s :
  Syringe.isText (Syringe.document s) n = true →
  Dom.parentElement (Syringe.document s) n = Some p →
  Syringe.nodeNameOf (Syringe.document s) p = "MARK"
  ∨ Dom.classContains (Syringe.document s) p "auto-complete-text" = true →
  Syringe.translateNode n s = s.
Proof.
  intros Ht Hp Hmark. unfold Syringe.translateNode.
  destruct (Syringe.skipped _ n); [done|].
  rewrite (isText_not_body s n Ht).
  unfold Syringe.translateTag. rewrite Hp, Ht.
  change (negb true) with false. cbv iota.
  assert (bool_decide (Syringe.nodeNameOf (Syringe.document s) p = "MARK")
          || Dom.classContains (Syringe.document s) p "auto-complete-text" = true) as ->.
  { destruct Hmark as [->| ->]; [done|apply orb_true_r]. }
  done.
Qed.

(** X9.  Once an element carries the marker, a text that is still below
    it is left alone by both passes: [translateNode] on a text node whose
    parent element is marked and is, or is inside, a tag container changes
    nothing (so a second visit of a tag text cannot translate it as
    generic text). *)
Theorem translateNode_keeps_claimed n p s :
  Syringe.isText (Syringe.document s) n = true →
  Dom.parentElement (Syringe.document s) n = Some p →
  Dom.hasAttribute (Syringe.document s) p TagNodeRef.ATTR = true →
  Syringe.isTagContainer (Syringe.document s) (Some p)
  || Syringe.isTagContainer (Syringe.document s) (Dom.parentElement (Syringe.document s) p)
  = true →
  Syringe.translateNode n s = s.
Proof.
  intros Ht Hp Hm Hg. unfold Syringe.translateNode.
  destruct (Syringe.skipped _ n); [done|].
  rewrite (isText_not_body s n Ht).
  unfold Syringe.translateTag. rewrite Hp, Ht.
  change (negb true) with false. cbv iota.
  destruct (bool_decide (Syringe.nodeNameOf (Syringe.document s) p = "MARK")
            || Dom.classContains (Syringe.document s) p "auto-complete-text"); [done|].
  assert (negb (Syringe.isTagContainer (Syringe.document s) (Some p))
          && negb (Syringe.isTagContainer (Syringe.document s)
                     (Dom.parentElement (Syringe.document s) p)) = false) as ->.
  { destruct (Syringe.isTagContainer _ (Some p)); [done|].
    destruct (Syringe.isTagContainer _ (Dom.parentElement _ p)); done. }
  rewrite (create_claimed _ n p Hp Hm). simpl. by rewrite with_document_same.
Qed.

End ClassifyFacts.

Lemma create_frame_witness :
  Dom.getAttribute (@TagNodeRef.create Instances.tagging 2 Instances.tempPage).2 1 "title"
  = Some "temp bondage"
  ∧ Dom.getAttribute (@TagNodeRef.create Instances.tagging 2 Instances.tagPage).2 1 "title"
    = Some "female:nakadashi"
  ∧ Dom.getAttribute (@TagNodeRef.create Instances.tagging 2 Instances.tagPage).2 1
      TagNodeRef.ATTR
    = Some "nakadashi".
Proof.
  split.
  - pose proof (@create_frame Instances.tagging Instances.tempPage 2
                  (TagNodeRef.Ref (TagNodeRef.mk 1 "temp bondage" "temp bondage"))
                  (@TagNodeRef.create Instances.tagging 2 Instances.tempPage).2)
      as Hf.
    destruct Hf as (_ & _ & _ & _ & Htitle & _); [vm_compute; reflexivity|].
    exact Htitle.
  - pose proof (@create_frame Instances.tagging Instances.tagPage 2
                  (TagNodeRef.Ref Instances.tagRef)
                  (@TagNodeRef.create Instances.tagging 2 Instances.tagPage).2)
      as Hf.
    destruct Hf as (_ & _ & Hmark & _ & Htitle & _); [vm_compute; reflexivity|].
    split; [exact Htitle|exact Hmark].
Defined.

Lemma translateTag_effect_witness :
  (@Syringe.translateTag Instances.tagging 1 (Instances.fresh Instances.tagPage)).2
  = Instances.fresh Instances.tagPage.
Proof.
  apply (@translateTag_effect Instances.tagging 1 (Instances.fresh Instances.tagPage)).
  vm_compute. reflexivity.
Defined.

Lemma translateNode_keeps_suggestions_witness :
  @Syringe.translateNode Instances.tagging Instances.page 2
    (Instances.fresh Instances.suggestPage)
  = Instances.fresh Instances.suggestPage.
Proof.
  apply (@translateNode_keeps_suggestions Instances.tagging Instances.page 2 1).
  - vm_compute. reflexivity.
  - vm_compute. reflexivity.
  - right. vm_compute. reflexivity.
Defined.

Lemma translateNode_keeps_claimed_witness :
  @Syringe.translateNode Instances.tagging Instances.page 2 Instances.claimedWithoutLabel
  = Instances.claimedWithoutLabel.
Proof.
  apply (@translateNode_keeps_claimed Instances.tagging Instances.page 2 1);
    vm_compute; reflexivity.
Defined.

(** ** [Syringe.setBodyAttrs] *)

Section BodyFacts.
Implicit Types (host : Body.Host) (options : Body.Options) (config : ConfigData)
  (d : Dom) (c : list string).

Lemma alter_if (b : bool) (f : Node → Node) (n : nat) d :
  (if b then alter f n d else d) = alter (if b then f else fun nd => nd) n d.
Proof. destruct b; [done|]. by rewrite alter_id. Qed.

Lemma add_present token c : token ∈ c → Body.add token c = c.
Proof. intros Hin. unfold Body.add. by rewrite bool_decide_eq_true_2. Qed.

Lemma add_absent token c : token ∉ c → Body.add token c = (c ++ [token])%list.
Proof. intros Hin. unfold Body.add. by rewrite bool_decide_eq_false_2. Qed.

(** Removing the [ehs] classes of a list from it keeps the others, in order. *)
Lemma remove_ehs c :
  Body.remove (List.filter (Js.startsWith "ehs") c) c
  = List.filter (fun k => negb (isEhs k)) c.
Proof.
  unfold Body.remove. apply List.filter_ext_in. intros k Hk. f_equal.
  unfold isEhs. destruct (Js.startsWith "ehs" k) eqn:Ek.
  - apply bool_decide_eq_true_2, list_elem_of_In, List.filter_In. done.
  - apply bool_decide_eq_false_2. intros Hin.
    apply list_elem_of_In, List.filter_In in Hin as [_ Hin]. congruence.
Qed.

Lemma ehsTokens_add options config c :
  Forall (fun k => isEhs k = false) c →
  Body.add ("ehs-image-level-" +:+ Body.introduceImageLevel options)
    ((if translateTag config then Body.add "ehs-translate-tag" else fun l => l)
       ((if negb (Body.showIcon options) then Body.add "ehs-hide-icon" else fun l => l) c))
  = (c ++ ehsTokens options config)%list.
Proof.
  intros Hc. rewrite Forall_forall in Hc.
  assert (∀ token, isEhs token = true → token ∉ c) as Hnot.
  { intros token Ht Hin. specialize (Hc _ Hin). congruence. }
  assert (∀ token (l : list string), isEhs token = true → token ∉ l →
            token ∉ (c ++ l)%list) as Hfresh.
  { intros token l Ht Hl. apply not_elem_of_app. split; [by apply Hnot|done]. }
  unfold ehsTokens.
  destruct (Body.showIcon options), (translateTag config);
    cbv beta iota delta [negb]; rewrite ?app_nil_l.
  - rewrite (add_absent "ehs-translate-tag" c) by (by apply Hnot).
    rewrite add_absent; [by rewrite <- app_assoc|].
    apply Hfresh; [done|]. apply not_elem_of_cons. split; [discriminate|].
    apply not_elem_of_nil.
  - rewrite add_absent; [done|]. by apply Hnot.
  - rewrite (add_absent "ehs-hide-icon" c) by (by apply Hnot).
    rewrite (add_absent "ehs-translate-tag").
    2:{ apply Hfresh; [done|]. apply not_elem_of_cons. split; [discriminate|].
        apply not_elem_of_nil. }
    rewrite <- app_assoc. rewrite add_absent; [by rewrite <- app_assoc|].
    apply Hfresh; [done|]. simpl.
    apply not_elem_of_cons. split; [discriminate|].
    apply not_elem_of_cons. split; [discriminate|]. apply not_elem_of_nil.
  - rewrite (add_absent "ehs-hide-icon" c) by (by apply Hnot).
    rewrite add_absent; [by rewrite <- app_assoc|].
    apply Hfresh; [done|]. apply not_elem_of_cons. split; [discriminate|].
    apply not_elem_of_nil.
Qed.

Lemma node_ext (a b : Node) :
  nodeType a = nodeType b → nodeName a = nodeName b → localName a = localName b →
  parentNode a = parentNode b → attributes a = attributes b →
  classList a = classList b → data a = data b → content a = content b → a = b.
Proof. destruct a, b; simpl; intros; by subst. Qed.

Lemma classList_update nd : classList (Body.update nd) = classList nd.
Proof. unfold Body.update. by destruct (_ && _). Qed.

Lemma sameButClasses_refl nd : sameButClasses nd nd.
Proof. by repeat split. Qed.

(** A write through the class list changes the list and the [class]
    attribute, nothing else. *)
Lemma sameButClasses_update c nd' nd :
  sameButClasses nd' nd → sameButClasses (Body.update (Body.with_classList c nd')) nd.
Proof.
  intros (? & ? & ? & ? & ? & ? & Hattr). unfold Body.update.
  destruct (_ && _); repeat split; simpl; try done.
  intros k Hk. rewrite lookup_insert_ne by done. by apply Hattr.
Qed.

Lemma attributes_update nd :
  classList nd ≠ [] →
  attributes (Body.update nd)
  = <["class" := Body.serialize (classList nd)]> (attributes nd).
Proof.
  intros Hne. unfold Body.update.
  rewrite (bool_decide_eq_false_2 (classList nd = [])) by done.
  by rewrite andb_false_r.
Qed.

Lemma add_nonempty token c : Body.add token c ≠ [].
Proof.
  unfold Body.add. case_bool_decide as Hin.
  - intros ->. by apply elem_of_nil in Hin.
  - by destruct c.
Qed.

Lemma setBodyAttrs_alter host options config node d :
  Body.setBodyAttrs host options config node d
  = alter (bodyNode host options config) node d.
Proof.
  unfold Body.setBodyAttrs.
  assert (∀ d', (if Body.isEx host then Body.classListAdd node "ex" d'
                 else if Body.isEh host then Body.classListAdd node "eh" d'
                 else if Body.hasMatchMedia host then
                        if Body.matchesDarkTheme host then Body.classListAdd node "ex" d'
                        else Body.classListAdd node "eh" d'
                      else d')
                = alter (fun nd => match themeOf host with
                                   | Some theme =>
                                       Body.update
                                         (Body.with_classList
                                            (Body.add theme (classList nd)) nd)
                                   | None => nd
                                   end) node d') as ->.
  { intros d'. unfold themeOf, Body.classListAdd.
    destruct (Body.isEx host); [done|]. destruct (Body.isEh host); [done|].
    destruct (Body.hasMatchMedia host); [by destruct (Body.matchesDarkTheme host)|].
    symmetry. by apply alter_id. }
  unfold Body.classListRemoveEhs, Body.classListAdd.
  rewrite !alter_if.
  assert (∀ d', (if translateUi config then Dom.setAttribute node "lang" "cmn-Hans" d'
                 else Dom.setAttribute node "lang" "en" d')
                = alter (fun nd => Dom.with_attributes
                           (<["lang" := if translateUi config then "cmn-Hans" else "en"]>
                              (attributes nd)) nd) node d') as ->
    by (intros d'; by destruct (translateUi config)).
  rewrite !alter_alter_eq. apply alter_ext. intros nd _. unfold compose.
  set (themed := match themeOf host with
                 | Some theme => Body.add theme (classList nd)
                 | None => classList nd
                 end).
  set (nd1 := match themeOf host with Some theme => _ | None => nd end).
  assert (sameButClasses nd1 nd ∧ classList nd1 = themed) as [H1 C1].
  { subst nd1 themed. destruct (themeOf host).
    - split; [apply sameButClasses_update, sameButClasses_refl|].
      by rewrite classList_update.
    - split; [apply sameButClasses_refl|done]. }
  set (nd2 := Body.update (Body.with_classList _ nd1)).
  assert (sameButClasses nd2 nd
          ∧ classList nd2 = List.filter (fun k => negb (isEhs k)) themed) as [H2 C2].
  { subst nd2. split; [by apply sameButClasses_update|].
    by rewrite classList_update, <- C1, <- remove_ehs. }
  set (nd3 := (if negb (Body.showIcon options) then _ else _) nd2).
  assert (sameButClasses nd3 nd
          ∧ classList nd3
            = (if negb (Body.showIcon options) then Body.add "ehs-hide-icon"
               else fun l => l) (classList nd2)) as [H3 C3].
  { subst nd3. destruct (negb (Body.showIcon options)); [|done].
    split; [by apply sameButClasses_update|]. by rewrite classList_update. }
  set (nd4 := (if translateTag config then _ else _) nd3).
  assert (sameButClasses nd4 nd
          ∧ classList nd4
            = (if translateTag config then Body.add "ehs-translate-tag"
               else fun l => l) (classList nd3)) as [H4 C4].
  { subst nd4. destruct (translateTag config); [|done].
    split; [by apply sameButClasses_update|]. by rewrite classList_update. }
  set (lang := if translateUi config then "cmn-Hans" else "en").
  set (nd5 := Dom.with_attributes (<["lang" := lang]> (attributes nd4)) nd4).
  set (level := "ehs-image-level-" +:+ Body.introduceImageLevel options).
  set (nd6 := Body.with_classList (Body.add level (classList nd5)) nd5).
  assert (classList nd6 = bodyClasses host options config (classList nd)) as C6.
  { subst nd6 nd5. simpl. rewrite C4, C3, C2. unfold bodyClasses. fold themed.
    apply ehsTokens_add, Forall_forall. intros k Hk.
    apply list_elem_of_In, List.filter_In in Hk as [_ Hk]. by apply negb_true_iff. }
  destruct H4 as (? & ? & ? & ? & ? & ? & Hattr).
  apply node_ext; rewrite ?classList_update; try done;
    try (unfold Body.update; destruct (_ && _); simpl; done).
  rewrite attributes_update by (subst nd6; simpl; apply add_nonempty).
  rewrite C6. unfold bodyNode. simpl. fold lang.
  apply map_eq. intros k.
  destruct (decide (k = "class")) as [->|Hclass]; [by rewrite !lookup_insert_eq|].
  rewrite !(lookup_insert_ne _ "class") by done.
  destruct (decide (k = "lang")) as [->|Hlang]; [by rewrite !lookup_insert_eq|].
  rewrite !(lookup_insert_ne _ "lang") by done. by apply Hattr.
Qed.

Lemma themeOf_cases host theme :
  themeOf host = Some theme → theme = "ex" ∨ theme = "eh".
Proof.
  unfold themeOf. destruct (Body.isEx host); [intros [= <-]; by left|].
  destruct (Body.isEh host); [intros [= <-]; by right|].
  destruct (Body.hasMatchMedia host); [|done].
  destruct (Body.matchesDarkTheme host); intros [= <-]; [by left|by right].
Qed.

Lemma ehsTokens_isEhs options config :
  Forall (fun k => isEhs k = true) (ehsTokens options config).
Proof.
  unfold ehsTokens.
  destruct (Body.showIcon options), (translateTag config); repeat constructor.
Qed.

Lemma filter_not_ehs_tokens options config :
  List.filter (fun k => negb (isEhs k)) (ehsTokens options config) = [].
Proof.
  pose proof (ehsTokens_isEhs options config) as Hall.
  induction Hall as [|k l Hk Hall IH]; simpl; [done|]. by rewrite Hk.
Qed.

Lemma filter_idem {A} (f : A → bool) (l : list A) :
  List.filter f (List.filter f l) = List.filter f l.
Proof.
  induction l as [|a l IH]; simpl; [done|].
  destruct (f a) eqn:Ea; simpl; [by rewrite Ea, IH|done].
Qed.

Lemma elem_of_add token k c : k ∈ Body.add token c ↔ k = token ∨ k ∈ c.
Proof.
  unfold Body.add. case_bool_decide as Hin.
  - split; [by right|]. intros [->|]; done.
  - rewrite elem_of_app, list_elem_of_singleton. tauto.
Qed.

Lemma bodyClasses_idem host options config c :
  bodyClasses host options config (bodyClasses host options config c)
  = bodyClasses host options config c.
Proof.
  unfold bodyClasses.
  set (themed := match themeOf host with Some theme => Body.add theme c | None => c end).
  assert (match themeOf host with
          | Some theme =>
              Body.add theme
                (List.filter (fun k => negb (isEhs k)) themed ++ ehsTokens options config)
          | None => (List.filter (fun k => negb (isEhs k)) themed
                     ++ ehsTokens options config)%list
          end
          = (List.filter (fun k => negb (isEhs k)) themed ++ ehsTokens options config)%list)
    as ->.
  { subst themed. destruct (themeOf host) as [theme|] eqn:Ht; [|done].
    apply add_present, elem_of_app. left.
    apply list_elem_of_In, List.filter_In. split.
    - apply list_elem_of_In, elem_of_add. by left.
    - by destruct (themeOf_cases host theme Ht) as [-> | ->]. }
  by rewrite List.filter_app, filter_idem, filter_not_ehs_tokens, app_nil_r.
Qed.

Lemma parentElement_ext d d' :
  (∀ q, parentNode <$> d' !! q = parentNode <$> d !! q) →
  (∀ q, nodeType <$> d' !! q = nodeType <$> d !! q) →
  ∀ m, Dom.parentElement d' m = Dom.parentElement d m.
Proof.
  intros Hpar Hty m. unfold Dom.parentElement.
  specialize (Hpar m).
  destruct (d' !! m) as [x|], (d !! m) as [y|]; simpl in *; try done.
  injection Hpar as ->. destruct (parentNode y) as [q|]; simpl; [|done].
  specialize (Hty q).
  destruct (d' !! q) as [x'|], (d !! q) as [y'|]; simpl in *; try done.
  by injection Hty as ->.
Qed.

(** X10.  [setBodyAttrs] is idempotent: a second call with the same host
    and configuration leaves the document as the first call left it. *)
Theorem setBodyAttrs_idempotent host options config node d :
  Body.setBodyAttrs host options config node
    (Body.setBodyAttrs host options config node d)
  = Body.setBodyAttrs host options config node d.
Proof.
  rewrite !setBodyAttrs_alter, alter_alter_eq. apply alter_ext. intros nd _.
  unfold compose, bodyNode. simpl. rewrite bodyClasses_idem. f_equal.
  apply map_eq. intros k.
  destruct (decide (k = "class")) as [->|Hclass]; [by rewrite !lookup_insert_eq|].
  rewrite !(lookup_insert_ne _ "class") by done.
  destruct (decide (k = "lang")) as [->|Hlang]; [by rewrite !lookup_insert_eq|].
  by repeat (rewrite lookup_insert_ne by done).
Qed.

(** X11.  After [setBodyAttrs] the [ehs-] classes of the body are those of
    the current configuration and no others: [ehs-translate-tag] is there
    exactly when tags are translated, [ehs-hide-icon] exactly when icons are
    hidden, and of the image-level classes exactly the current one, whatever
    classes an earlier configuration left; a class of the page that does
    not start with [ehs] and is not a theme class is there exactly when it
    was there before. *)
Theorem setBodyAttrs_classes host options config node d nd :
  d !! node = Some nd →
  ∃ nd', Body.setBodyAttrs host options config node d !! node = Some nd'
    ∧ ("ehs-translate-tag" ∈ classList nd' ↔ translateTag config = true)
    ∧ ("ehs-hide-icon" ∈ classList nd' ↔ Body.showIcon options = false)
    ∧ (∀ level, "ehs-image-level-" +:+ level ∈ classList nd'
                ↔ level = Body.introduceImageLevel options)
    ∧ (∀ k, isEhs k = true → k ∈ classList nd' →
            k ∈ ["ehs-hide-icon"; "ehs-translate-tag";
                 "ehs-image-level-" +:+ Body.introduceImageLevel options])
    ∧ (∀ k, isEhs k = false → k ≠ "ex" → k ≠ "eh" →
            (k ∈ classList nd' ↔ k ∈ classList nd)).
Proof.
  intros Hnd. exists (bodyNode host options config nd).
  split; [by rewrite setBodyAttrs_alter, lookup_alter, decide_True, Hnd|].
  unfold bodyNode. simpl. unfold bodyClasses.
  set (themed := match themeOf host with
                 | Some theme => Body.add theme (classList nd)
                 | None => classList nd
                 end).
  assert (∀ k, isEhs k = true →
            (k ∈ (List.filter (fun k => negb (isEhs k)) themed
                  ++ ehsTokens options config)%list
             ↔ k ∈ ehsTokens options config)) as Hehs.
  { intros k Hk. rewrite elem_of_app. split; [|by right].
    intros [Hin|Hin]; [|done].
    apply list_elem_of_In, List.filter_In in Hin as [_ Hin]. by rewrite Hk in Hin. }
  split; [|split; [|split; [|split]]].
  - rewrite Hehs by done. unfold ehsTokens.
    destruct (Body.showIcon options), (translateTag config); simpl;
      rewrite ?elem_of_cons, ?elem_of_nil; split; intros Hg;
      try done; try (by left); try (by right; left);
      repeat destruct Hg as [Hg|Hg]; try discriminate Hg; done.
  - rewrite Hehs by done. unfold ehsTokens.
    destruct (Body.showIcon options), (translateTag config); simpl;
      rewrite ?elem_of_cons, ?elem_of_nil; split; intros Hg;
      try done; try (by left);
      repeat destruct Hg as [Hg|Hg]; try discriminate Hg; done.
  - intros level. rewrite Hehs by done. unfold ehsTokens.
    assert ("ehs-image-level-" +:+ level
            = "ehs-image-level-" +:+ Body.introduceImageLevel options
            ↔ level = Body.introduceImageLevel options) as Hinj.
    { split; [apply (inj (String.app "ehs-image-level-"))|by intros ->]. }
    destruct (Body.showIcon options), (translateTag config); simpl;
      rewrite ?elem_of_cons, ?elem_of_nil, Hinj; split; intros Hg;
      try tauto; repeat destruct Hg as [Hg|Hg]; try discriminate Hg; tauto.
  - intros k Hk Hin. apply Hehs in Hin; [|done]. revert Hin. unfold ehsTokens.
    destruct (Body.showIcon options), (translateTag config); simpl;
      rewrite ?elem_of_cons, ?elem_of_nil; tauto.
  - intros k Hk Hex Heh. rewrite elem_of_app. split.
    + intros [Hin|Hin].
      * apply list_elem_of_In, List.filter_In in Hin as [Hin _].
        apply list_elem_of_In in Hin. subst themed.
        destruct (themeOf host) as [theme|] eqn:Ht; [|done].
        apply elem_of_add in Hin as [->|Hin]; [|done].
        by destruct (themeOf_cases host theme Ht).
      * pose proof (ehsTokens_isEhs options config) as Hall.
        rewrite Forall_forall in Hall. specialize (Hall _ Hin). congruence.
    + intros Hin. left. apply list_elem_of_In, List.filter_In. split.
      * apply list_elem_of_In. subst themed.
        destruct (themeOf host); [|done]. apply elem_of_add. by right.
      * by rewrite Hk.
Qed.

(** X12.  [setBodyAttrs] touches nothing but the class list, the [class]
    attribute and the [lang] attribute of the node it is given: every other
    node, what each element shows, the tree and every other attribute (the
    marker of a claimed element among them) are as before; [lang] is
    [cmn-Hans] exactly when the generic pass is enabled, and the [class]
    attribute is the class list as the call leaves it, written out with
    spaces. *)
Theorem setBodyAttrs_frame host options config node d :
  (∀ m, m ≠ node → Body.setBodyAttrs host options config node d !! m = d !! m)
  ∧ (∀ m, Dom.contentOf (Body.setBodyAttrs host options config node d) m
          = Dom.contentOf d m
          ∧ Dom.parentElement (Body.setBodyAttrs host options config node d) m
            = Dom.parentElement d m)
  ∧ (∀ m k, k ≠ "lang" → k ≠ "class" →
       Dom.getAttribute (Body.setBodyAttrs host options config node d) m k
       = Dom.getAttribute d m k)
  ∧ (is_Some (d !! node) →
       Dom.getAttribute (Body.setBodyAttrs host options config node d) node "lang"
       = Some (if translateUi config then "cmn-Hans" else "en"))
  ∧ (∀ nd', Body.setBodyAttrs host options config node d !! node = Some nd' →
       Dom.getAttribute (Body.setBodyAttrs host options config node d) node "class"
       = Some (Body.serialize (classList nd'))).
Proof.
  rewrite setBodyAttrs_alter.
  assert (∀ m, alter (bodyNode host options config) node d !! m
               = (if decide (node = m) then bodyNode host options config <$> d !! m
                  else d !! m)) as Hl.
  { intros m. rewrite lookup_alter. by destruct (decide (node = m)) as [->|]. }
  split; [intros m Hm; by rewrite Hl, decide_False|].
  split; [|split; [|split]].
  - intros m. split.
    + unfold Dom.contentOf. rewrite Hl.
      destruct (decide (node = m)); [|done]. by destruct (d !! m).
    + apply parentElement_ext; intros q; rewrite Hl;
        (destruct (decide (node = q)); [|done]); by destruct (d !! q).
  - intros m k Hlang Hclass. unfold Dom.getAttribute. rewrite Hl.
    destruct (decide (node = m)); [|done].
    destruct (d !! m) as [nd|]; simpl; [|done]. by rewrite !lookup_insert_ne.
  - intros [nd Hnd]. unfold Dom.getAttribute. rewrite Hl, decide_True, Hnd by done.
    simpl. rewrite lookup_insert_ne by done. apply lookup_insert_eq.
  - intros nd'. unfold Dom.getAttribute. rewrite Hl, decide_True by done.
    destruct (d !! node) as [nd|]; simpl; [|done].
    intros [= <-]. simpl. apply lookup_insert_eq.
Qed.

End BodyFacts.

Lemma setBodyAttrs_classes_witness :
  ∃ nd', Body.setBodyAttrs (Body.mkHost true false false false)
           (Body.mkOptions true "r18") Instances.disabled 0 Instances.stalePage !! 0
         = Some nd'
         ∧ classList nd' = ["gm"; "ex"; "ehs-image-level-r18"].
Proof.
  destruct (setBodyAttrs_classes (Body.mkHost true false false false)
              (Body.mkOptions true "r18") Instances.disabled 0 Instances.stalePage
              (Instances.element "BODY" "body" None []
                 ["ehs-translate-tag"; "gm"; "ehs-image-level-none"]) eq_refl)
    as (nd' & Hnd' & _).
  exists nd'. split; [exact Hnd'|].
  revert Hnd'. vm_compute. by intros [= <-].
Defined.

Lemma setBodyAttrs_frame_witness :
  Dom.getAttribute
    (Body.setBodyAttrs (Body.mkHost true false false false)
       (Body.mkOptions true "r18") Instances.disabled 0 Instances.stalePage) 0 "lang"
  = Some "cmn-Hans"
  ∧ Dom.getAttribute
      (Body.setBodyAttrs (Body.mkHost true false false false)
         (Body.mkOptions true "r18") Instances.disabled 0 Instances.stalePage) 0 "class"
    = Some "gm ex ehs-image-level-r18".
Proof.
  destruct (setBodyAttrs_frame (Body.mkHost true false false false)
              (Body.mkOptions true "r18") Instances.disabled 0 Instances.stalePage)
    as (_ & _ & _ & Hlang & Hclass).
  split; [apply Hlang; vm_compute; eauto|].
  rewrite (Hclass (bodyNode (Body.mkHost true false false false)
                     (Body.mkOptions true "r18") Instances.disabled
                     (Instances.element "BODY" "body" None []
                        ["ehs-translate-tag"; "gm"; "ehs-image-level-none"])));
    vm_compute; reflexivity.
Defined.

(** ** [Syringe.updateConfig] *)

Section ConfigFacts.
Context `{Tagging.t} `{Page.t}.
Implicit Types (s : Syringe.t) (r : TagNodeRef.t).

(** X13.  A configuration change takes effect on the page at once, for a
    registry with one entry per element and whatever the body pass does:
    the new configuration is current and stored, the dictionary cache is
    not touched, the dictionary in use is the last one used or else the
    cached one, and every entry alive afterwards shows its original text
    with [lang] [en] when the new configuration disables tag translation,
    or the non-empty label that dictionary has for its key, with [lang]
    [cmn-Hans], when it enables it. *)
Theorem updateConfig_rerenders (nv : ConfigData) s :
  NoDup (TagNodeRef.node <$> Syringe.tags s) →
  let s' := Syringe.updateConfig nv s in
  Syringe.config s' = nv
  ∧ storedConfig (Syringe.storage s') = nv
  ∧ databaseMap (Syringe.storage s') = databaseMap (Syringe.storage s)
  ∧ databaseSha (Syringe.storage s') = databaseSha (Syringe.storage s)
  ∧ Syringe.tagMap s'
    = match Syringe.tagMap s with
      | Some m => Some m
      | None => databaseMap (Syringe.storage s)
      end
  ∧ ∀ r, r ∈ Syringe.tags s' → TagNodeRef.alive r (Syringe.document s') = true →
      (translateTag nv = false →
         view (Syringe.document s') (TagNodeRef.node r)
         = (Some (InnerText (TagNodeRef.original r)), Some "en"))
      ∧ (∀ m label, translateTag nv = true → Syringe.tagMap s' = Some m →
           m !! TagNodeRef.fullKey r = Some (Some label) → Js.truthy label = true →
           view (Syringe.document s') (TagNodeRef.node r)
           = (Some (InnerHTML (TagNodeRef.rendered r label)), Some "cmn-Hans")).
Proof.
  intros Hnd s'. subst s'. unfold Syringe.updateConfig.
  set (s3 := match Page.body _ with Some body => _ | None => _ end).
  assert (Syringe.tags s3 = Syringe.tags s ∧ Syringe.config s3 = nv
          ∧ Syringe.tagMap s3 = Syringe.tagMap s
          ∧ Syringe.storage s3
            = mkStorage (databaseMap (Syringe.storage s))
                (databaseSha (Syringe.storage s)) nv) as (Htags & Hcfg & Hmap & Hsto).
  { subst s3. case_match; repeat split; try reflexivity. }
  unfold Syringe.translateTags. simpl. rewrite Hcfg, Hmap, Hsto, Htags. simpl.
  repeat (split; [done|]).
  set (D := match Syringe.tagMap s with
            | Some m => Some m
            | None => databaseMap (Syringe.storage s)
            end).
  intros r Hr Ha.
  fold (translateEach nv D
          (List.filter (fun r => TagNodeRef.alive r (Syringe.document s3)) (Syringe.tags s))
          (Syringe.document s3)) in *.
  rewrite view_translateEach_self; [|by apply NoDup_fmap_filter|done|done].
  unfold outcome. split.
  - by intros ->.
  - intros m label -> HD Hm Hl. cbn [negb]. rewrite HD.
    by rewrite (valueFor_label r m label Hm), Hl.
Qed.

End ConfigFacts.

Lemma updateConfig_rerenders_witness :
  view (Syringe.document
          (@Syringe.updateConfig Instances.tagging Instances.page Instances.disabled
             Instances.renderedUnderD1)) 1
  = (Some (InnerText "nakadashi"), Some "en")
  ∧ view (Syringe.document
            (@Syringe.updateConfig Instances.tagging Instances.page Instances.enabled
               (@Syringe.updateConfig Instances.tagging Instances.page Instances.disabled
                  Instances.renderedUnderD1))) 1
    = (Some (InnerHTML "中出"), Some "cmn-Hans").
Proof.
  split.
  - destruct (@updateConfig_rerenders Instances.tagging Instances.page Instances.disabled
                Instances.renderedUnderD1) as (_ & _ & _ & _ & _ & Hall).
    { apply (bool_decide_unpack _). vm_compute. exact I. }
    apply (Hall Instances.tagRef); [| |reflexivity].
    + apply (bool_decide_unpack _). vm_compute. exact I.
    + vm_compute. reflexivity.
  - destruct (@updateConfig_rerenders Instances.tagging Instances.page Instances.enabled
                (@Syringe.updateConfig Instances.tagging Instances.page Instances.disabled
                   Instances.renderedUnderD1)) as (_ & _ & _ & _ & _ & Hall).
    { apply (bool_decide_unpack _). vm_compute. exact I. }
    destruct (Hall Instances.tagRef) as [_ Hon].
    + apply (bool_decide_unpack _). vm_compute. exact I.
    + vm_compute. reflexivity.
    + apply (Hon Instances.D1 "中出"); vm_compute; reflexivity.
Defined.

(** ** After a refresh *)

Section AfterRefresh.
Context `{Tagging.t}.
Implicit Types (s : Syringe.t) (o : Outcome) (p : nat).

(** The state in which the suspended body of call [p] runs, and its last
    block. *)
Lemma settle_eq p o s :
  p ∈ Syringe.pending s →
  Syringe.settle p o s
  = (Syringe.resume p o
       (Syringe.with_pending
          (List.filter (fun q => negb (Nat.eqb q p)) (Syringe.pending s)) s)).2.
Proof.
  intros Hin. unfold Syringe.settle. rewrite bool_decide_eq_true_2 by done.
  by rewrite resume_eq.
Qed.

Lemma storage_finish p s : Syringe.storage (finish p s) = Syringe.storage s.
Proof. unfold finish. by case_bool_decide. Qed.

Lemma nextPromise_settle p o s :
  Syringe.nextPromise (Syringe.settle p o s) = Syringe.nextPromise s.
Proof.
  unfold Syringe.settle. case_bool_decide; [|done].
  rewrite resume_eq. simpl. unfold finish.
  assert (∀ x, Syringe.nextPromise
                 (if bool_decide
                       (Syringe.updatingTagMap
                          (Syringe.log (TimerEnd Syringe.timerLabel) x) = Some p)
                  then Syringe.with_updatingTagMap None
                         (Syringe.log (TimerEnd Syringe.timerLabel) x)
                  else Syringe.log (TimerEnd Syringe.timerLabel) x)
               = Syringe.nextPromise x) as ->
    by (intros x; by case_bool_decide).
  destruct o as [data|ex]; [|done].
  destruct (map data) as [entries|]; [|done].
  destruct (Syringe.buildTagMap entries ∅); done.
Qed.

(** X14.  A settlement never wedges the refresh: when the provider
    settles the request of the call in flight, with whatever outcome, the
    guard is cleared, and the next call of [updateTagMap] emits one new
    request that carries the fingerprint then in the cache: the one the
    provider returned when a map arrived and decoded, the one cached
    before when the request failed or the fingerprint was current. *)
Theorem settle_allows_retry p o s :
  Syringe.updatingTagMap s = Some p → Syringe.pending s = [p] →
  let s' := Syringe.settle p o s in
  Syringe.updatingTagMap s' = None
  ∧ Syringe.pending s' = []
  ∧ Syringe.emitted (Syringe.updateTagMap s')
    = (Syringe.emitted s ++ [mkRequest "get-tag-map" (databaseSha (Syringe.storage s'))])%list
  ∧ Syringe.pending (Syringe.updateTagMap s') = [Syringe.nextPromise s]
  ∧ databaseSha (Syringe.storage s')
    = match o with
      | Fulfilled data =>
          if fails o then databaseSha (Syringe.storage s)
          else match map data with
               | Some _ => Some (sha data)
               | None => databaseSha (Syringe.storage s)
               end
      | Rejected _ => databaseSha (Syringe.storage s)
      end.
Proof.
  intros Hg Hp s'.
  assert (p ∈ Syringe.pending s) as Hin by (rewrite Hp; apply list_elem_of_here).
  pose proof (nextPromise_settle p o s) as Hnext. fold s' in Hnext.
  assert (refreshState s' = (None, [], Syringe.emitted s)) as [= Hg' Hp' He'].
  { subst s'. rewrite settle_eq by done. rewrite refreshState_resume. simpl.
    rewrite Hg, Hp. simpl. rewrite Nat.eqb_refl. simpl.
    by rewrite bool_decide_eq_true_2. }
  split; [done|]. split; [done|].
  unfold Syringe.updateTagMap. rewrite Hg'. simpl. rewrite He', Hp', Hnext.
  split; [done|]. split; [done|].
  subst s'. rewrite settle_eq by done. rewrite resume_eq. simpl.
  rewrite storage_finish.
  destruct o as [data|ex]; simpl; [|done].
  destruct (map data) as [entries|]; simpl; [|done].
  destruct (Syringe.buildTagMap entries ∅); done.
Qed.

(** An assignment to a property of the dictionary under construction. *)
Lemma lookup_set (acc : Js.Obj) key name k :
  acc !! "__proto__" = None →
  Js.set key name acc !! "__proto__" = None
  ∧ Js.set key name acc !! k
    = if decide (k = key ∧ key ≠ "__proto__") then Some name else acc !! k.
Proof.
  intros Hacc. unfold Js.set.
  destruct (decide (key = "__proto__")) as [->|Hkey].
  - rewrite Hacc, !bool_decide_eq_true_2 by done. simpl.
    split; [done|]. rewrite decide_False; [done|]. by intros [_ ?].
  - rewrite (bool_decide_eq_false_2 (key = "__proto__")) by done. simpl.
    split; [by rewrite lookup_insert_ne|].
    destruct (decide (k = key)) as [->|Hne].
    + rewrite lookup_insert_eq. by rewrite decide_True.
    + rewrite lookup_insert_ne by done. rewrite decide_False; [done|]. by intros [? _].
Qed.

(** The dictionary built from the answer, with an accumulator. *)
Lemma buildTagMap_lookup entries (acc tm : Js.Obj) :
  acc !! "__proto__" = None →
  Syringe.buildTagMap entries acc = Syringe.Normal tm →
  tm !! "__proto__" = None
  ∧ (NoDup entries.*1 →
     ∀ k name, tm !! k = Some name
               ↔ ((k, Named name) ∈ entries ∧ k ≠ "__proto__")
                 ∨ ((k ∉ entries.*1) ∧ acc !! k = Some name)).
Proof.
  revert acc. induction entries as [|[key [|name']] entries IH]; intros acc Hacc; simpl.
  - intros [= <-]. split; [done|]. intros _ k name. split.
    + intros Hk. right. split; [apply not_elem_of_nil|done].
    + intros [[Hin _]|[_ Hk]]; [by apply elem_of_nil in Hin|done].
  - discriminate.
  - intros Hb. destruct (lookup_set acc key name' key Hacc) as [Hproto _].
    destruct (IH _ Hproto Hb) as [Htm Hrest]. split; [done|].
    intros Hnd k name. apply NoDup_cons in Hnd as [Hkey Hnd].
    rewrite (Hrest Hnd k name), elem_of_cons, not_elem_of_cons.
    rewrite (proj2 (lookup_set acc key name' k Hacc)).
    destruct (decide (k = key ∧ key ≠ "__proto__")) as [[-> Hk]|Hno].
    + split.
      * intros [[Hin _]|[_ [= ->]]]; [|by left; split; [left|]].
        exfalso. apply Hkey. apply list_elem_of_fmap. by exists (key, Named name).
      * intros [[[[= ->]|Hin] _]|[[Hk' _] _]]; [by right|by left|done].
    + split.
      * intros [[Hin Hk]|[Hk Hacc']]; [by left; split; [right|]|].
        right. split; [|done]. split; [|done].
        intros ->. apply Hno. split; [done|]. intros ->. by rewrite Hacc in Hacc'.
      * intros [[[[= -> _]|Hin] Hk]|[[_ Hk] Hacc']]; [|by left|by right].
        exfalso. by apply Hno.
Qed.

(** X15.  The dictionary [updateTagMap] builds from the provider's map:
    it is built exactly when no value of the map is [null] or [undefined],
    a [TypeError] is thrown otherwise; it never gets an own property
    [__proto__]; and when it is built (the keys of an object being
    distinct) its own properties are the keys of the map other than
    [__proto__], each with the name of its value, [undefined] for a value
    without a name. *)
Theorem buildTagMap_spec (entries : list (string * MapEntry)) :
  (Forall (fun e => e.2 ≠ Nullish) entries ↔
     ∃ tm, Syringe.buildTagMap entries ∅ = Syringe.Normal tm)
  ∧ (∀ ex, Syringe.buildTagMap entries ∅ = Syringe.Throw ex → ex = "TypeError")
  ∧ (∀ tm, Syringe.buildTagMap entries ∅ = Syringe.Normal tm →
       tm !! "__proto__" = None
       ∧ (NoDup entries.*1 →
          ∀ k name, tm !! k = Some name ↔ (k, Named name) ∈ entries ∧ k ≠ "__proto__")).
Proof.
  split; [|split].
  - generalize (∅ : Js.Obj). induction entries as [|[key [|name]] entries IH];
      intros acc; simpl.
    + split; [eauto|constructor].
    + split; [intros Hall; by apply Forall_cons in Hall as [? _]|].
      intros [tm [=]].
    + rewrite Forall_cons, (IH (Js.set key name acc)). simpl. split; [tauto|].
      intros Htm. split; [done|done].
  - generalize (∅ : Js.Obj). induction entries as [|[key [|name]] entries IH];
      intros acc ex; simpl; [done|by intros [= <-]|apply IH].
  - intros tm Hb.
    destruct (buildTagMap_lookup entries ∅ tm (lookup_empty _) Hb) as [Hproto Hlookup].
    split; [done|]. intros Hnd k name. rewrite (Hlookup Hnd).
    split; [intros [Hin|[_ Hk]]; [done|by rewrite lookup_empty in Hk]|by left].
Qed.

(** X16.  A refreshed label reaches the page and the cache: when the
    request of a pending call is fulfilled with a map without [null] and
    [undefined] values and with distinct keys, then, tag translation being
    enabled and the registry holding one entry per element, every entry
    alive afterwards whose key is not [__proto__] and has a non-empty name
    in the map shows that name, with [lang] [cmn-Hans]; the cached
    dictionary has the name under the key and the cached fingerprint is the
    provider's. *)
Theorem refresh_reaches_page p (data : TagMapData) entries s :
  p ∈ Syringe.pending s →
  map data = Some entries →
  Forall (fun e => e.2 ≠ Nullish) entries → NoDup entries.*1 →
  translateTag (Syringe.config s) = true →
  NoDup (TagNodeRef.node <$> Syringe.tags s) →
  let s' := Syringe.settle p (Fulfilled data) s in
  databaseSha (Syringe.storage s') = Some (sha data)
  ∧ ∀ r name, r ∈ Syringe.tags s' → TagNodeRef.alive r (Syringe.document s') = true →
      TagNodeRef.fullKey r ≠ "__proto__" →
      (TagNodeRef.fullKey r, Named (Some name)) ∈ entries → Js.truthy name = true →
      view (Syringe.document s') (TagNodeRef.node r)
      = (Some (InnerHTML (TagNodeRef.rendered r name)), Some "cmn-Hans")
      ∧ (databaseMap (Syringe.storage s') ≫= (fun m => m !! TagNodeRef.fullKey r))
        = Some (Some name).
Proof.
  intros Hin Hmap Hall Hkeys Hcfg Hnd s'. subst s'.
  rewrite settle_eq by done. rewrite resume_eq. simpl. rewrite Hmap.
  destruct (proj1 (proj1 (buildTagMap_spec entries)) Hall) as [tm Htm].
  rewrite Htm.
  destruct (proj2 (proj2 (buildTagMap_spec entries)) tm Htm) as [_ Hlookup].
  specialize (Hlookup Hkeys).
  set (s1 := Syringe.with_pending _ s).
  set (body := Syringe.log _ _).
  assert (Syringe.storage (finish p body) = Syringe.storage body
          ∧ Syringe.tags (finish p body) = Syringe.tags body
          ∧ Syringe.document (finish p body) = Syringe.document body)
    as (-> & -> & ->) by (unfold finish; by case_bool_decide).
  subst body. simpl. split; [done|].
  intros r name Hr Ha Hproto Hentry Hname.
  assert (tm !! TagNodeRef.fullKey r = Some (Some name)) as Htmr by (by apply Hlookup).
  split; [|done].
  fold (translateEach (Syringe.config s) (Some tm)
          (List.filter (fun r => TagNodeRef.alive r (Syringe.document s)) (Syringe.tags s))
          (Syringe.document s)) in *.
  rewrite view_translateEach_self; [|by apply NoDup_fmap_filter|done|done].
  unfold outcome. rewrite Hcfg. cbn [negb].
  by rewrite (valueFor_label r tm name Htmr), Hname.
Qed.

End AfterRefresh.

Lemma settle_allows_retry_witness :
  Syringe.emitted
    (Syringe.updateTagMap
       (@Syringe.settle Instances.tagging 0 (Rejected "NetworkError") Instances.refreshing))
  = [mkRequest "get-tag-map" None; mkRequest "get-tag-map" None]
  ∧ Syringe.emitted
      (Syringe.updateTagMap
         (@Syringe.settle Instances.tagging 0 (Fulfilled Instances.newLabels)
            Instances.refreshing))
    = [mkRequest "get-tag-map" None; mkRequest "get-tag-map" (Some "abc")].
Proof.
  split.
  - destruct (@settle_allows_retry Instances.tagging 0 (Rejected "NetworkError")
                Instances.refreshing eq_refl eq_refl) as (_ & _ & He & _ & Hsha).
    rewrite He, Hsha. reflexivity.
  - destruct (@settle_allows_retry Instances.tagging 0 (Fulfilled Instances.newLabels)
                Instances.refreshing eq_refl eq_refl) as (_ & _ & He & _ & Hsha).
    rewrite He, Hsha. reflexivity.
Defined.

Lemma buildTagMap_spec_witness :
  ∃ tm, Syringe.buildTagMap
          [("female:nakadashi", Named (Some "内射")); ("__proto__", Named (Some "x"));
           ("male:glasses", Named None)] ∅
        = Syringe.Normal tm
        ∧ tm !! "male:glasses" = Some None
        ∧ Js.get tm "__proto__" = Js.Member "__proto__".
Proof.
  destruct (buildTagMap_spec
              [("female:nakadashi", Named (Some "内射")); ("__proto__", Named (Some "x"));
               ("male:glasses", Named None)])
    as (Hbuilt & _ & Hlookup).
  destruct (proj1 Hbuilt) as [tm Htm].
  { repeat constructor; simpl; discriminate. }
  destruct (Hlookup tm Htm) as [Hproto Hown].
  exists tm. split; [exact Htm|]. split.
  - apply Hown.
    + apply (bool_decide_unpack _). vm_compute. exact I.
    + split; [|discriminate].
      apply list_elem_of_further, list_elem_of_further, list_elem_of_here.
  - unfold Js.get. rewrite Hproto. reflexivity.
Defined.

Lemma refresh_reaches_page_witness :
  view (Syringe.document
          (@Syringe.settle Instances.tagging 0 (Fulfilled Instances.newLabels)
             Instances.refreshing)) 1
  = (Some (InnerHTML "内射"), Some "cmn-Hans").
Proof.
  destruct (@refresh_reaches_page Instances.tagging 0 Instances.newLabels
              [("female:nakadashi", Named (Some "内射"));
               ("male:glasses", Named (Some "眼镜"))]
              Instances.refreshing) as [_ Hall].
  - apply list_elem_of_here.
  - reflexivity.
  - repeat constructor; simpl; discriminate.
  - apply (bool_decide_unpack _). vm_compute. exact I.
  - reflexivity.
  - apply (bool_decide_unpack _). vm_compute. exact I.
  - apply (Hall Instances.tagRef "内射").
    + apply (bool_decide_unpack _). vm_compute. exact I.
    + vm_compute. reflexivity.
    + discriminate.
    + apply list_elem_of_here.
    + reflexivity.
Defined.

(** ** Over every sequence of events *)

Section RunFacts.
Context `{Tagging.t} `{Page.t}.
Implicit Types (s : Syringe.t) (e : Syringe.Event) (events : list Syringe.Event).

Lemma ambient_translateTag n s : ambient (Syringe.translateTag n s).2 = ambient s.
Proof.
  unfold Syringe.translateTag.
  destruct (Dom.parentElement _ n); [|done].
  destruct (negb _); [done|]. destruct (_ || _); [done|]. destruct (_ && _); [done|].
  destruct (TagNodeRef.create _ _) as [[r'|b] d']; done.
Qed.

Lemma ambient_translateNode n s : ambient (Syringe.translateNode n s) = ambient s.
Proof.
  unfold Syringe.translateNode.
  destruct (Syringe.skipped _ n); [done|].
  set (s1 := if Syringe.isNode _ n "body" then _ else s).
  assert (ambient s1 = ambient s) as <-
    by (subst s1; destruct (Syringe.isNode _ n "body"); done).
  pose proof (ambient_translateTag n s1) as Ht.
  destruct (Syringe.translateTag n s1) as [handled s2]. simpl in Ht.
  destruct (negb handled && _); done.
Qed.

Lemma ambient_observerCallback mutations s :
  ambient (Syringe.observerCallback mutations s) = ambient s.
Proof.
  apply (observerCallback_keeps (fun s' => ambient s' = ambient s)); [|done].
  intros n s' <-. apply ambient_translateNode.
Qed.

Lemma ambient_updateConfig nv s :
  Syringe.documentEnd (Syringe.updateConfig nv s) = Syringe.documentEnd s
  ∧ databaseMap (Syringe.storage (Syringe.updateConfig nv s))
    = databaseMap (Syringe.storage s)
  ∧ databaseSha (Syringe.storage (Syringe.updateConfig nv s))
    = databaseSha (Syringe.storage s)
  ∧ Syringe.logger (Syringe.updateConfig nv s) = Syringe.logger s
  ∧ Syringe.unhandled (Syringe.updateConfig nv s) = Syringe.unhandled s.
Proof.
  unfold Syringe.updateConfig, Syringe.translateTags. simpl.
  case_match; repeat split; try reflexivity.
Qed.

Lemma ambient_settle p o s :
  Syringe.documentEnd (Syringe.settle p o s) = Syringe.documentEnd s
  ∧ Syringe.unhandled (Syringe.settle p o s) = Syringe.unhandled s
  ∧ (p ∉ Syringe.pending s → Syringe.settle p o s = s)
  ∧ (p ∈ Syringe.pending s →
       ∃ entry, Syringe.logger (Syringe.settle p o s)
                = (Syringe.logger s ++ [entry; TimerEnd Syringe.timerLabel])%list
                ∧ match entry with Log _ _ | Error _ => True | _ => False end).
Proof.
  unfold Syringe.settle. case_bool_decide as Hin.
  2:{ repeat split; try done. }
  rewrite resume_eq. simpl.
  set (s1 := Syringe.with_pending _ s).
  set (body := match o with Rejected _ => _ | Fulfilled _ => _ end).
  assert (Syringe.documentEnd (finish p body) = Syringe.documentEnd body
          ∧ Syringe.unhandled (finish p body) = Syringe.unhandled body
          ∧ Syringe.logger (finish p body)
            = (Syringe.logger body ++ [TimerEnd Syringe.timerLabel])%list)
    as (-> & -> & ->) by (unfold finish; by case_bool_decide).
  assert (Syringe.documentEnd body = Syringe.documentEnd s
          ∧ Syringe.unhandled body = Syringe.unhandled s
          ∧ ∃ entry, Syringe.logger body = (Syringe.logger s ++ [entry])%list
                     ∧ match entry with Log _ _ | Error _ => True | _ => False end)
    as (-> & -> & entry & -> & Hentry).
  { subst body. destruct o as [data|ex]; [|by repeat split; eexists].
    destruct (map data) as [entries|]; [|by repeat split; eexists].
    destruct (Syringe.buildTagMap entries ∅); by repeat split; eexists. }
  split; [done|]. split; [done|]. split; [done|].
  intros _. exists entry. by rewrite <- app_assoc.
Qed.

(** X17.  [documentEnd] is set by the ready signal and by nothing else,
    and nothing resets it: after any sequence of events it holds exactly
    when it held before or the sequence contains the ready signal. *)
Theorem documentEnd_run events s :
  Syringe.documentEnd (Syringe.run events s)
  = Syringe.documentEnd s || existsb isReady events.
Proof.
  revert s. induction events as [|e events IH]; intros s.
  { simpl. by rewrite orb_false_r. }
  unfold Syringe.run in *. cbn [foldl existsb]. rewrite IH.
  destruct e as [|p o|mutations| |nv]; unfold Syringe.step, isReady.
  - f_equal. unfold Syringe.updateTagMap. by destruct (Syringe.updatingTagMap s).
  - by destruct (ambient_settle p o s) as (-> & _).
  - pose proof (ambient_observerCallback mutations s) as [= -> _ _ _]. done.
  - simpl. by rewrite orb_true_r.
  - by destruct (ambient_updateConfig nv s) as (-> & _).
Qed.

(** X18.  Only a settled refresh writes the dictionary cache: over a
    sequence of events without a settlement (calls of [updateTagMap],
    mutation batches, the ready signal, configuration changes) the cached
    dictionary and fingerprint stay as they were. *)
Theorem cache_kept_without_settlement events s :
  Forall (fun e => isSettled e = false) events →
  databaseMap (Syringe.storage (Syringe.run events s)) = databaseMap (Syringe.storage s)
  ∧ databaseSha (Syringe.storage (Syringe.run events s))
    = databaseSha (Syringe.storage s).
Proof.
  revert s. induction events as [|e events IH]; intros s Hall; [done|].
  apply Forall_cons in Hall as [He Hall].
  unfold Syringe.run in *. cbn [foldl].
  destruct (IH (Syringe.step s e) Hall) as [-> ->].
  destruct e as [|p o|mutations| |nv]; unfold Syringe.step; try done.
  - unfold Syringe.updateTagMap. by destruct (Syringe.updatingTagMap s).
  - pose proof (ambient_observerCallback mutations s) as [= _ -> _ _]. done.
  - by destruct (ambient_updateConfig nv s) as (_ & -> & -> & _).
Qed.

(** X19.  No event leaves a promise rejected without a handler: over
    every sequence of events the list of unhandled rejections stays as it
    was. *)
Theorem unhandled_run events s :
  Syringe.unhandled (Syringe.run events s) = Syringe.unhandled s.
Proof.
  revert s. induction events as [|e events IH]; intros s; [done|].
  unfold Syringe.run in *. cbn [foldl]. rewrite IH.
  destruct e as [|p o|mutations| |nv]; unfold Syringe.step; try done.
  - unfold Syringe.updateTagMap. by destruct (Syringe.updatingTagMap s).
  - by destruct (ambient_settle p o s) as (_ & -> & _).
  - pose proof (ambient_observerCallback mutations s) as [= _ _ _ ->]. done.
  - by destruct (ambient_updateConfig nv s) as (_ & _ & _ & _ & ->).
Qed.

Lemma started_app l1 l2 : started (l1 ++ l2) = (started l1 + started l2)%nat.
Proof. unfold started. by rewrite List.filter_app, length_app. Qed.

Lemma ended_app l1 l2 : ended (l1 ++ l2) = (ended l1 + ended l2)%nat.
Proof. unfold ended. by rewrite List.filter_app, length_app. Qed.

Lemma timers_step s e :
  guardInv s →
  started (Syringe.logger s) = (ended (Syringe.logger s) + length (Syringe.pending s))%nat →
  started (Syringe.logger (Syringe.step s e))
  = (ended (Syringe.logger (Syringe.step s e))
     + length (Syringe.pending (Syringe.step s e)))%nat.
Proof.
  intros Hinv Hbal.
  assert (∀ s', Syringe.logger s' = Syringe.logger s →
                Syringe.pending s' = Syringe.pending s →
                started (Syringe.logger s')
                = (ended (Syringe.logger s') + length (Syringe.pending s'))%nat) as Hsame
    by (intros s' -> ->; done).
  destruct e as [|p o|mutations| |nv]; unfold Syringe.step.
  - unfold Syringe.updateTagMap.
    destruct Hinv as [[Hg Hp]|(q & Hg & Hp)]; rewrite Hg; [|done].
    simpl. rewrite started_app, ended_app, length_app, Hbal. simpl.
    unfold started, ended. simpl. lia.
  - destruct (ambient_settle p o s) as (_ & _ & Hout & Hin).
    destruct (decide (p ∈ Syringe.pending s)) as [Hp|Hp]; [|by rewrite (Hout Hp)].
    destruct (Hin Hp) as (entry & -> & Hentry).
    pose proof (refreshState_resume p o
      (Syringe.with_pending
         (List.filter (fun q => negb (Nat.eqb q p)) (Syringe.pending s)) s)) as Hr.
    rewrite <- settle_eq in Hr by done. injection Hr as _ Hpend _.
    rewrite Hpend. simpl.
    destruct Hinv as [[_ Hp0]|(q & _ & Hp0)]; rewrite Hp0 in *.
    { by apply elem_of_nil in Hp. }
    apply list_elem_of_singleton in Hp as ->.
    simpl. rewrite Nat.eqb_refl. simpl.
    rewrite started_app, ended_app, Hbal. simpl.
    unfold started, ended. destruct entry; simpl in *; try done; lia.
  - apply Hsame.
    + pose proof (ambient_observerCallback mutations s) as [= _ _ -> _]. done.
    + pose proof (refreshState_observerCallback mutations s) as [= _ -> _]. done.
  - by apply Hsame.
  - apply Hsame.
    + by destruct (ambient_updateConfig nv s) as (_ & _ & _ & -> & _).
    + pose proof (refreshState_updateConfig nv s) as Hr.
      unfold refreshState in Hr. congruence.
Qed.

(** X20.  The timer of a refresh is always ended: from a plugin without
    a refresh in flight and with as many timers ended as started, after
    every sequence of events the timers started are those ended plus one
    for the refresh in flight, if there is one. *)
Theorem timers_balanced events s :
  Syringe.updatingTagMap s = None → Syringe.pending s = [] →
  started (Syringe.logger s) = ended (Syringe.logger s) →
  started (Syringe.logger (Syringe.run events s))
  = (ended (Syringe.logger (Syringe.run events s))
     + length (Syringe.pending (Syringe.run events s)))%nat
  ∧ (length (Syringe.pending (Syringe.run events s)) ≤ 1)%nat.
Proof.
  intros Hg Hp Hbal.
  assert (guardInv s) as Hinv by (by left).
  assert (started (Syringe.logger s)
          = (ended (Syringe.logger s) + length (Syringe.pending s))%nat) as Hbal'
    by (rewrite Hp, Hbal; simpl; lia).
  clear Hg Hp Hbal. revert s Hinv Hbal'.
  induction events as [|e events IH]; intros s Hinv Hbal.
  { unfold Syringe.run. cbn [foldl]. split; [done|].
    destruct Hinv as [[_ ->]|(q & _ & ->)]; simpl; lia. }
  unfold Syringe.run in *. cbn [foldl]. apply IH.
  - by apply guardInv_budget_step.
  - by apply timers_step.
Qed.

End RunFacts.

Lemma cache_kept_without_settlement_witness :
  databaseSha
    (Syringe.storage
       (@Syringe.run Instances.tagging Instances.page
          [Syringe.UpdateTagMap; Syringe.Ready; Syringe.ConfigChanged Instances.disabled;
           Syringe.Mutated [Syringe.mkMutation [Instances.addedTag]]]
          (Instances.fresh Instances.tagPage)))
  = None.
Proof.
  apply (@cache_kept_without_settlement Instances.tagging Instances.page
           [Syringe.UpdateTagMap; Syringe.Ready; Syringe.ConfigChanged Instances.disabled;
            Syringe.Mutated [Syringe.mkMutation [Instances.addedTag]]]
           (Instances.fresh Instances.tagPage)).
  repeat constructor.
Defined.

Lemma timers_balanced_witness :
  started
    (Syringe.logger
       (@Syringe.run Instances.tagging Instances.page
          [Syringe.UpdateTagMap; Syringe.Settled 0 (Rejected "NetworkError");
           Syringe.UpdateTagMap]
          (Instances.fresh Instances.tagPage)))
  = (ended
       (Syringe.logger
          (@Syringe.run Instances.tagging Instances.page
             [Syringe.UpdateTagMap; Syringe.Settled 0 (Rejected "NetworkError");
              Syringe.UpdateTagMap]
             (Instances.fresh Instances.tagPage)))
     + length
         (Syringe.pending
            (@Syringe.run Instances.tagging Instances.page
               [Syringe.UpdateTagMap; Syringe.Settled 0 (Rejected "NetworkError");
                Syringe.UpdateTagMap]
               (Instances.fresh Instances.tagPage))))%nat.
Proof.
  apply (@timers_balanced Instances.tagging Instances.page
           [Syringe.UpdateTagMap; Syringe.Settled 0 (Rejected "NetworkError");
            Syringe.UpdateTagMap]
           (Instances.fresh Instances.tagPage)); reflexivity.
Defined.

(** ** What rendering leaves alone *)

Section RenderFrame.
Context `{Tagging.t}.
Implicit Types (d : Dom) (r : TagNodeRef.t) (cfg : ConfigData).

Lemma getAttribute_write d n c v m k :
  k ≠ "lang" → Dom.getAttribute (Dom.write n c v d) m k = Dom.getAttribute d m k.
Proof.
  intros Hk. unfold Dom.getAttribute. rewrite lookup_write.
  destruct (d !! m) as [nd|]; simpl; [|done].
  unfold Dom.writeNode. destruct (decide (n = m)); simpl.
  - by rewrite lookup_insert_ne.
  - by rewrite attributes_detach.
Qed.

Lemma lookup_write_other d n c v m nd :
  m ≠ n → d !! m = Some nd →
  Dom.write n c v d !! m = Some nd
  ∨ (parentNode nd = Some n ∧ Dom.write n c v d !! m = Some (Dom.with_parentNode None nd)).
Proof.
  intros Hne Hnd. rewrite lookup_write, Hnd. simpl.
  unfold Dom.writeNode. rewrite decide_False by done. unfold Dom.detach.
  case_bool_decide; [by right|by left].
Qed.

(** X21.  Rendering a tag disturbs nothing of the page but what its own
    element shows: whatever the configuration and the dictionary,
    [translate] leaves every attribute other than [lang] of every node as it
    was (the marker and the title among them), leaves [lang] and the
    children of every other node as they were, keeps the record of every
    other node of the page, except that a child of the element loses its
    parent when the content of the element is replaced, and gives no node
    of the page a parent it did not have. *)
Theorem translate_frame cfg r (D : option Js.Obj) d :
  (∀ m k, k ≠ "lang" →
     Dom.getAttribute (TagNodeRef.translate cfg r D d).2 m k = Dom.getAttribute d m k)
  ∧ (∀ m, m ≠ TagNodeRef.node r →
       view (TagNodeRef.translate cfg r D d).2 m = view d m)
  ∧ (∀ m nd, m ≠ TagNodeRef.node r → d !! m = Some nd →
       (TagNodeRef.translate cfg r D d).2 !! m = Some nd
       ∨ (parentNode nd = Some (TagNodeRef.node r)
          ∧ (TagNodeRef.translate cfg r D d).2 !! m
            = Some (Dom.with_parentNode None nd)))
  ∧ (∀ m p, is_Some (d !! m) →
       Dom.parentElement (TagNodeRef.translate cfg r D d).2 m = Some p →
       Dom.parentElement d m = Some p).
Proof.
  split; [|split; [|split]].
  - intros m k Hk. rewrite translate_eq.
    destruct (negb (TagNodeRef.alive r d)); [done|].
    destruct (negb (translateTag cfg)); simpl; [by apply getAttribute_write|].
    destruct (valueFor r D); simpl; [by apply getAttribute_write|done].
  - intros m Hm. by apply view_translate_other.
  - intros m nd Hm Hnd. rewrite translate_eq.
    destruct (negb (TagNodeRef.alive r d)); [by left|].
    destruct (negb (translateTag cfg)); simpl; [by apply lookup_write_other|].
    destruct (valueFor r D); simpl; [by apply lookup_write_other|by left].
  - intros m p _. rewrite translate_eq.
    destruct (negb (TagNodeRef.alive r d)); [done|].
    destruct (negb (translateTag cfg)); simpl; [apply parentElement_write|].
    destruct (valueFor r D); simpl; [apply parentElement_write|done].
Qed.

End RenderFrame.

Lemma translate_frame_witness :
  Dom.getAttribute
    (@TagNodeRef.translate Instances.tagging Instances.enabled Instances.tagRef
       (Some Instances.D1) Instances.tagPage).2 1 "title"
  = Some "female:nakadashi"
  ∧ (@TagNodeRef.translate Instances.tagging Instances.enabled Instances.tagRef
       (Some Instances.D1) Instances.tagPage).2 !! 2
    = Some (Instances.text None "nakadashi").
Proof.
  destruct (@translate_frame Instances.tagging Instances.enabled Instances.tagRef
              (Some Instances.D1) Instances.tagPage) as (Hattr & _ & Hrec & _).
  split; [rewrite Hattr by done; reflexivity|].
  destruct (Hrec 2 (Instances.text (Some 1) "nakadashi")) as [Hkept|[_ Hcut]];
    [done|reflexivity| |exact Hcut].
  exfalso. revert Hkept. vm_compute. discriminate.
Defined.

(** ** The rules of the archiver page *)

Section ArchiverFacts.
Implicit Types (s p ds : string) (c : ascii).

Lemma isDigit_not c c' :
  Archiver.isDigit c = true → Archiver.isDigit c' = false → Ascii.eqb c c' = false.
Proof.
  intros Hc Hc'. apply Ascii.eqb_neq. intros ->. congruence.
Qed.

Lemma includes_absent c p s : occurs c s = false → Js.includes (String c p) s = false.
Proof.
  induction s as [|a s IH]; [done|].
  intros Ho. simpl in Ho. apply orb_false_iff in Ho as [Ha Hs].
  rewrite includes_unfold, (IH Hs), orb_false_r. simpl.
  rewrite Ascii.eqb_sym, Ha. done.
Qed.

Lemma replaceFirst_absent p by_ s :
  Js.includes p s = false → Js.replaceFirst p by_ s = s.
Proof.
  induction s as [|a s IH]; rewrite includes_unfold; intros Hi;
    apply orb_false_iff in Hi as [Hst Hrest].
  - simpl. destruct p; [done|]. done.
  - simpl. destruct (Js.startsWith p (String a s)) eqn:E; [done|].
    by rewrite (IH Hrest).
Qed.

Lemma replaceFirst_skip p by_ c s :
  Js.startsWith p (String c s) = false →
  Js.replaceFirst p by_ (String c s) = String c (Js.replaceFirst p by_ s).
Proof. intros Hst. simpl. simpl in Hst. by rewrite Hst. Qed.

Lemma occurs_digits c ds :
  Archiver.isDigit c = false → allDigits ds = true → occurs c ds = false.
Proof.
  intros Hc. induction ds as [|a ds IH]; simpl; [done|].
  intros Hd. apply andb_true_iff in Hd as [Ha Hds].
  by rewrite (isDigit_not a c Ha Hc), (IH Hds).
Qed.

(** A literal rule whose pattern starts with something that is not a
    digit passes over leading digits. *)
Lemma replaceFirst_digits c p by_ ds s :
  Archiver.isDigit c = false → allDigits ds = true →
  Js.replaceFirst (String c p) by_ (ds +:+ s)
  = ds +:+ Js.replaceFirst (String c p) by_ s.
Proof.
  intros Hc. induction ds as [|a ds IH]; [done|].
  intros Hd. simpl in Hd. apply andb_true_iff in Hd as [Ha Hds].
  change (String a ds +:+ s) with (String a (ds +:+ s)).
  rewrite replaceFirst_skip.
  - rewrite (IH Hds). done.
  - simpl. by rewrite Ascii.eqb_sym, (isDigit_not a c Ha Hc).
Qed.

Lemma digits_run ds c s :
  allDigits ds = true → Archiver.isDigit c = false →
  Archiver.digits (ds +:+ String c s) = (ds, String c s).
Proof.
  intros Hd Hc. induction ds as [|a ds IH].
  - simpl. change ("" +:+ String c s) with (String c s). simpl. by rewrite Hc.
  - simpl in Hd. apply andb_true_iff in Hd as [Ha Hds].
    change (String a ds +:+ String c s) with (String a (ds +:+ String c s)).
    simpl. by rewrite Ha, (IH Hds).
Qed.

(** X22.  The rules of the archiver page translate every notice of a
    queued resample download in full: for every non-empty run of digits,
    [A <digits>x resolution download has been queued for client] becomes
    the resolution followed by the translated notice; the second and the
    third rule both rewrite it, and the phrase table has no entry that
    would pre-empt them. *)
Theorem archiver_queued_notice `{DateTime.t} (ds : string) (s : Syringe.t) :
  allDigits ds = true → Js.truthy ds = true →
  (let out := ds +:+ "x 分辨率的下载请求已添加到下载队列，使用客户端" in
   DateTime.rewriteNumericDates out = out ∧ DateTime.rewriteNamedDates out = out) →
  Syringe.translateUiText Archiver.uiData s
    ("A " +:+ ds +:+ "x resolution download has been queued for client")
  = Some (ds +:+ "x 分辨率的下载请求已添加到下载队列，使用客户端").
Proof.
  intros Hd Hne Hdates.
  set (text := "A " +:+ ds +:+ "x resolution download has been queued for client").
  assert (text = String "A" (String " "
            (ds +:+ "x resolution download has been queued for client"))) as Htext
    by reflexivity.
  assert (UiTranslation.plainReplacements Archiver.uiData !! text = None) as Hplain.
  { apply not_elem_of_list_to_map_1. rewrite Htext. simpl.
    repeat (apply not_elem_of_cons; split; [discriminate|]). apply not_elem_of_nil. }
  unfold Syringe.translateUiText. rewrite Hplain.
  assert (foldl (fun repText kv => UiTranslation.rxReplace kv repText) text
            (UiTranslation.regexReplacements Archiver.uiData)
          = ds +:+ "x 分辨率的下载请求已添加到下载队列，使用客户端") as ->.
  { unfold Archiver.uiData, UiTranslation.regexReplacements, Archiver.regex.
    cbn [foldl UiTranslation.literal UiTranslation.rxReplace].
    assert (Js.replaceFirst "An original resolution" "原始分辨率" text = text) as ->.
    { apply replaceFirst_absent. rewrite Htext.
      assert (∀ x, Js.startsWith "An original resolution" (String "A" (String " " x))
                   = false) as H1 by reflexivity.
      assert (∀ x, Js.startsWith "An original resolution" (String " " x) = false)
        as H2 by reflexivity.
      rewrite includes_unfold, H1, orb_false_l, includes_unfold, H2, orb_false_l.
      apply includes_absent.
      rewrite occurs_app, (occurs_digits "A" ds) by done. reflexivity. }
    assert (Archiver.replaceResolution text
            = ds +:+ "x 分辨率 download has been queued for client") as ->.
    { rewrite Htext.
      assert (Archiver.resolutionAt
                (String "A" (String " "
                   (ds +:+ "x resolution download has been queued for client")))
              = Some (ds +:+ "x", " download has been queued for client")) as Hat.
      { unfold Archiver.resolutionAt.
        assert (∀ x, Js.startsWith "A " (String "A" (String " " x)) = true) as ->
          by reflexivity.
        assert (∀ x, Js.slice 2 (String "A" (String " " x)) = x) as ->
          by reflexivity.
        rewrite (digits_run ds "x" " resolution download has been queued for client")
          by done.
        rewrite Hne. reflexivity. }
      unfold Archiver.replaceResolution. fold Archiver.replaceResolution.
      rewrite Hat. rewrite append_assoc. reflexivity. }
    rewrite replaceFirst_digits by done. reflexivity. }
  unfold Syringe.translateTimestamps.
  destruct Hdates as [Hn1 Hn2].
  assert ((if bool_decide (translateTimestamp (Syringe.config s) ≠ Some false)
           then DateTime.rewriteNamedDates
                  (DateTime.rewriteNumericDates
                     (ds +:+ "x 分辨率的下载请求已添加到下载队列，使用客户端"))
           else ds +:+ "x 分辨率的下载请求已添加到下载队列，使用客户端")
          = ds +:+ "x 分辨率的下载请求已添加到下载队列，使用客户端") as ->.
  { case_bool_decide; [|done]. by rewrite Hn1, Hn2. }
  rewrite bool_decide_eq_true_2; [done|].
  rewrite Htext. destruct ds as [|a ds']; [done|].
  simpl in Hd. apply andb_true_iff in Hd as [Ha _].
  intros [= Heq _]. subst a. discriminate Ha.
Qed.

End ArchiverFacts.

Lemma archiver_queued_notice_witness :
  @Syringe.translateUiText Instances.noDates Archiver.uiData
    (Instances.fresh Instances.tagPage)
    "A 780x resolution download has been queued for client"
  = Some "780x 分辨率的下载请求已添加到下载队列，使用客户端".
Proof.
  apply (@archiver_queued_notice Instances.noDates "780"); try reflexivity.
  split; reflexivity.
Defined.
